(** * ClaudeCondom: the session mediator of [AIWrapper]

    A shallow embedding of the class [AIWrapper] (output handler, stream
    classifier, prompt interceptor, polling loop of [processRequest]) and
    the properties of its specification.

    JavaScript strings are sequences of UTF-16 code units; they are
    modelled as lists of [N].  Regular expressions are embedded as an
    abstract syntax interpreted by a backtracking matcher that follows the
    priorities of the JavaScript engine (leftmost match, greedy and lazy
    stars, iterations that consume nothing are rejected). *)

From Stdlib Require Import String Ascii List NArith PeanoNat Bool Lia
  ZArith.
Import ListNotations.
Local Open Scope N_scope.
Local Open Scope list_scope.

Set Implicit Arguments.

(** ** Strings *)

Module Str.

Definition str := list N.

(** Decoding of a UTF-8 literal into UTF-16 code units, so that the
    literals of the source can be written as they are. *)
Fixpoint utf8 (bs : list N) : str :=
  match bs with
  | [] => []
  | b0 :: t0 =>
    if b0 <? 128 then b0 :: utf8 t0
    else if b0 <? 224 then
      match t0 with
      | b1 :: t1 => ((b0 - 192) * 64 + (b1 - 128)) :: utf8 t1
      | [] => [b0]
      end
    else if b0 <? 240 then
      match t0 with
      | b1 :: b2 :: t2 =>
        ((b0 - 224) * 4096 + (b1 - 128) * 64 + (b2 - 128)) :: utf8 t2
      | _ => [b0]
      end
    else
      match t0 with
      | b1 :: b2 :: b3 :: t3 =>
        let cp := (b0 - 240) * 262144 + (b1 - 128) * 4096
                  + (b2 - 128) * 64 + (b3 - 128) - 65536 in
        (55296 + cp / 1024) :: (56320 + cp mod 1024) :: utf8 t3
      | _ => [b0]
      end
  end.

Definition u (s : string) : str :=
  utf8 (map N_of_ascii (list_ascii_of_string s)).

Definition LF : N := 10.
Definition CR : N := 13.
Definition ESC : N := 27.
Definition DQUOTE : N := 34.

Definition in_range (lo hi c : N) : bool := (lo <=? c) && (c <=? hi).

(** WhiteSpace and LineTerminator of ECMAScript: what [trim] strips and
    what [\s] matches. *)
Definition isSpace (c : N) : bool :=
  in_range 9 13 c || (c =? 32) || (c =? 160) || (c =? 5760)
  || in_range 8192 8202 c || (c =? 8232) || (c =? 8233) || (c =? 8239)
  || (c =? 8287) || (c =? 12288) || (c =? 65279).

(** [\w] *)
Definition isWord (c : N) : bool :=
  in_range 97 122 c || in_range 65 90 c || in_range 48 57 c || (c =? 95).

(** [\d] *)
Definition isDigit (c : N) : bool := in_range 48 57 c.

(** [.] without the [s] flag: anything but a line terminator. *)
Definition isDot (c : N) : bool :=
  negb ((c =? 10) || (c =? 13) || (c =? 8232) || (c =? 8233)).

Fixpoint eqb (a b : str) : bool :=
  match a, b with
  | [], [] => true
  | x :: a', y :: b' => (x =? y) && eqb a' b'
  | _, _ => false
  end.

Fixpoint trimStart (s : str) : str :=
  match s with
  | c :: s' => if isSpace c then trimStart s' else s
  | [] => []
  end.

Definition trimEnd (s : str) : str := rev (trimStart (rev s)).

Definition trim (s : str) : str := trimEnd (trimStart s).

Fixpoint startsWith (s p : str) : bool :=
  match p, s with
  | [], _ => true
  | x :: p', y :: s' => (x =? y) && startsWith s' p'
  | _ :: _, [] => false
  end.

Fixpoint includes (s p : str) : bool :=
  startsWith s p || match s with
                    | [] => false
                    | _ :: s' => includes s' p
                    end.

(** [s.split(sep)] for a separator of one code unit. *)
Fixpoint split (sep : N) (s : str) : list str :=
  match s with
  | [] => [[]]
  | c :: s' =>
    if c =? sep then [] :: split sep s'
    else match split sep s' with
         | l :: ls => (c :: l) :: ls
         | [] => [[c]]
         end
  end.

Fixpoint join (sep : str) (ls : list str) : str :=
  match ls with
  | [] => []
  | [l] => l
  | l :: ls' => l ++ sep ++ join sep ls'
  end.

Fixpoint takeWhile (p : N -> bool) (s : str) : str :=
  match s with
  | c :: s' => if p c then c :: takeWhile p s' else []
  | [] => []
  end.

Fixpoint dropWhile (p : N -> bool) (s : str) : str :=
  match s with
  | c :: s' => if p c then dropWhile p s' else s
  | [] => []
  end.

(** [a.slice(-n)] on arrays, [n > 0]. *)
Definition sliceLast {A} (n : nat) (l : list A) : list A :=
  skipn (length l - n) l.

End Str.

Import Str.

(** ** Regular expressions *)

Module Regex.

Inductive regex : Type :=
| Eps
| Chr (p : N -> bool)
| Cat (r1 r2 : regex)
| Alt (r1 r2 : regex)
| Star (r : regex)
| StarLazy (r : regex)
| Bol
| Eol.

Definition one (c : N) : regex := Chr (N.eqb c).
Definition oneOf (cs : str) : regex := Chr (fun c => existsb (N.eqb c) cs).
Definition noneOf (cs : str) : regex :=
  Chr (fun c => negb (existsb (N.eqb c) cs)).
Definition range (lo hi : N) : regex := Chr (in_range lo hi).
Definition Plus (r : regex) : regex := Cat r (Star r).
Definition space : regex := Chr isSpace.
Definition word : regex := Chr isWord.
Definition digit : regex := Chr isDigit.
Definition dot : regex := Chr isDot.

Fixpoint lit (s : str) : regex :=
  match s with
  | [] => Eps
  | [c] => one c
  | c :: s' => Cat (one c) (lit s')
  end.

Fixpoint seq (rs : list regex) : regex :=
  match rs with
  | [] => Eps
  | [r] => r
  | r :: rs' => Cat r (seq rs')
  end.

Fixpoint alts (rs : list regex) : regex :=
  match rs with
  | [] => Chr (fun _ => false)
  | [r] => r
  | r :: rs' => Alt r (alts rs')
  end.

Section Matcher.
Variable A : Type.

(** One more iteration of a star is accepted only if the last one
    consumed something; [fuel] bounds the number of iterations by the
    length of the input. *)
Fixpoint greedy (step : nat -> str -> (nat -> str -> option A) -> option A)
         (k : nat -> str -> option A) (fuel : nat) (i : nat) (s : str)
  : option A :=
  match fuel with
  | O => k i s
  | S fuel' =>
    match step i s (fun j t =>
            if (length t <? length s)%nat then greedy step k fuel' j t
            else None) with
    | Some a => Some a
    | None => k i s
    end
  end.

Fixpoint lazy (step : nat -> str -> (nat -> str -> option A) -> option A)
         (k : nat -> str -> option A) (fuel : nat) (i : nat) (s : str)
  : option A :=
  match fuel with
  | O => k i s
  | S fuel' =>
    match k i s with
    | Some a => Some a
    | None =>
      step i s (fun j t =>
        if (length t <? length s)%nat then lazy step k fuel' j t
        else None)
    end
  end.

(** [m r i s k]: match [r] against [s], which starts at index [i] of the
    input, and hand the index and the rest to the continuation [k]; the
    first success in the order of the backtracking search is the result. *)
Fixpoint m (r : regex) (i : nat) (s : str)
           (k : nat -> str -> option A) {struct r} : option A :=
  match r with
  | Eps => k i s
  | Chr p =>
    match s with
    | c :: s' => if p c then k (S i) s' else None
    | [] => None
    end
  | Cat r1 r2 => m r1 i s (fun j t => m r2 j t k)
  | Alt r1 r2 =>
    match m r1 i s k with
    | Some a => Some a
    | None => m r2 i s k
    end
  | Star r1 => greedy (m r1) k (length s) i s
  | StarLazy r1 => lazy (m r1) k (length s) i s
  | Bol => match i with O => k i s | S _ => None end
  | Eol => match s with [] => k i s | _ :: _ => None end
  end.

(** A step of a star respects the extensional equality of continuations,
    and fails when its continuation always fails. *)
Definition ext_step
  (step : nat -> str -> (nat -> str -> option A) -> option A) : Prop :=
  forall i s k1 k2, (forall j t, k1 j t = k2 j t) -> step i s k1 = step i s k2.

Definition strict_step
  (step : nat -> str -> (nat -> str -> option A) -> option A) : Prop :=
  forall i s, step i s (fun _ _ => None) = None.

End Matcher.

(** The leftmost match at or after index [i], as (start, end). *)
Fixpoint search (r : regex) (i : nat) (s : str) : option (nat * nat) :=
  match m r i s (fun j _ => Some j) with
  | Some j => Some (i, j)
  | None =>
    match s with
    | [] => None
    | _ :: s' => search r (S i) s'
    end
  end.

(** [r.test(s)], also the truth value of [s.match(r)]. *)
Definition test (r : regex) (s : str) : bool :=
  match search r 0 s with
  | Some _ => true
  | None => false
  end.

(** [s.replace(r, rep)] for a regex without the [g] flag. *)
Definition replace (r : regex) (rep : str) (s : str) : str :=
  match search r 0 s with
  | Some (a, b) => firstn a s ++ rep ++ skipn b s
  | None => s
  end.

(** [s.replace(r, rep)] with the [g] flag; [s] is the input from index [i]
    on.  After an empty match the search resumes one code unit later. *)
Fixpoint replaceFrom (fuel : nat) (r : regex) (rep : str) (i : nat) (s : str)
  : str :=
  match fuel with
  | O => s
  | S fuel' =>
    match search r i s with
    | None => s
    | Some (a, b) =>
      let pre := firstn (a - i) s in
      if (b =? a)%nat then
        match skipn (a - i) s with
        | [] => pre ++ rep
        | c :: rest => pre ++ rep ++ c :: replaceFrom fuel' r rep (S a) rest
        end
      else pre ++ rep ++ replaceFrom fuel' r rep b (skipn (b - i) s)
    end
  end.

Definition replaceAll (r : regex) (rep : str) (s : str) : str :=
  replaceFrom (S (length s)) r rep 0 s.

(** [s.match(r)] with the [g] flag: the matched substrings in order. *)
Fixpoint matchFrom (fuel : nat) (r : regex) (i : nat) (s : str) : list str :=
  match fuel with
  | O => []
  | S fuel' =>
    match search r i s with
    | None => []
    | Some (a, b) =>
      let found := firstn (b - a) (skipn (a - i) s) in
      if (b =? a)%nat then
        match skipn (a - i) s with
        | [] => [found]
        | _ :: rest => found :: matchFrom fuel' r (S a) rest
        end
      else found :: matchFrom fuel' r b (skipn (b - i) s)
    end
  end.

Definition matchAll (r : regex) (s : str) : list str :=
  matchFrom (S (length s)) r 0 s.

(** The matches of a regex, declaratively: [matches r i w rest] when [r]
    can consume [w] at index [i] of an input that goes on with [rest]. *)
Inductive matches : regex -> nat -> str -> str -> Prop :=
| M_eps i rest : matches Eps i [] rest
| M_chr p c i rest : p c = true -> matches (Chr p) i [c] rest
| M_cat r1 r2 i w1 w2 rest :
    matches r1 i w1 (w2 ++ rest) ->
    matches r2 (i + length w1) w2 rest ->
    matches (Cat r1 r2) i (w1 ++ w2) rest
| M_alt_l r1 r2 i w rest : matches r1 i w rest -> matches (Alt r1 r2) i w rest
| M_alt_r r1 r2 i w rest : matches r2 i w rest -> matches (Alt r1 r2) i w rest
| M_star_nil r i rest : matches (Star r) i [] rest
| M_star_cons r i w1 w2 rest :
    w1 <> [] ->
    matches r i w1 (w2 ++ rest) ->
    matches (Star r) (i + length w1) w2 rest ->
    matches (Star r) i (w1 ++ w2) rest
| M_lazy_nil r i rest : matches (StarLazy r) i [] rest
| M_lazy_cons r i w1 w2 rest :
    w1 <> [] ->
    matches r i w1 (w2 ++ rest) ->
    matches (StarLazy r) (i + length w1) w2 rest ->
    matches (StarLazy r) i (w1 ++ w2) rest
| M_bol rest : matches Bol 0 [] rest
| M_eol i : matches Eol i [] [].

End Regex.

Import Regex.

(** ** The wrapper

    The fields of [AIWrapper] that the claims depend on are the state of
    the model: the output buffer, the process handle and the personality
    prompt.  The pseudo-terminal and the secondary model are the
    environment: what arrives while the wrapper is suspended is a
    parameter of the world, and the replies of the model are a parameter
    of [processRequest].  Console output, the debug logger and the
    listener callbacks ([onClaudeOutput], [onClaudeProcessing]) have no
    effect on the state and are left out. *)

Module AIWrapper.

(** *** Pattern tables *)

(** [hasPermissionPrompt]'s [promptPatterns]. *)
Definition promptPatterns : list regex :=
  [ lit (u "Do you want to proceed?");
    seq [lit (u "❯"); Star space; lit (u "1."); Star space; lit (u "Yes")];
    seq [lit (u "2."); Star space; lit (u "Yes"); Star dot;
         lit (u "don't ask again")];
    seq [lit (u "3."); Star space; lit (u "No"); Star dot;
         lit (u "tell Claude")];
    lit (u "Bash command");
    lit (u "List all files and folders");
    lit (u "find /home/casey/claude-condom");
    lit (u "[Y/n]");
    seq [lit (u "Continue?"); Star space; lit (u "(")];
    seq [lit (u "Press"); Star dot; lit (u "to continue")] ].

(** [isSafeCommand]'s [safeCommands]. *)
Definition safeCommands : list regex :=
  [ seq [lit (u "find"); Star dot; lit (u "-type"); Plus space; lit (u "f")];
    seq [lit (u "find"); Star dot; lit (u "-type"); Plus space; lit (u "d")];
    seq [lit (u "ls"); Star space];
    seq [lit (u "ls"); Plus space; lit (u "-"); Star (oneOf (u "lah"))];
    lit (u "pwd");
    seq [lit (u "head"); Plus space];
    seq [lit (u "tail"); Plus space];
    seq [lit (u "cat"); Plus space; Star dot; lit (u ".");
         alts [lit (u "md"); lit (u "txt"); lit (u "json"); lit (u "js");
               lit (u "ts"); lit (u "py")]];
    seq [lit (u "grep"); Plus space];
    seq [lit (u "wc"); Plus space];
    seq [lit (u "file"); Plus space] ].

(** The patterns of the output handler. *)
Definition colorCodes : regex :=
  seq [one ESC; lit (u "["); Star (Alt (range 48 57) (one 59)); lit (u "m")].

Definition escapeSequences : regex :=
  seq [one ESC; lit (u "["); Star (Alt (range 48 57) (one 59));
       Alt (range 65 90) (range 97 122)].

Definition carriageReturn : regex := one CR.

(** The patterns of [extractMeaningfulContent]. *)
Definition glyphs : str := u "✻✽✶*✢·⚒".

Definition thinkingAnimation : regex :=
  seq [Bol; oneOf glyphs; Star space; Plus word; lit (u "…")].

Definition uiNoise : regex :=
  seq [Bol;
       alts [seq [lit (u "?"); Star dot; lit (u "for shortcuts")];
             lit (u "Press Ctrl-C");
             lit (u "Try " ++ [DQUOTE] ++ u "refactor");
             lit (u "Auto-updating to v");
             seq [lit (u "✗"); Star dot; lit (u "Auto-update failed")]];
       Eol].

Definition boxChars : str := u "│┌┐└┘├┤┬┴┼─═║╔╗╚╝╠╣╦╩╬╭╮╰╯".

Definition boxOrSpace : regex :=
  Chr (fun c => existsb (N.eqb c) boxChars || isSpace c).

Definition leadingBox : regex := seq [Bol; Star boxOrSpace].
Definition trailingBox : regex := seq [Star boxOrSpace; Eol].

Definition timingIndicator : regex :=
  seq [lit (u "("); Plus digit; lit (u "s"); Star space; lit (u "·");
       StarLazy dot; lit (u ")")].

(** The pattern of [extractKeyContent]'s fallback. *)
Definition sentence : regex :=
  seq [range 65 90; Star (noneOf (u ".!?")); oneOf (u ".!?")].

(** *** Stream classifier *)

Definition cleanLineOf (line : str) : str :=
  trim (replace timingIndicator []
         (replace trailingBox [] (replace leadingBox [] line))).

Fixpoint extractMeaningfulContent (lines : list str) : list str :=
  match lines with
  | [] => []
  | line :: rest =>
    if (length (trim line) =? 0)%nat then extractMeaningfulContent rest
    else if test thinkingAnimation line then extractMeaningfulContent rest
    else if test uiNoise line then extractMeaningfulContent rest
    else
      let cleanLine := cleanLineOf line in
      if (2 <? length cleanLine)%nat
      then cleanLine :: extractMeaningfulContent rest
      else extractMeaningfulContent rest
  end.

(** The first statements of the [onData] handler. *)
Definition cleanData (data : str) : str :=
  replaceAll carriageReturn []
    (replaceAll escapeSequences [] (replaceAll colorCodes [] data)).

Definition allLines (data : str) : list str :=
  map trim (split LF (cleanData data)).

Definition capacity : nat := 5000.
Definition watermark : nat := 2500.

(** The [onData] handler on the buffer: push, then truncate. *)
Definition onData (buffer : list str) (data : str) : list str :=
  let meaningfulContent := extractMeaningfulContent (allLines data) in
  let pushed :=
    if (0 <? length meaningfulContent)%nat
    then buffer ++ meaningfulContent else buffer in
  if (capacity <? length pushed)%nat
  then sliceLast watermark pushed else pushed.

(** *** Prompt interceptor *)

Definition hasPermissionPrompt (output : str) : bool :=
  existsb (fun pattern => test pattern output) promptPatterns.

Definition isSafeCommand (output : str) : bool :=
  existsb (fun pattern => test pattern output) safeCommands.

(** The classification that [processRequest] computes from the two tests
    (lines 435 to 455). *)
Inductive PromptKind : Type := NoPrompt | Safe | Unsafe.

Definition classify (window : str) : PromptKind :=
  if hasPermissionPrompt window then
    if isSafeCommand window then Safe else Unsafe
  else NoPrompt.

(** *** Key content *)

Definition isKeyLine (cleanLine : str) : bool :=
  startsWith cleanLine (u "●")
  || startsWith cleanLine (u "-")
  || includes cleanLine (u "directory contains")
  || includes cleanLine (u "files in")
  || (includes cleanLine (u ".")
      && (includes cleanLine (u "py") || includes cleanLine (u "js")
          || includes cleanLine (u "md") || includes cleanLine (u "json"))).

Definition extractKeyContent (fullResponse : str) : str :=
  let lines := split LF fullResponse in
  let keyContent := filter isKeyLine (map trim lines) in
  if (0 <? length keyContent)%nat then join [LF] keyContent
  else
    let sentences := matchAll sentence fullResponse in
    let meaningfulSentences :=
      filter (fun s => (20 <? length s)%nat
                       && negb (includes s (u "shortcuts"))
                       && negb (includes s (u "Auto-update"))
                       && negb (includes s (u "Try " ++ [DQUOTE])))
             sentences in
    join (u " ") (firstn 3 meaningfulSentences).

(** *** The world of a running wrapper *)

(** What the pseudo-terminal delivers while the wrapper is suspended. *)
Inductive Event : Type :=
| Data (chunk : str)
| Exit.

(** What the wrapper does to the outside, in order. *)
Inductive Effect : Type :=
| Write (bytes : str)        (* [claudeProcess.write] *)
| Sleep (ms : N)             (* [setTimeout] awaited *)
| Generate (prompt : str).   (* [ollama.generate] *)

(** The object that [generate] resolves to. *)
Record GenResult : Type := { response : option str; error : option str }.

Record World : Type := {
  claudeOutputBuffer : list str;
  claudeProcess : bool;                (* the handle is not null *)
  personalityPrompt : str;
  personalityFile : option str;        (* personality.txt, when readable *)
  trace : list Effect;                 (* oldest first *)
  arrivals : list (list Event)         (* per coming suspension *)
}.

Definition setBuffer (b : list str) (w : World) : World :=
  {| claudeOutputBuffer := b;
     claudeProcess := claudeProcess w;
     personalityPrompt := personalityPrompt w;
     personalityFile := personalityFile w;
     trace := trace w;
     arrivals := arrivals w |}.

Definition setProcess (alive : bool) (w : World) : World :=
  {| claudeOutputBuffer := claudeOutputBuffer w;
     claudeProcess := alive;
     personalityPrompt := personalityPrompt w;
     personalityFile := personalityFile w;
     trace := trace w;
     arrivals := arrivals w |}.

Definition setPersonality (p : str) (w : World) : World :=
  {| claudeOutputBuffer := claudeOutputBuffer w;
     claudeProcess := claudeProcess w;
     personalityPrompt := p;
     personalityFile := personalityFile w;
     trace := trace w;
     arrivals := arrivals w |}.

Definition setTrace (t : list Effect) (w : World) : World :=
  {| claudeOutputBuffer := claudeOutputBuffer w;
     claudeProcess := claudeProcess w;
     personalityPrompt := personalityPrompt w;
     personalityFile := personalityFile w;
     trace := t;
     arrivals := arrivals w |}.

Definition setArrivals (a : list (list Event)) (w : World) : World :=
  {| claudeOutputBuffer := claudeOutputBuffer w;
     claudeProcess := claudeProcess w;
     personalityPrompt := personalityPrompt w;
     personalityFile := personalityFile w;
     trace := trace w;
     arrivals := a |}.

(** The handlers registered by [startClaudeCode]: [onData] and [onExit]. *)
Definition deliver (w : World) (e : Event) : World :=
  match e with
  | Data chunk => setBuffer (onData (claudeOutputBuffer w) chunk) w
  | Exit => setProcess false w
  end.

(** The wrapper is suspended: the handlers run on what arrives. *)
Definition await (w : World) : World :=
  match arrivals w with
  | [] => w
  | es :: rest => fold_left deliver es (setArrivals rest w)
  end.

(** *** A state and exception monad *)

Inductive Res (A : Type) : Type :=
| Ok (a : A)
| Throw.
Arguments Throw {A}.

Definition M (A : Type) : Type := World -> Res A * World.

Definition ret {A} (a : A) : M A := fun w => (Ok a, w).

Definition bind {A B} (c : M A) (f : A -> M B) : M B :=
  fun w => match c w with
           | (Ok a, w') => f a w'
           | (Throw, w') => (Throw, w')
           end.

Definition throw {A} : M A := fun w => (Throw, w).

(** [try { c } catch { }] where the handler only falls through. *)
Definition catch {A} (c : M (option A)) : M (option A) :=
  fun w => match c w with
           | (Ok a, w') => (Ok a, w')
           | (Throw, w') => (Ok None, w')
           end.

Definition get {A} (f : World -> A) : M A := fun w => (Ok (f w), w).

Declare Scope m_scope.
Delimit Scope m_scope with m.
Notation "x <- c ;; k" := (bind c (fun x => k))
  (at level 61, c at next level, right associativity) : m_scope.
Notation "c ;; k" := (bind c (fun _ => k))
  (at level 61, right associativity) : m_scope.
Local Open Scope m_scope.

Definition emit (e : Effect) : M unit :=
  fun w => (Ok tt, setTrace (trace w ++ [e]) w).

Definition suspend : M unit := fun w => (Ok tt, await w).

Definition sleep (ms : N) : M unit := emit (Sleep ms) ;; suspend.

(** [this.claudeProcess.write(bytes)]: a null handle throws. *)
Definition ptyWrite (bytes : str) : M unit :=
  alive <- get claudeProcess ;;
  if alive then emit (Write bytes) else throw.

Definition isGenerate (e : Effect) : bool :=
  match e with Generate _ => true | _ => false end.

(** How many times [generate] was called. *)
Definition calls (t : list Effect) : nat := length (filter isGenerate t).

Definition truthy (o : option str) : bool :=
  match o with
  | Some (_ :: _) => true
  | _ => false
  end.

Definition text (o : option str) : str :=
  match o with
  | Some s => s
  | None => []
  end.

(** What [processRequest] resolves to: [{response, source}] or [{error}]. *)
Inductive Outcome : Type :=
| Reply (response source : str)
| Failure (error : str).

Definition defaultPersonality : str := u "You are a helpful AI assistant.".

Definition loadPersonalityPrompt : M unit :=
  fun w => (Ok tt,
            setPersonality
              match personalityFile w with
              | Some content => trim content
              | None => defaultPersonality
              end w).

Definition sendToClaudeCode (input : str) : M unit :=
  alive <- get claudeProcess ;;
  if alive then
    ptyWrite [3] ;;
    sleep 100 ;;
    ptyWrite input ;;
    sleep 100 ;;
    ptyWrite [CR]
  else throw.

Definition autoApprovePrompt (output : str) : M unit :=
  (if includes output (u "❯ 1. Yes") then sendToClaudeCode (u "1")
   else if includes output (u "[Y/n]") then sendToClaudeCode (u "Y")
   else if includes output (u "Do you want to proceed?")
        then sendToClaudeCode (u "y")
   else ret tt) ;;
  sleep 1000.

(** The three prompts sent to the secondary model. *)
Definition aniPrompt (userInput claudePrompt persona : str) : str :=
  [LF] ++ u "User asked: " ++ [DQUOTE] ++ userInput ++ [DQUOTE] ++ [LF]
  ++ u "Claude is asking for permission: " ++ claudePrompt ++ [LF; LF]
  ++ persona ++ [LF; LF]
  ++ u "Claude needs permission to proceed. Please explain to the user what Claude wants to do and ask if they want to proceed. Be helpful and clear about what the command will do."
  ++ [LF] ++ u "    ".

Definition simplePrompt (userInput claudeResponse persona : str) : str :=
  [LF] ++ u "User asked: " ++ [DQUOTE] ++ userInput ++ [DQUOTE] ++ [LF]
  ++ u "Claude found: " ++ claudeResponse ++ [LF; LF]
  ++ persona ++ [LF; LF]
  ++ u "Please respond as Ani using the information Claude provided."
  ++ [LF] ++ u "            ".

Definition fullPrompt (userInput persona : str) : str :=
  [LF] ++ u "User Query: " ++ userInput ++ [LF; LF]
  ++ persona ++ [LF; LF]
  ++ u "Please respond to the user's query in character."
  ++ [LF] ++ u "    ".

Definition technicalKeywords : list str :=
  map u
    [ "code"; "function"; "debug"; "error"; "programming"; "algorithm";
      "api"; "database"; "server"; "framework"; "library"; "bug"; "test";
      "file"; "files"; "read"; "write"; "edit"; "folder"; "folders";
      "directory"; "see the folder"; "view"; "list"; "ls"; "cd"; "pwd";
      "show me"; "backspace"; "typo"; "typos"; "implementation"; "see the";
      "ability"; "project"; "summary"; "what is this"; "about"; "analyze";
      "explain" ]%string.

Definition maxWait : nat := 60.
Definition stableThreshold : nat := 6.

Section Host.

(** [String.prototype.toLowerCase] and the secondary model: the reply to
    the [n]-th call of [generate] (counted from 0) on a prompt. *)
Variable toLowerCase : str -> str.
Variable ollama : nat -> str -> GenResult.

Definition generate (prompt : str) : M GenResult :=
  n <- get (fun w => calls (trace w)) ;;
  emit (Generate prompt) ;;
  suspend ;;
  ret (ollama n prompt).

Definition succeeded (result : GenResult) : bool :=
  truthy (response result) && negb (truthy (error result)).

Definition handlePromptViaAni (userInput claudePrompt : str)
  : M (option Outcome) :=
  persona <- get personalityPrompt ;;
  result <- generate (aniPrompt userInput claudePrompt persona) ;;
  if succeeded result
  then ret (Some (Reply (text (response result)) (u "claude+prompt+gemma")))
  else ret None.

(** [latestOutput]: the last ten lines of the buffer, joined. *)
Definition latestOutputOf (buffer : list str) : str :=
  join [LF] (sliceLast 10 buffer).

(** How an iteration of the [for] loop of [processRequest] ends. *)
Inductive Step : Type :=
| Continue (lastBufferLength stableCount : nat)
| Break
| Return (o : Outcome).

(** The body of the loop after its [setTimeout]. *)
Definition inspect (userInput : str)
           (initialBufferLength lastBufferLength stableCount : nat)
  : M Step :=
  buffer <- get claudeOutputBuffer ;;
  if (lastBufferLength <? length buffer)%nat then
    let latestOutput := latestOutputOf buffer in
    if hasPermissionPrompt latestOutput then
      if isSafeCommand latestOutput then
        autoApprovePrompt latestOutput ;;
        buffer' <- get claudeOutputBuffer ;;
        ret (Continue (length buffer') 0)
      else
        promptResponse <- handlePromptViaAni userInput latestOutput ;;
        match promptResponse with
        | Some o => ret (Return o)
        | None => ret Break
        end
    else ret (Continue (length buffer) 0)
  else
    let stableCount' := S stableCount in
    if (stableThreshold <=? stableCount')%nat
       && (initialBufferLength <? length buffer)%nat
    then ret Break
    else ret (Continue lastBufferLength stableCount').

Definition tick (userInput : str)
           (initialBufferLength lastBufferLength stableCount : nat)
  : M Step :=
  sleep 500 ;;
  inspect userInput initialBufferLength lastBufferLength stableCount.

(** The loop with [ticks] iterations left.  [Some o] is [return o];
    [None] is leaving the loop, by [break] or because the iterations are
    used up. *)
Fixpoint poll (ticks : nat) (userInput : str)
         (initialBufferLength lastBufferLength stableCount : nat)
  : M (option Outcome) :=
  match ticks with
  | O => ret None
  | S ticks' =>
    step <- tick userInput initialBufferLength lastBufferLength
                 stableCount ;;
    match step with
    | Continue lastBufferLength' stableCount' =>
      poll ticks' userInput initialBufferLength lastBufferLength'
           stableCount'
    | Break => ret None
    | Return o => ret (Some o)
    end
  end.

(** After the loop: "Get Claude's complete response". *)
Definition complete (userInput : str) (initialBufferLength : nat)
  : M (option Outcome) :=
  buffer <- get claudeOutputBuffer ;;
  if (initialBufferLength <? length buffer)%nat then
    let fullResponse := trim (join [LF] (skipn initialBufferLength buffer)) in
    let claudeResponse := extractKeyContent fullResponse in
    if (10 <? length claudeResponse)%nat then
      persona <- get personalityPrompt ;;
      result <- generate (simplePrompt userInput claudeResponse persona) ;;
      if succeeded result
      then ret (Some (Reply (text (response result)) (u "claude+gemma")))
      else ret None
    else ret None
  else ret None.

Definition enhance (userInput : str) : str :=
  if includes (toLowerCase userInput) (u "files")
     || includes (toLowerCase userInput) (u "folder")
  then userInput ++ u ". Please actually run the command to show me the real files, don't just describe what you would do."
  else userInput.

(** The body of the [try] block. *)
Definition assisted (userInput : str) : M (option Outcome) :=
  buffer <- get claudeOutputBuffer ;;
  let initialBufferLength := length buffer in
  sendToClaudeCode (enhance userInput) ;;
  r <- poll maxWait userInput initialBufferLength initialBufferLength 0 ;;
  match r with
  | Some o => ret (Some o)
  | None => complete userInput initialBufferLength
  end.

(** "Pure Gemma response". *)
Definition direct (userInput : str) : M Outcome :=
  persona <- get personalityPrompt ;;
  result <- generate (fullPrompt userInput persona) ;;
  if truthy (error result) then ret (Failure (text (error result)))
  else
    ret (Reply (if truthy (response result) then text (response result)
                else u "No response generated.")
               (u "gemma")).

Definition isTechnical (userInput : str) : bool :=
  existsb (fun keyword => includes (toLowerCase userInput) keyword)
          technicalKeywords.

Definition processRequest (userInput : str) : M Outcome :=
  loadPersonalityPrompt ;;
  alive <- get claudeProcess ;;
  r <- (if isTechnical userInput && alive
        then catch (assisted userInput) else ret None) ;;
  match r with
  | Some o => ret o
  | None => direct userInput
  end.

End Host.

(** [toLowerCase] on the ASCII letters, which is what it does to a string
    of ASCII characters. *)
Definition asciiLower (s : str) : str :=
  map (fun c => if in_range 65 90 c then c + 32 else c) s.

(** The writes and the model calls of a trace. *)
Definition writesOf (t : list Effect) : list str :=
  flat_map (fun e => match e with Write b => [b] | _ => [] end) t.

Definition promptsOf (t : list Effect) : list str :=
  flat_map (fun e => match e with Generate p => [p] | _ => [] end) t.

Definition isTick (e : Effect) : bool :=
  match e with
  | Sleep ms => ms =? 500
  | _ => false
  end.

Definition ticksOf (t : list Effect) : nat := length (filter isTick t).

(** What [sendToClaudeCode] does to the outside when the process lives. *)
Definition sendTrace (input : str) : list Effect :=
  [Write [3]; Sleep 100; Write input; Sleep 100; Write [CR]].

(** The answer that [autoApprovePrompt] picks, if any. *)
Definition acknowledgement (output : str) : option str :=
  if includes output (u "❯ 1. Yes") then Some (u "1")
  else if includes output (u "[Y/n]") then Some (u "Y")
  else if includes output (u "Do you want to proceed?") then Some (u "y")
  else None.

Definition approveTrace (output : str) : list Effect :=
  match acknowledgement output with
  | Some token => sendTrace token
  | None => []
  end ++ [Sleep 1000].

(** The mutating verbs that the specification names. *)
Definition mutatingVerbs : list str :=
  map u ["write"; "delete"; "modify"; "install"; "create"]%string.

Definition hasMutatingVerb (window : str) : bool :=
  existsb (fun verb => includes window verb) mutatingVerbs.

(** [latestOutput] as the loop body computes it in a world. *)
Definition windowOf (w : World) : str :=
  latestOutputOf (claudeOutputBuffer w).

(** A running wrapper with a given buffer and given arrivals. *)
Definition running (buffer : list str) (arr : list (list Event)) : World :=
  {| claudeOutputBuffer := buffer;
     claudeProcess := true;
     personalityPrompt := defaultPersonality;
     personalityFile := None;
     trace := [];
     arrivals := arr |}.

(** Secondary models for the examples. *)
Definition answers (reply : str) : nat -> str -> GenResult :=
  fun _ _ => {| response := Some reply; error := None |}.

Definition failsFirst (reply : str) : nat -> str -> GenResult :=
  fun n _ =>
    match n with
    | O => {| response := None;
              error := Some (u "Ollama request failed: Bad Gateway") |}
    | S _ => {| response := Some reply; error := None |}
    end.

(** An animation line that the pattern of the code catches: one of its
    seven glyphs, a word of ASCII letters, digits and underscores, an
    ellipsis at the end; blanks may stand between the glyph and the
    word. *)
Definition ELLIPSIS : N := 8230.

Definition isAnimationLine (line : str) : bool :=
  match line with
  | g :: rest =>
    existsb (N.eqb g) glyphs
    && (let t := dropWhile isSpace rest in
        negb (length (takeWhile isWord t) =? 0)%nat
        && eqb (dropWhile isWord t) [ELLIPSIS])
  | [] => false
  end.

Definition isBlank (line : str) : bool := forallb isSpace line.

Definition notCR (c : N) : bool := negb (CR =? c).

(** A raw chunk made of animation lines only: each of its lines, carriage
    returns aside, is an animation line or blank. *)
Definition animationOnly (data : str) : bool :=
  forallb (fun raw => isAnimationLine (filter notCR raw)
                      || isBlank (filter notCR raw))
          (split LF data).

(** An arrival that adds no line to the output log. *)
Definition silent (e : Event) : bool :=
  match e with
  | Data chunk => (length (extractMeaningfulContent (allLines chunk)) =? 0)%nat
  | Exit => true
  end.

Definition isData (e : Event) : bool :=
  match e with
  | Data _ => true
  | Exit => false
  end.

(** What the direct path makes of the reply of the secondary model. *)
Definition directOutcome (result : GenResult) : Outcome :=
  if truthy (error result) then Failure (text (error result))
  else Reply (if truthy (response result) then text (response result)
              else u "No response generated.")
             (u "gemma").

(** The world after [n] suspensions. *)
Fixpoint awaits (n : nat) (w : World) : World :=
  match n with
  | O => w
  | S n' => awaits n' (await w)
  end.

End AIWrapper.

Import AIWrapper.

(** ** Further notions for the properties of the code *)

Module Stored.

(** A line as [extractMeaningfulContent] keeps it: more than two code
    units, no line feed, no blank at either end. *)
Definition notLF (c : N) : bool := negb (c =? LF).

Definition isStoredLine (l : str) : bool :=
  (2 <? length l)%nat
  && forallb notLF l
  && negb (isSpace (hd 0 l))
  && negb (isSpace (last l 0)).

(** A regex without [^] and [$]. *)
Fixpoint anchorFree (r : regex) : bool :=
  match r with
  | Eps | Chr _ => true
  | Cat r1 r2 | Alt r1 r2 => anchorFree r1 && anchorFree r2
  | Star r1 | StarLazy r1 => anchorFree r1
  | Bol | Eol => false
  end.

End Stored.

Import Stored.

(** ** What a run adds to the trace *)

Module Budget.

(** The milliseconds spent in timers. *)
Definition slept (t : list Effect) : N :=
  fold_right (fun e acc => match e with
                           | Sleep ms => ms + acc
                           | _ => acc
                           end) 0 t.

(** [adds c Q]: whatever the world, [c] only appends to the trace, and
    its result and the effects it appends satisfy [Q]. *)
Definition adds {A} (c : M A) (Q : Res A -> list Effect -> Prop) : Prop :=
  forall w, exists t,
    trace (snd (c w)) = trace w ++ t /\ Q (fst (c w)) t.

(** At most [c] model calls, [k] ticks and [ms] milliseconds of timers,
    and only writes that satisfy [W]. *)
Definition fits (c k : nat) (ms : N) (W : str -> Prop) (t : list Effect)
  : Prop :=
  (calls t <= c)%nat /\ (ticksOf t <= k)%nat /\ slept t <= ms
  /\ Forall W (writesOf t).

(** What [processRequest] may write to the session. *)
Definition mayWrite (request : str) (bytes : str) : Prop :=
  In bytes [[3]; request; [CR]; u "1"; u "Y"; u "y"].

(** What [sendToClaudeCode] may write. *)
Definition maySend (input : str) (bytes : str) : Prop :=
  In bytes [[3]; input; [CR]].

Definition sourceTags : list str :=
  [u "claude+prompt+gemma"; u "claude+gemma"; u "gemma"].

(** The loop body after its timer: either it calls nothing, or it calls
    the model once, for an escalation, and the loop ends. *)
Definition inspectQ (request : str) (r : Res Step) (t : list Effect) : Prop :=
  ((calls t = 0)%nat /\ fits 0 0 1200 (mayWrite request) t
   /\ forall o, r <> Ok (Return o))
  \/ (exists p, t = [Generate p]
      /\ (r = Ok Break
          \/ exists x, r = Ok (Return (Reply x (u "claude+prompt+gemma"))))).

(** The loop: at most one model call, at most [ticks] ticks. *)
Definition pollQ (request : str) (ticks : nat) (r : Res (option Outcome))
           (t : list Effect) : Prop :=
  fits 1 ticks (N.of_nat ticks * 1700) (mayWrite request) t
  /\ ((r = Ok None \/ r = Throw)
      \/ (exists x, r = Ok (Some (Reply x (u "claude+prompt+gemma")))
                    /\ (calls t = 1)%nat)).

(** The code after the loop. *)
Definition completeQ (r : Res (option Outcome)) (t : list Effect) : Prop :=
  (t = [] /\ r = Ok None)
  \/ (exists p, t = [Generate p]
      /\ (r = Ok None
          \/ exists x, r = Ok (Some (Reply x (u "claude+gemma"))))).

(** The [try] block of [processRequest]. *)
Definition assistedQ (request : str) (r : Res (option Outcome))
           (t : list Effect) : Prop :=
  fits 2 60 102200 (mayWrite request) t
  /\ ((r = Ok None \/ r = Throw)
      \/ (exists x tag, r = Ok (Some (Reply x tag))
                        /\ In tag sourceTags /\ (1 <= calls t)%nat)).

(** What an outcome of [processRequest] looks like. *)
Definition okOutcome (o : Outcome) : Prop :=
  match o with
  | Reply _ tag => In tag sourceTags
  | Failure e => e <> []
  end.

End Budget.

Import Budget.

(** ** The text buffer of the input prompt

    The reducer of [TextBuffer.ts].  An array of lines is a list of
    optional strings: [None] is an element that reads as [undefined] (a
    hole left by an assignment past the end).  A [TypeError] (a property
    read on [undefined]) is the result [None]. *)

Module TextBuffer.

Record Key := {
  name : str;
  ctrl : bool;
  meta : bool;
  shift : bool;
  sequence : str
}.

Record TextBufferState := {
  lines : list (option str);
  cursorRow : nat;
  cursorCol : nat
}.

Inductive TextBufferAction :=
| set_text (payload : str)
| insert (payload : str)
| backspace
| delete
| move_cursor (row col : Z)
| newline.

(** [a[i]] *)
Definition at_ (a : list (option str)) (i : nat) : option str := nth i a None.

(** [x || ''] *)
Definition orEmpty (x : option str) : str :=
  match x with
  | Some s => s
  | None => []
  end.

(** [x] as an operand of [+] with a string. *)
Definition shown (x : option str) : str :=
  match x with
  | Some s => s
  | None => u "undefined"
  end.

(** [a[i] = v]: past the end the array is extended, with holes. *)
Definition assign (a : list (option str)) (i : nat) (v : str)
  : list (option str) :=
  if (i <? length a)%nat then firstn i a ++ Some v :: skipn (S i) a
  else a ++ repeat None (i - length a) ++ [Some v].

(** [a.splice(start, 0, v)]: a start past the end is the end. *)
Definition spliceIn (a : list (option str)) (start : nat) (v : str)
  : list (option str) :=
  let k := Nat.min start (length a) in
  firstn k a ++ Some v :: skipn k a.

(** [a.splice(start, 1)] *)
Definition spliceOut (a : list (option str)) (start : nat)
  : list (option str) :=
  firstn start a ++ skipn (S start) a.

(** The loop [for (let i = 1; i < parts.length; i++)] of [insert], from
    index [k] on the remaining parts. *)
Fixpoint spliceParts (a : list (option str)) (k : nat) (parts : list str)
  : list (option str) :=
  match parts with
  | [] => a
  | p :: parts' => spliceParts (spliceIn a k p) (S k) parts'
  end.

Definition textBufferReducer (state : TextBufferState)
  (action : TextBufferAction) : option TextBufferState :=
  let row := cursorRow state in
  let col := cursorCol state in
  match action with
  | set_text payload =>
    let ls := split LF payload in
    Some {| lines := map Some (match ls with [] => [[]] | _ => ls end);
            cursorRow := length ls - 1;
            cursorCol := length (last ls []) |}
  | insert payload =>
    let newLines := lines state in
    let currentLine := orEmpty (at_ newLines row) in
    let before := firstn col currentLine in
    let after := skipn col currentLine in
    if includes payload [LF] then
      let parts := split LF payload in
      let newLines := assign newLines row (before ++ hd [] parts) in
      let newLines := spliceParts newLines (row + 1) (tl parts) in
      let lastPart := last parts [] in
      let k := (row + length parts - 1)%nat in
      let newLines := assign newLines k (shown (at_ newLines k) ++ after) in
      Some {| lines := newLines;
              cursorRow := k;
              cursorCol := length lastPart |}
    else
      Some {| lines := assign newLines row (before ++ payload ++ after);
              cursorRow := row;
              cursorCol := (col + length payload)%nat |}
  | backspace =>
    if (col =? 0)%nat && (row =? 0)%nat then Some state
    else
      let newLines := lines state in
      if (0 <? col)%nat then
        match at_ newLines row with
        | Some currentLine =>
          Some {| lines := assign newLines row
                             (firstn (col - 1) currentLine
                              ++ skipn col currentLine);
                  cursorRow := row;
                  cursorCol := (col - 1)%nat |}
        | None => None
        end
      else
        match at_ newLines (row - 1) with
        | Some prevLine =>
          let currentLine := at_ newLines row in
          let newLines :=
            assign newLines (row - 1) (prevLine ++ shown currentLine) in
          Some {| lines := spliceOut newLines row;
                  cursorRow := (row - 1)%nat;
                  cursorCol := length prevLine |}
        | None => None
        end
  | newline =>
    let newLines := lines state in
    let currentLine := orEmpty (at_ newLines row) in
    let before := firstn col currentLine in
    let after := skipn col currentLine in
    let newLines := assign newLines row before in
    Some {| lines := spliceIn newLines (row + 1) after;
            cursorRow := (row + 1)%nat;
            cursorCol := 0%nat |}
  | move_cursor row col =>
    let clampedRow :=
      Z.max 0 (Z.min row (Z.of_nat (length (lines state)) - 1)) in
    let lineLength :=
      length (orEmpty (at_ (lines state) (Z.to_nat clampedRow))) in
    let clampedCol := Z.max 0 (Z.min col (Z.of_nat lineLength)) in
    Some {| lines := lines state;
            cursorRow := Z.to_nat clampedRow;
            cursorCol := Z.to_nat clampedCol |}
  | delete => Some state
  end.

(** [useTextBuffer]: the initial state and the derived text. *)
Definition initialState (initialText : str) : TextBufferState :=
  {| lines := match initialText with
              | [] => [Some []]
              | _ => map Some (split LF initialText)
              end;
     cursorRow := 0;
     cursorCol := 0 |}.

Definition text (state : TextBufferState) : str :=
  join [LF] (map orEmpty (lines state)).

Definition handleInput (state : TextBufferState) (key : Key)
  : option TextBufferState :=
  let row := cursorRow state in
  let col := cursorCol state in
  if eqb (name key) (u "return") then textBufferReducer state newline
  else if eqb (name key) (u "backspace") || eqb (sequence key) [127]
          || eqb (sequence key) [8]
  then textBufferReducer state backspace
  else if eqb (name key) (u "left") then
    if (0 <? col)%nat then
      textBufferReducer state
        (move_cursor (Z.of_nat row) (Z.of_nat col - 1))
    else if (0 <? row)%nat then
      match at_ (lines state) (row - 1) with
      | Some prevLine =>
        textBufferReducer state
          (move_cursor (Z.of_nat row - 1) (Z.of_nat (length prevLine)))
      | None => None
      end
    else textBufferReducer state (move_cursor 0 0)
  else if eqb (name key) (u "right") then
    let currentLineLength := length (orEmpty (at_ (lines state) row)) in
    if (col <? currentLineLength)%nat then
      textBufferReducer state
        (move_cursor (Z.of_nat row) (Z.of_nat col + 1))
    else if (row <? length (lines state) - 1)%nat then
      textBufferReducer state (move_cursor (Z.of_nat row + 1) 0)
    else textBufferReducer state (move_cursor (Z.of_nat row) 0)
  else if eqb (name key) (u "up") then
    textBufferReducer state (move_cursor (Z.of_nat row - 1) (Z.of_nat col))
  else if eqb (name key) (u "down") then
    textBufferReducer state (move_cursor (Z.of_nat row + 1) (Z.of_nat col))
  else if ctrl key && eqb (name key) (u "c") then
    if (0 <? length (text state))%nat
    then textBufferReducer state (set_text [])
    else Some state
  else if negb (eqb (sequence key) []) && negb (ctrl key) && negb (meta key)
  then textBufferReducer state (insert (sequence key))
  else Some state.

(** A run of actions; it stops at the first [TypeError]. *)
Fixpoint dispatchAll (state : TextBufferState)
  (actions : list TextBufferAction) : option TextBufferState :=
  match actions with
  | [] => Some state
  | a :: actions' =>
    match textBufferReducer state a with
    | Some state' => dispatchAll state' actions'
    | None => None
    end
  end.

(** The states the reducer works on: every line is a string without a
    line feed and the cursor is inside the text. *)
Definition isLine (x : option str) : bool :=
  match x with
  | Some l => forallb notLF l
  | None => false
  end.

Definition wellFormed (state : TextBufferState) : bool :=
  forallb isLine (lines state)
  && (cursorRow state <? length (lines state))%nat
  && (cursorCol state
      <=? length (orEmpty (at_ (lines state) (cursorRow state))))%nat.

(** The state whose cursor is in [line], at column [col], between the
    lines [pre] and [post]. *)
Definition atCursor (pre : list str) (line : str) (post : list str)
  (col : nat) : TextBufferState :=
  {| lines := map Some (pre ++ line :: post);
     cursorRow := length pre;
     cursorCol := col |}.

(** The text on either side of the cursor. *)
Definition beforeCursor (state : TextBufferState) : str :=
  join [LF]
    (map orEmpty (firstn (cursorRow state) (lines state))
     ++ [firstn (cursorCol state)
           (orEmpty (at_ (lines state) (cursorRow state)))]).

Definition afterCursor (state : TextBufferState) : str :=
  join [LF]
    (skipn (cursorCol state) (orEmpty (at_ (lines state) (cursorRow state)))
     :: map orEmpty (skipn (S (cursorRow state)) (lines state))).

End TextBuffer.

(** ** The input prompt

    The handler that [InputPrompt] gives to [useInput]: what a key does to
    the buffer, and the text handed to [onSubmit], if any. *)

Module InputPrompt.

(** The fields of Ink's key that the handler reads. *)
Record InkKey := {
  ctrl : bool;
  meta : bool;
  return_ : bool;
  backspace : bool;
  leftArrow : bool;
  rightArrow : bool
}.

Definition arrow (name input : str) : TextBuffer.Key :=
  {| TextBuffer.name := name;
     TextBuffer.ctrl := false;
     TextBuffer.meta := false;
     TextBuffer.shift := false;
     TextBuffer.sequence := input |}.

Definition keep (buffer : TextBuffer.TextBufferState)
  : option (TextBuffer.TextBufferState * option str) :=
  Some (buffer, None).

Definition dispatched (next : option TextBuffer.TextBufferState)
  : option (TextBuffer.TextBufferState * option str) :=
  match next with
  | Some buffer => Some (buffer, None)
  | None => None
  end.

Definition handleSubmit (buffer : TextBuffer.TextBufferState)
  : option (TextBuffer.TextBufferState * option str) :=
  match trim (TextBuffer.text buffer) with
  | _ :: _ =>
    let text := TextBuffer.text buffer in
    match TextBuffer.textBufferReducer buffer (TextBuffer.set_text []) with
    | Some buffer' => Some (buffer', Some text)
    | None => None
    end
  | [] => keep buffer
  end.

Section Host.

Variable toLowerCase : str -> str.

Definition onInput (focus : bool) (input : str) (key : InkKey)
  (buffer : TextBuffer.TextBufferState)
  : option (TextBuffer.TextBufferState * option str) :=
  if negb focus then keep buffer
  else if ctrl key && eqb (toLowerCase input) (u "t") then keep buffer
  else if return_ key && negb (ctrl key) then
    match trim (TextBuffer.text buffer) with
    | _ :: _ => handleSubmit buffer
    | [] => keep buffer
    end
  else if return_ key && ctrl key then
    dispatched (TextBuffer.textBufferReducer buffer TextBuffer.newline)
  else if backspace key || eqb input [127] || eqb input [8]
  then dispatched (TextBuffer.textBufferReducer buffer TextBuffer.backspace)
  else if leftArrow key
  then dispatched (TextBuffer.handleInput buffer (arrow (u "left") input))
  else if rightArrow key
  then dispatched (TextBuffer.handleInput buffer (arrow (u "right") input))
  else
    match input with
    | [c] =>
      if negb (ctrl key) && negb (meta key) && (32 <=? c)
      then dispatched (TextBuffer.textBufferReducer buffer
                         (TextBuffer.insert input))
      else keep buffer
    | _ => keep buffer
    end.

(** A sequence of key presses: the buffer at the end and the texts
    submitted on the way, oldest first. *)
Fixpoint onInputs (focus : bool) (keys : list (str * InkKey))
  (buffer : TextBuffer.TextBufferState)
  : option (TextBuffer.TextBufferState * list str) :=
  match keys with
  | [] => Some (buffer, [])
  | (input, key) :: keys' =>
    match onInput focus input key buffer with
    | Some (buffer', submitted) =>
      match onInputs focus keys' buffer' with
      | Some (buffer'', later) =>
        Some (buffer'',
              match submitted with
              | Some text => text :: later
              | None => later
              end)
      | None => None
      end
    | None => None
    end
  end.

End Host.

(** A key without modifiers, and the Enter key. *)
Definition plain : InkKey :=
  {| ctrl := false; meta := false; return_ := false; backspace := false;
     leftArrow := false; rightArrow := false |}.

Definition enter : InkKey :=
  {| ctrl := false; meta := false; return_ := true; backspace := false;
     leftArrow := false; rightArrow := false |}.

(** A code unit that the handler inserts when it arrives alone. *)
Definition printable (c : N) : bool := (32 <=? c) && negb (c =? 127).

End InputPrompt.

(** ** The client of the secondary model *)

Module SimpleOllamaClient.

(** A value of the JSON body as the code observes it: no value, a string,
    or anything else ([null], a boolean, a number, an array, an object)
    with its truthiness. *)
Inductive Value : Type :=
| Undefined
| Text (s : str)
| Other (truthy : bool).

(** What the HTTP exchange of [generate] comes to: [fetch] rejects; the
    response is not ok; the response is ok but the [try] block throws all
    the same, because [json] rejects or because the body is [null], so
    that reading [data.response] throws; or the response is ok and
    [data.response] is the value [response] ([Undefined] when the body
    has no such field).  A reason is the thrown value as text. *)
Inductive Exchange : Type :=
| Rejected (reason : str)
| NotOk (statusText : str)
| Unreadable (reason : str)
| Body (response : Value).

(** What [generate] resolves to: [data.response] is passed on as it
    is. *)
Record Generated : Type := { response : Value; error : option str }.

Definition generate (exchange : Exchange) : Generated :=
  match exchange with
  | Rejected reason | Unreadable reason =>
    {| response := Undefined;
       error := Some (u "Ollama connection failed: " ++ reason) |}
  | NotOk statusText =>
    {| response := Undefined;
       error := Some (u "Ollama request failed: " ++ statusText) |}
  | Body data => {| response := data; error := None |}
  end.

End SimpleOllamaClient.

(** ** The wrapper with its client

    [AIWrapper] sets [this.ollama] to a [SimpleOllamaClient] in its
    constructor.  [processRequest] with the replies of that client,
    whatever the JSON body holds. *)

Module WithClient.

Local Open Scope m_scope.

Section Host.

Variable toLowerCase : str -> str.

(** The exchange of the [n]-th call of [generate] (counted from 0) on a
    prompt. *)
Variable exchange : nat -> str -> SimpleOllamaClient.Exchange.

(** A reply as the code inside the [try] blocks takes it.  There a
    [response] that is truthy and not a string passes the test
    [result.response && !result.error] and then makes
    [logGemmaResponse] throw (it has no [substring]); the exception is
    caught at once, by the [catch] of [handlePromptViaAni], which returns
    [null], or by the [catch] of [processRequest], which falls through to
    the direct path: the run goes on as after a reply without a
    response. *)
Definition inTry (result : SimpleOllamaClient.Generated) : GenResult :=
  {| response := match SimpleOllamaClient.response result with
                 | SimpleOllamaClient.Text s => Some s
                 | _ => None
                 end;
     error := SimpleOllamaClient.error result |}.

Definition ollama (n : nat) (prompt : str) : GenResult :=
  inTry (SimpleOllamaClient.generate (exchange n prompt)).

Definition generate (prompt : str) : M SimpleOllamaClient.Generated :=
  n <- get (fun w => calls (trace w)) ;;
  emit (Generate prompt) ;;
  suspend ;;
  ret (SimpleOllamaClient.generate (exchange n prompt)).

(** [value || text] *)
Definition orText (value : SimpleOllamaClient.Value) (text : str)
  : SimpleOllamaClient.Value :=
  match value with
  | SimpleOllamaClient.Text (_ :: _) => value
  | SimpleOllamaClient.Other true => value
  | _ => SimpleOllamaClient.Text text
  end.

(** "Pure Gemma response", outside every [try]: [logGemmaResponse] is
    called on the response before it is returned and throws unless the
    response is a string. *)
Definition direct (userInput : str) : M Outcome :=
  persona <- get personalityPrompt ;;
  result <- generate (fullPrompt userInput persona) ;;
  if truthy (SimpleOllamaClient.error result)
  then ret (Failure (text (SimpleOllamaClient.error result)))
  else
    match orText (SimpleOllamaClient.response result)
                 (u "No response generated.") with
    | SimpleOllamaClient.Text response => ret (Reply response (u "gemma"))
    | _ => throw
    end.

Definition processRequest (userInput : str) : M Outcome :=
  loadPersonalityPrompt ;;
  alive <- get claudeProcess ;;
  r <- (if isTechnical toLowerCase userInput && alive
        then catch (assisted toLowerCase ollama userInput) else ret None) ;;
  match r with
  | Some o => ret o
  | None => direct userInput
  end.

End Host.

End WithClient.

(** ** The keywords of the debug log *)

Module DebugLogger.

Definition keywords : list str :=
  map u
    [ "folder"; "file"; "directory"; "read"; "write"; "see"; "view"; "list";
      "code"; "function"; "debug"; "error"; "ls"; "cd"; "pwd" ]%string.

Definition extractKeywords (toLowerCase : str -> str) (input : str)
  : list str :=
  filter (fun keyword => includes (toLowerCase input) keyword) keywords.

End DebugLogger.

(** ** The application

    [handleSubmit] of [App]: the messages and the status line.  The [id]
    and the [timestamp] of a message are read from the clock and are left
    out.  [content] is [None] where the source passes [undefined]. *)

Module App.

Inductive Mode : Type := ani | claude.

Record Message := { sender : str; content : option str }.

Record AppState := {
  mode : Mode;
  messages : list Message;
  status : str
}.

Definition addMessage (sender : str) (content : option str) (s : AppState)
  : AppState :=
  {| mode := mode s;
     messages := messages s ++ [{| sender := sender; content := content |}];
     status := status s |}.

Definition setStatus (status : str) (s : AppState) : AppState :=
  {| mode := mode s; messages := messages s; status := status |}.

Section Host.

Variable toLowerCase : str -> str.
Variable exchange : nat -> str -> SimpleOllamaClient.Exchange.

(** The text of a thrown value in a template literal. *)
Variable thrown : str.

Definition handleSubmit (input : str) (s : AppState) (w : World)
  : AppState * World :=
  let s := addMessage (u "user") (Some input) s in
  match mode s with
  | claude =>
    let s := setStatus (u "Sending to Claude Code...") s in
    match sendToClaudeCode input w with
    | (Ok _, w') => (setStatus (u "Ready") s, w')
    | (Throw, w') =>
      (setStatus (u "Ready")
         (addMessage (u "error")
            (Some (u "Claude Code error: " ++ thrown)) s),
       w')
    end
  | ani =>
    let s := setStatus (u "Thinking...") s in
    match WithClient.processRequest toLowerCase exchange input w with
    | (Ok (Failure (c :: e)), w') =>
      (addMessage (u "error") (Some (c :: e)) s, w')
    | (Ok (Failure []), w') =>
      (setStatus (u "Ready | unknown") (addMessage (u "ani") None s), w')
    | (Ok (Reply response source), w') =>
      (setStatus (u "Ready | " ++ match source with
                                  | [] => u "unknown"
                                  | _ :: _ => source
                                  end)
         (addMessage (u "ani") (Some response) s),
       w')
    | (Throw, w') =>
      (setStatus (u "Error")
         (addMessage (u "error")
            (Some (u "Processing failed: " ++ thrown)) s),
       w')
    end
  end.

End Host.

End App.

(** * Properties *)

(** ** The matcher and the declarative semantics *)

Module RegexFacts.

Section Ext.
Variable A : Type.
Implicit Types k : nat -> str -> option A.
Implicit Types step : nat -> str -> (nat -> str -> option A) -> option A.

Lemma greedy_ext step : ext_step step ->
  forall fuel i s k1 k2, (forall j t, k1 j t = k2 j t) ->
  greedy step k1 fuel i s = greedy step k2 fuel i s.
Proof.
  intros Hs. induction fuel as [|f IH]; intros i s k1 k2 Hk; simpl.
  - apply Hk.
  - rewrite (Hs i s _ (fun j t => if (length t <? length s)%nat
                                  then greedy step k2 f j t else None)).
    + now rewrite Hk.
    + intros j t. destruct (length t <? length s)%nat; auto.
Qed.

Lemma lazy_ext step : ext_step step ->
  forall fuel i s k1 k2, (forall j t, k1 j t = k2 j t) ->
  lazy step k1 fuel i s = lazy step k2 fuel i s.
Proof.
  intros Hs. induction fuel as [|f IH]; intros i s k1 k2 Hk; simpl.
  - apply Hk.
  - rewrite Hk.
    rewrite (Hs i s _ (fun j t => if (length t <? length s)%nat
                                  then lazy step k2 f j t else None)).
    + reflexivity.
    + intros j t. destruct (length t <? length s)%nat; auto.
Qed.

Lemma m_ext r : ext_step (m (A:=A) r).
Proof.
  induction r; intros i s k1 k2 Hk; simpl.
  - apply Hk.
  - destruct s as [|c s']; [reflexivity|]. destruct (p c); auto.
  - apply IHr1. intros j t. now apply IHr2.
  - rewrite (IHr1 i s k1 k2 Hk), (IHr2 i s k1 k2 Hk). reflexivity.
  - now apply greedy_ext.
  - now apply lazy_ext.
  - destruct i; auto.
  - destruct s; auto.
Qed.

Lemma greedy_strict step : ext_step step -> strict_step step ->
  forall fuel i s, greedy step (fun _ _ => None) fuel i s = None.
Proof.
  intros He Hs. induction fuel as [|f IH]; intros i s; simpl; [reflexivity|].
  rewrite (He i s _ (fun _ _ => None)).
  - now rewrite Hs.
  - intros j t. destruct (length t <? length s)%nat; auto.
Qed.

Lemma lazy_strict step : ext_step step -> strict_step step ->
  forall fuel i s, lazy step (fun _ _ => None) fuel i s = None.
Proof.
  intros He Hs. induction fuel as [|f IH]; intros i s; simpl; [reflexivity|].
  rewrite (He i s _ (fun _ _ => None)).
  - apply Hs.
  - intros j t. destruct (length t <? length s)%nat; auto.
Qed.

Lemma m_strict r : strict_step (m (A:=A) r).
Proof.
  induction r; intros i s; simpl.
  - reflexivity.
  - destruct s as [|c s']; [reflexivity|]. destruct (p c); auto.
  - rewrite (m_ext r1 i s _ (fun _ _ => None)); [apply IHr1|].
    intros j t. apply IHr2.
  - now rewrite IHr1, IHr2.
  - apply greedy_strict; [apply m_ext | exact IHr].
  - apply lazy_strict; [apply m_ext | exact IHr].
  - destruct i; auto.
  - destruct s; auto.
Qed.

(** Any fuel that covers the input gives the same result. *)
Lemma step_nil_none step : ext_step step -> strict_step step ->
  forall i (g : nat -> str -> option A),
  step i [] (fun j t => if (length t <? length (@nil N))%nat
                        then g j t else None) = None.
Proof.
  intros He Hs i g. rewrite (He i [] _ (fun _ _ => None)); [apply Hs|].
  intros j t. reflexivity.
Qed.

Lemma greedy_fuel step : ext_step step -> strict_step step ->
  forall k f1 f2 i s, (length s <= f1)%nat -> (length s <= f2)%nat ->
  greedy step k f1 i s = greedy step k f2 i s.
Proof.
  intros He Hs k. induction f1 as [|f1 IH]; intros f2 i s H1 H2.
  - destruct s; [|simpl in H1; lia]. destruct f2; [reflexivity|].
    cbn [greedy]. now rewrite step_nil_none.
  - destruct f2 as [|f2].
    + destruct s; [|simpl in H2; lia].
      cbn [greedy]. now rewrite step_nil_none.
    + cbn [greedy].
      rewrite (He i s _ (fun j t => if (length t <? length s)%nat
                                    then greedy step k f2 j t else None)).
      * reflexivity.
      * intros j t. destruct (length t <? length s)%nat eqn:E; auto.
        apply Nat.ltb_lt in E. apply IH; lia.
Qed.

Lemma lazy_fuel step : ext_step step -> strict_step step ->
  forall k f1 f2 i s, (length s <= f1)%nat -> (length s <= f2)%nat ->
  lazy step k f1 i s = lazy step k f2 i s.
Proof.
  intros He Hs k. induction f1 as [|f1 IH]; intros f2 i s H1 H2.
  - destruct s; [|simpl in H1; lia]. destruct f2; [reflexivity|].
    cbn [lazy]. destruct (k i []); [reflexivity|].
    now rewrite step_nil_none.
  - destruct f2 as [|f2].
    + destruct s; [|simpl in H2; lia]. cbn [lazy].
      destruct (k i []); [reflexivity|].
      now rewrite step_nil_none.
    + cbn [lazy]. destruct (k i s); [reflexivity|].
      apply He. intros j t. destruct (length t <? length s)%nat eqn:E; auto.
      apply Nat.ltb_lt in E. apply IH; lia.
Qed.

(** Completeness: a declarative match whose continuation succeeds makes
    the matcher succeed (possibly on an earlier alternative). *)
Lemma m_complete r i w rest :
  matches r i w rest ->
  forall k a, k (i + length w)%nat rest = Some a ->
  exists a', m r i (w ++ rest) k = Some a'.
Proof.
  intros Hm.
  induction Hm as
    [ i rest | p c i rest Hp
    | r1 r2 i w1 w2 rest Hm1 IH1 Hm2 IH2
    | r1 r2 i w rest Hm IH | r1 r2 i w rest Hm IH
    | r i rest | r i w1 w2 rest Hne Hm1 IH1 Hm2 IH2
    | r i rest | r i w1 w2 rest Hne Hm1 IH1 Hm2 IH2
    | rest | i ]; intros k a Hk.
  - simpl in *. rewrite Nat.add_0_r in Hk. eauto.
  - simpl in *. rewrite Hp. rewrite Nat.add_1_r in Hk. eauto.
  - rewrite <- app_assoc. cbn [m].
    rewrite length_app, Nat.add_assoc in Hk.
    destruct (IH2 k a Hk) as [a2 H2].
    apply (IH1 (fun j t => m r2 j t k) a2). exact H2.
  - cbn [m]. destruct (IH k a Hk) as [a1 H1]. rewrite H1. eauto.
  - cbn [m]. destruct (m r1 i (w ++ rest) k); [eauto|]. eauto.
  - simpl in Hk. rewrite Nat.add_0_r in Hk. cbn [m app].
    destruct (length rest); cbn [greedy]; [eauto|].
    match goal with |- exists _, match ?x with _ => _ end = _ =>
      destruct x end; eauto.
  - rewrite length_app, Nat.add_assoc in Hk.
    destruct (IH2 k a Hk) as [a2 H2]. cbn [m] in H2.
    rewrite <- app_assoc. cbn [m].
    destruct (length (w1 ++ w2 ++ rest)) as [|f] eqn:El.
    { destruct w1; [congruence | discriminate]. }
    cbn [greedy]. rewrite El.
    set (cont := fun j t => if (length t <? S f)%nat
                            then greedy (m r) k f j t else None).
    destruct (IH1 cont a2) as [a1 H1].
    { unfold cont.
      assert (Hlt : (length (w2 ++ rest) <? S f)%nat = true).
      { apply Nat.ltb_lt. rewrite (length_app w1) in El.
        destruct w1; [congruence | simpl in El; lia]. }
      rewrite Hlt. rewrite <- H2.
      apply greedy_fuel; [apply m_ext | apply m_strict | | lia].
      apply Nat.ltb_lt in Hlt. lia. }
    match goal with |- exists _, match ?x with _ => _ end = _ =>
      assert (Hx : x = Some a1) by exact H1; rewrite Hx end.
    eauto.
  - simpl in Hk. rewrite Nat.add_0_r in Hk. cbn [m app].
    destruct (length rest); cbn [lazy]; [eauto|]. rewrite Hk. eauto.
  - rewrite length_app, Nat.add_assoc in Hk.
    destruct (IH2 k a Hk) as [a2 H2]. cbn [m] in H2.
    rewrite <- app_assoc. cbn [m].
    destruct (length (w1 ++ w2 ++ rest)) as [|f] eqn:El.
    { destruct w1; [congruence | discriminate]. }
    cbn [lazy]. rewrite El.
    destruct (k i (w1 ++ w2 ++ rest)); [eauto|].
    set (cont := fun j t => if (length t <? S f)%nat
                            then lazy (m r) k f j t else None).
    apply (IH1 cont a2).
    unfold cont.
    assert (Hlt : (length (w2 ++ rest) <? S f)%nat = true).
    { apply Nat.ltb_lt. rewrite (length_app w1) in El.
      destruct w1; [congruence | simpl in El; lia]. }
    rewrite Hlt. rewrite <- H2.
    apply lazy_fuel; [apply m_ext | apply m_strict | | lia].
    apply Nat.ltb_lt in Hlt. lia.
  - simpl in *. eauto.
  - simpl in *. rewrite Nat.add_0_r in Hk. eauto.
Qed.

(** Soundness: a success of the matcher is a declarative match followed
    by a success of the continuation. *)
Lemma greedy_sound r :
  (forall i s k a, m r i s k = Some a ->
     exists w rest, s = w ++ rest /\ matches r i w rest
                    /\ k (i + length w)%nat rest = Some a) ->
  forall fuel i s k a, greedy (m r) k fuel i s = Some a ->
  exists w rest, s = w ++ rest /\ matches (Star r) i w rest
                 /\ k (i + length w)%nat rest = Some a.
Proof.
  intros IHr. induction fuel as [|f IH]; intros i s k a H; cbn [greedy] in H.
  - exists [], s. rewrite Nat.add_0_r. repeat split; [constructor | exact H].
  - destruct (m r i s _) as [a0|] eqn:E.
    + injection H as ->.
      apply IHr in E. destruct E as (w1 & rest1 & -> & Hm1 & Hk).
      destruct (length rest1 <? length (w1 ++ rest1))%nat eqn:Hlt;
        [|discriminate].
      apply IH in Hk. destruct Hk as (w2 & rest & -> & Hm2 & Hk).
      exists (w1 ++ w2), rest. rewrite app_assoc.
      split; [reflexivity|]. split.
      * constructor; [|exact Hm1 | exact Hm2].
        intros ->. apply Nat.ltb_lt in Hlt. cbn in Hlt. lia.
      * now rewrite length_app, Nat.add_assoc.
    + exists [], s. rewrite Nat.add_0_r.
      repeat split; [constructor | exact H].
Qed.

Lemma lazy_sound r :
  (forall i s k a, m r i s k = Some a ->
     exists w rest, s = w ++ rest /\ matches r i w rest
                    /\ k (i + length w)%nat rest = Some a) ->
  forall fuel i s k a, lazy (m r) k fuel i s = Some a ->
  exists w rest, s = w ++ rest /\ matches (StarLazy r) i w rest
                 /\ k (i + length w)%nat rest = Some a.
Proof.
  intros IHr. induction fuel as [|f IH]; intros i s k a H; cbn [lazy] in H.
  - exists [], s. rewrite Nat.add_0_r. repeat split; [constructor | exact H].
  - destruct (k i s) as [a0|] eqn:E.
    + injection H as ->. exists [], s. rewrite Nat.add_0_r.
      repeat split; [constructor | exact E].
    + apply IHr in H. destruct H as (w1 & rest1 & -> & Hm1 & Hk).
      destruct (length rest1 <? length (w1 ++ rest1))%nat eqn:Hlt;
        [|discriminate].
      apply IH in Hk. destruct Hk as (w2 & rest & -> & Hm2 & Hk).
      exists (w1 ++ w2), rest. rewrite app_assoc.
      split; [reflexivity|]. split.
      * constructor; [|exact Hm1 | exact Hm2].
        intros ->. apply Nat.ltb_lt in Hlt. cbn in Hlt. lia.
      * now rewrite length_app, Nat.add_assoc.
Qed.

Lemma m_sound r : forall i s k a,
  m r i s k = Some a ->
  exists w rest, s = w ++ rest /\ matches r i w rest
                 /\ k (i + length w)%nat rest = Some a.
Proof.
  induction r; intros i s k a H; cbn [m] in H.
  - exists [], s. rewrite Nat.add_0_r. repeat split; [constructor | exact H].
  - destruct s as [|c s']; [discriminate|].
    destruct (p c) eqn:E; [|discriminate].
    exists [c], s'. rewrite Nat.add_1_r.
    repeat split; [now constructor | exact H].
  - apply IHr1 in H. destruct H as (w1 & rest1 & -> & Hm1 & H).
    apply IHr2 in H. destruct H as (w2 & rest & -> & Hm2 & H).
    exists (w1 ++ w2), rest. rewrite app_assoc.
    split; [reflexivity|]. split; [now constructor|].
    now rewrite length_app, Nat.add_assoc.
  - destruct (m r1 i s k) as [a0|] eqn:E.
    + injection H as ->. apply IHr1 in E.
      destruct E as (w & rest & -> & Hm & Hk).
      exists w, rest. repeat split; [now apply M_alt_l | exact Hk].
    + apply IHr2 in H. destruct H as (w & rest & -> & Hm & Hk).
      exists w, rest. repeat split; [now apply M_alt_r | exact Hk].
  - now apply greedy_sound in H.
  - now apply lazy_sound in H.
  - destruct i; [|discriminate].
    exists [], s. repeat split; [constructor | exact H].
  - destruct s; [|discriminate].
    exists [], []. rewrite Nat.add_0_r.
    repeat split; [constructor | exact H].
Qed.

End Ext.

End RegexFacts.

(** ** Substrings *)

Module StrFacts.


Lemma startsWith_app p : forall t, startsWith (p ++ t) p = true.
Proof.
  induction p as [|x p IH]; intros t; simpl; [now destruct t|].
  now rewrite N.eqb_refl, IH.
Qed.


Lemma includes_app pre p post : includes (pre ++ p ++ post) p = true.
Proof.
  induction pre as [|c pre IH]; cbn [app].
  - destruct (p ++ post) eqn:E; cbn [includes]; rewrite <- E;
      now rewrite startsWith_app.
  - cbn [includes]. rewrite IH. apply orb_true_r.
Qed.

End StrFacts.

(** ** Literal patterns and the leftmost search *)

Module SearchFacts.
Import RegexFacts StrFacts.


Lemma search_eq r i s :
  search r i s =
  match m r i s (fun j _ => Some j) with
  | Some j => Some (i, j)
  | None => match s with
            | [] => None
            | _ :: s' => search r (S i) s'
            end
  end.
Proof. destruct s; reflexivity. Qed.

Lemma search_complete r w post : forall pre i,
  matches r (i + length pre) w post ->
  search r i (pre ++ w ++ post) <> None.
Proof.
  induction pre as [|c pre IH]; intros i Hm; rewrite search_eq.
  - rewrite Nat.add_0_r in Hm.
    destruct (m_complete Hm (fun j _ => Some j) eq_refl) as [j Hj].
    cbn [app]. rewrite Hj. discriminate.
  - destruct (m r i ((c :: pre) ++ w ++ post) (fun j _ => Some j));
      [discriminate|].
    cbn [app]. apply IH. simpl in Hm. now rewrite Nat.add_succ_r in Hm.
Qed.

Lemma test_complete r pre w post :
  matches r (length pre) w post -> test r (pre ++ w ++ post) = true.
Proof.
  intros Hm. unfold test.
  destruct (search r 0 (pre ++ w ++ post)) eqn:E; [reflexivity|].
  exfalso. revert E. now apply search_complete.
Qed.

Lemma search_sound r : forall s i a b,
  search r i s = Some (a, b) ->
  exists pre w post,
    s = pre ++ w ++ post /\ a = (i + length pre)%nat
    /\ matches r a w post /\ b = (a + length w)%nat.
Proof.
  induction s as [|c s IH]; intros i a b H; rewrite search_eq in H.
  - destruct (m r i [] _) as [j|] eqn:E; [|discriminate].
    injection H as <- <-. apply m_sound in E.
    destruct E as (w & post & Hs & Hm & Hj). injection Hj as <-.
    exists [], w, post. rewrite Nat.add_0_r. now repeat split.
  - destruct (m r i (c :: s) _) as [j|] eqn:E.
    + injection H as <- <-. apply m_sound in E.
      destruct E as (w & post & Hs & Hm & Hj). injection Hj as <-.
      exists [], w, post. rewrite Nat.add_0_r. now repeat split.
    + apply IH in H. destruct H as (pre & w & post & -> & -> & Hm & ->).
      exists (c :: pre), w, post. cbn [length app].
      rewrite Nat.add_succ_r. now repeat split.
Qed.

(** [test] decides whether some substring matches. *)
Lemma test_spec r s :
  test r s = true <->
  exists pre w post, s = pre ++ w ++ post /\ matches r (length pre) w post.
Proof.
  split.
  - unfold test. destruct (search r 0 s) as [[a b]|] eqn:E; [|discriminate].
    intros _. apply search_sound in E.
    destruct E as (pre & w & post & -> & -> & Hm & _).
    now exists pre, w, post.
  - intros (pre & w & post & -> & Hm). now apply test_complete.
Qed.



(** A regex that starts with a code unit the input does not have matches
    nowhere. *)
Lemma search_first_absent p r s : forall i,
  Forall (fun c => p c = false) s -> search (Cat (Chr p) r) i s = None.
Proof.
  induction s as [|c s IH]; intros i H; simpl; [reflexivity|].
  inversion H as [|? ? Hc Hs]; subst. rewrite Hc. now apply IH.
Qed.

End SearchFacts.

(** ** Runs of the monadic operations *)

Module RunFacts.

Local Open Scope m_scope.
Arguments await : simpl never.
Arguments u : simpl never.

Lemma fold_deliver_trace es : forall w,
  trace (fold_left deliver es w) = trace w.
Proof.
  induction es as [|e es IH]; intros w; simpl; [reflexivity|].
  rewrite IH. now destruct e.
Qed.

Lemma fold_deliver_personality es : forall w,
  personalityPrompt (fold_left deliver es w) = personalityPrompt w.
Proof.
  induction es as [|e es IH]; intros w; simpl; [reflexivity|].
  rewrite IH. now destruct e.
Qed.

Lemma fold_deliver_setTrace t es : forall w,
  fold_left deliver es (setTrace t w) = setTrace t (fold_left deliver es w).
Proof.
  induction es as [|e es IH]; intros w; simpl; [reflexivity|].
  rewrite <- IH. now destruct e.
Qed.

Lemma fold_deliver_alive es : forall w,
  claudeProcess (fold_left deliver es w) = true -> claudeProcess w = true.
Proof.
  induction es as [|e es IH]; intros w H; simpl in H; [exact H|].
  apply IH in H. now destruct e.
Qed.

Lemma await_trace w : trace (await w) = trace w.
Proof.
  unfold await. destruct (arrivals w); [reflexivity|].
  now rewrite fold_deliver_trace.
Qed.

Lemma await_personality w : personalityPrompt (await w) = personalityPrompt w.
Proof.
  unfold await. destruct (arrivals w); [reflexivity|].
  now rewrite fold_deliver_personality.
Qed.

Lemma await_setTrace t w : await (setTrace t w) = setTrace t (await w).
Proof.
  unfold await. simpl. destruct (arrivals w); [reflexivity|].
  now rewrite <- fold_deliver_setTrace.
Qed.

Lemma await_alive w : claudeProcess (await w) = true -> claudeProcess w = true.
Proof.
  unfold await. destruct (arrivals w); [auto|].
  intros H. now apply fold_deliver_alive in H.
Qed.

Lemma setTrace_setTrace t1 t2 w : setTrace t2 (setTrace t1 w) = setTrace t2 w.
Proof. reflexivity. Qed.

Lemma trace_setTrace t w : trace (setTrace t w) = t.
Proof. reflexivity. Qed.

Lemma process_setTrace t w : claudeProcess (setTrace t w) = claudeProcess w.
Proof. reflexivity. Qed.

Lemma buffer_setTrace t w :
  claudeOutputBuffer (setTrace t w) = claudeOutputBuffer w.
Proof. reflexivity. Qed.

Lemma personality_setTrace t w :
  personalityPrompt (setTrace t w) = personalityPrompt w.
Proof. reflexivity. Qed.

Create Rewrite HintDb world.
#[export] Hint Rewrite setTrace_setTrace trace_setTrace process_setTrace
  buffer_setTrace personality_setTrace await_setTrace await_trace
  await_personality : world.
#[export] Hint Rewrite <- app_assoc : world.

Ltac norm := autorewrite with world; cbn [app].

Lemma bind_ok {A B} (c : M A) (f : A -> M B) w a w' :
  c w = (Ok a, w') -> bind c f w = f a w'.
Proof. intros H. unfold bind. now rewrite H. Qed.

Lemma bind_throw {A B} (c : M A) (f : A -> M B) w w' :
  c w = (Throw, w') -> bind c f w = (Throw, w').
Proof. intros H. unfold bind. now rewrite H. Qed.

Lemma get_run {A} (f : World -> A) w : get f w = (Ok (f w), w).
Proof. reflexivity. Qed.

Lemma sleep_run ms w :
  sleep ms w = (Ok tt, setTrace (trace w ++ [Sleep ms]) (await w)).
Proof. unfold sleep, bind, emit, suspend. now rewrite await_setTrace. Qed.

Lemma ptyWrite_alive bytes w :
  claudeProcess w = true ->
  ptyWrite bytes w = (Ok tt, setTrace (trace w ++ [Write bytes]) w).
Proof. intros H. unfold ptyWrite, bind, get. now rewrite H. Qed.

Lemma ptyWrite_dead bytes w :
  claudeProcess w = false -> ptyWrite bytes w = (Throw, w).
Proof. intros H. unfold ptyWrite, bind, get. now rewrite H. Qed.

(** The process outlives the two pauses of [sendToClaudeCode]: the three
    writes go out. *)
Lemma sendToClaudeCode_run input w :
  claudeProcess (await (await w)) = true ->
  sendToClaudeCode input w
  = (Ok tt, setTrace (trace w ++ sendTrace input) (await (await w))).
Proof.
  intros H2. pose proof (await_alive _ H2) as H1.
  pose proof (await_alive _ H1) as H0.
  unfold sendToClaudeCode.
  rewrite (bind_ok _ _ _ (get_run _ _)). rewrite H0.
  rewrite (bind_ok _ _ _ (@ptyWrite_alive _ w H0)).
  rewrite (bind_ok _ _ _ (sleep_run _ _)). norm.
  rewrite (bind_ok _ _ _ (@ptyWrite_alive _ (setTrace _ (await w)) H1)).
  rewrite (bind_ok _ _ _ (sleep_run _ _)). norm.
  rewrite ptyWrite_alive by exact H2. norm. reflexivity.
Qed.

Lemma sendToClaudeCode_dead input w :
  claudeProcess w = false -> sendToClaudeCode input w = (Throw, w).
Proof. intros H. unfold sendToClaudeCode, bind, get. now rewrite H. Qed.

Lemma autoApprovePrompt_run output w :
  claudeProcess (await (await w)) = true ->
  autoApprovePrompt output w
  = (Ok tt,
     setTrace (trace w ++ approveTrace output)
       match acknowledgement output with
       | Some _ => await (await (await w))
       | None => await w
       end).
Proof.
  intros H.
  assert (Hs : forall token,
    bind (sendToClaudeCode token) (fun _ => sleep 1000) w
    = (Ok tt, setTrace (trace w ++ sendTrace token ++ [Sleep 1000])
                (await (await (await w))))).
  { intros token. rewrite (bind_ok _ _ _ (sendToClaudeCode_run _ _ H)).
    rewrite sleep_run. norm. reflexivity. }
  unfold autoApprovePrompt, approveTrace, acknowledgement.
  destruct (includes output (u "❯ 1. Yes")); [apply Hs|].
  destruct (includes output (u "[Y/n]")); [apply Hs|].
  destruct (includes output (u "Do you want to proceed?")); [apply Hs|].
  unfold bind, ret. rewrite sleep_run. reflexivity.
Qed.

End RunFacts.

(** ** The prompt interceptor inside the loop *)

Module InterceptFacts.
Import RunFacts SearchFacts.
Local Open Scope m_scope.

Section WithModel.
Variable ollama : nat -> str -> GenResult.

Lemma generate_run prompt w :
  generate ollama prompt w
  = (Ok (ollama (calls (trace w)) prompt),
     setTrace (trace w ++ [Generate prompt]) (await w)).
Proof.
  unfold generate, bind, get, emit, suspend, ret. now rewrite await_setTrace.
Qed.

Lemma handlePromptViaAni_run userInput claudePrompt w :
  let prompt := aniPrompt userInput claudePrompt (personalityPrompt w) in
  let result := ollama (calls (trace w)) prompt in
  handlePromptViaAni ollama userInput claudePrompt w
  = (Ok (if succeeded result
         then Some (Reply (text (response result)) (u "claude+prompt+gemma"))
         else None),
     setTrace (trace w ++ [Generate prompt]) (await w)).
Proof.
  intros prompt result. unfold handlePromptViaAni.
  rewrite (bind_ok _ _ _ (get_run _ _)).
  rewrite (bind_ok _ _ _ (generate_run _ _)).
  fold prompt result. now destruct (succeeded result).
Qed.

(** The three ways the loop body reads a grown buffer. *)
Lemma inspect_safe userInput init last stable w :
  (last < length (claudeOutputBuffer w))%nat ->
  classify (latestOutputOf (claudeOutputBuffer w)) = Safe ->
  inspect ollama userInput init last stable w
  = (autoApprovePrompt (latestOutputOf (claudeOutputBuffer w)) ;;
     buffer' <- get claudeOutputBuffer ;;
     ret (Continue (length buffer') 0)) w.
Proof.
  intros Hlen Hc. unfold inspect, classify in *.
  rewrite (bind_ok _ _ _ (get_run _ _)).
  apply Nat.ltb_lt in Hlen. rewrite Hlen.
  destruct (hasPermissionPrompt _); [|discriminate].
  destruct (isSafeCommand _); [reflexivity|discriminate].
Qed.

Lemma inspect_unsafe userInput init last stable w :
  (last < length (claudeOutputBuffer w))%nat ->
  classify (latestOutputOf (claudeOutputBuffer w)) = Unsafe ->
  inspect ollama userInput init last stable w
  = (promptResponse <-
       handlePromptViaAni ollama userInput
         (latestOutputOf (claudeOutputBuffer w)) ;;
     match promptResponse with
     | Some o => ret (Return o)
     | None => ret Break
     end) w.
Proof.
  intros Hlen Hc. unfold inspect, classify in *.
  rewrite (bind_ok _ _ _ (get_run _ _)).
  apply Nat.ltb_lt in Hlen. rewrite Hlen.
  destruct (hasPermissionPrompt _); [|discriminate].
  destruct (isSafeCommand _); [discriminate|reflexivity].
Qed.

Lemma inspect_unsafe_run userInput init last stable w :
  let window := latestOutputOf (claudeOutputBuffer w) in
  let prompt := aniPrompt userInput window (personalityPrompt w) in
  let result := ollama (calls (trace w)) prompt in
  (last < length (claudeOutputBuffer w))%nat ->
  classify window = Unsafe ->
  inspect ollama userInput init last stable w
  = (Ok (if succeeded result
         then Return (Reply (text (response result))
                            (u "claude+prompt+gemma"))
         else Break),
     setTrace (trace w ++ [Generate prompt]) (await w)).
Proof.
  intros window prompt result Hlen Hc.
  rewrite inspect_unsafe by assumption.
  rewrite (bind_ok _ _ _ (handlePromptViaAni_run _ _ _)).
  fold window prompt result. now destruct (succeeded result).
Qed.

Lemma tick_run userInput init last stable w :
  tick ollama userInput init last stable w
  = inspect ollama userInput init last stable
      (setTrace (trace w ++ [Sleep 500]) (await w)).
Proof. unfold tick. now rewrite (bind_ok _ _ _ (sleep_run _ _)). Qed.

Lemma poll_S ticks userInput init last stable w :
  poll ollama (S ticks) userInput init last stable w
  = match tick ollama userInput init last stable w with
    | (Ok (Continue last' stable'), w') =>
      poll ollama ticks userInput init last' stable' w'
    | (Ok Break, w') => (Ok None, w')
    | (Ok (Return o), w') => (Ok (Some o), w')
    | (Throw, w') => (Throw, w')
    end.
Proof.
  cbn [poll]. unfold bind.
  destruct (tick ollama userInput init last stable w) as [[[| |]|] w'];
    reflexivity.
Qed.

Lemma inspect_safe_run userInput init last stable w :
  let window := latestOutputOf (claudeOutputBuffer w) in
  let w' := setTrace (trace w ++ approveTrace window)
              match acknowledgement window with
              | Some _ => await (await (await w))
              | None => await w
              end in
  (last < length (claudeOutputBuffer w))%nat ->
  classify window = Safe ->
  claudeProcess (await (await w)) = true ->
  inspect ollama userInput init last stable w
  = (Ok (Continue (length (claudeOutputBuffer w')) 0), w').
Proof.
  intros window w' Hlen Hc Ha.
  rewrite inspect_safe by assumption.
  rewrite (bind_ok _ _ _ (autoApprovePrompt_run _ _ Ha)).
  reflexivity.
Qed.

End WithModel.

Lemma writesOf_app t1 t2 : writesOf (t1 ++ t2) = writesOf t1 ++ writesOf t2.
Proof. unfold writesOf. now rewrite flat_map_app. Qed.

Lemma promptsOf_app t1 t2 :
  promptsOf (t1 ++ t2) = promptsOf t1 ++ promptsOf t2.
Proof. unfold promptsOf. now rewrite flat_map_app. Qed.

Lemma ticksOf_app t1 t2 : (ticksOf (t1 ++ t2) = ticksOf t1 + ticksOf t2)%nat.
Proof. unfold ticksOf. now rewrite filter_app, length_app. Qed.

Lemma calls_app t1 t2 : (calls (t1 ++ t2) = calls t1 + calls t2)%nat.
Proof. unfold calls. now rewrite filter_app, length_app. Qed.



End InterceptFacts.

(** * The model on the scenarios of the specification *)

Import RunFacts SearchFacts InterceptFacts.
Local Open Scope m_scope.
Local Open Scope nat_scope.

(** Box-drawing frames and an animation line around two file names: the
    classifier keeps the two names. *)
Example classifier_keeps_filenames :
  onData [] (u "╭──────────────╮" ++ [CR; LF]
             ++ [ESC] ++ u "[1m│ README.md    │" ++ [ESC] ++ u "[0m" ++ [LF]
             ++ u "✻ Listing…" ++ [LF]
             ++ u "│ package.json (3s · esc to interrupt) │" ++ [LF]
             ++ u "╰──────────────╯")
  = [u "README.md"; u "package.json"].
Proof. vm_compute. reflexivity. Qed.

(** Scenario A: the session lists two files, the loop ends on stability
    and the outcome is tagged "claude+gemma". *)
Example scenario_assisted :
  let w := running [] [[]; []; [Data (u "- README.md" ++ [LF]
                                      ++ u "- package.json")]] in
  let run := processRequest asciiLower (answers (u "Two files."))
                            (u "list files here") w in
  fst run = Ok (Reply (u "Two files.") (u "claude+gemma"))
  /\ ticksOf (trace (snd run)) = 7
  /\ promptsOf (trace (snd run))
     = [simplePrompt (u "list files here")
          (u "- README.md" ++ [LF] ++ u "- package.json")
          defaultPersonality].
Proof. vm_compute. repeat split. Qed.

(** Scenario C: without a session the request goes to the direct path and
    nothing is written. *)
Example scenario_no_session :
  let w := setProcess false (running [] []) in
  let run := processRequest asciiLower (answers (u "Hello.")) (u "list it")
                            w in
  fst run = Ok (Reply (u "Hello.") (u "gemma"))
  /\ trace (snd run)
     = [Generate (fullPrompt (u "list it") defaultPersonality)].
Proof. vm_compute. repeat split. Qed.

(** The process exits while the request is being typed: the write on the
    null handle throws, and the request goes to the direct path. *)
Example exit_during_dispatch :
  let w := running [] [[Exit]] in
  let run := processRequest asciiLower (answers (u "Hello.")) (u "list it")
                            w in
  fst run = Ok (Reply (u "Hello.") (u "gemma"))
  /\ writesOf (trace (snd run)) = [[3%N]]
  /\ ticksOf (trace (snd run)) = 0.
Proof. vm_compute. repeat split. Qed.

(** * The claims of the specification *)


(** ** The prompt interceptor *)

(** C1, against the claim: a window that names a mutating verb and also
    has an allow-list match (here "ls" inside "tools") is classified Safe,
    and the loop body answers the prompt with "1". *)
Lemma mutating_verb_is_auto_approved :
  let buffer := [u "Bash command"; u "delete tools/old.txt";
                 u "Do you want to proceed?"; u "❯ 1. Yes"] in
  let w := running buffer [] in
  hasPermissionPrompt (windowOf w) = true
  /\ hasMutatingVerb (windowOf w) = true
  /\ classify (windowOf w) = Safe
  /\ writesOf (trace (snd (inspect (answers (u "fine")) (u "clean up")
                                   0 0 0 w)))
     = [[3%N]; u "1"; [CR]].
Proof. vm_compute. repeat split. Qed.

(** C1, amended: a window in which a confirmation prompt is detected is
    classified Unsafe exactly when no allow-list pattern matches it,
    whatever verbs it contains; the loop body then writes nothing to the
    session. *)
Theorem unsafe_iff_no_allow_list_match
  (ollama : nat -> str -> GenResult) (userInput : str)
  (init last stable : nat) (w : World) :
  last < length (claudeOutputBuffer w) ->
  hasPermissionPrompt (windowOf w) = true ->
  (classify (windowOf w) = Unsafe <-> isSafeCommand (windowOf w) = false)
  /\ (isSafeCommand (windowOf w) = false ->
      writesOf (trace (snd (inspect ollama userInput init last stable w)))
      = writesOf (trace w)).
Proof.
  intros Hlen Hp. split.
  - unfold classify. rewrite Hp.
    destruct (isSafeCommand (windowOf w)); split; congruence.
  - intros Hs.
    assert (Hc : classify (windowOf w) = Unsafe)
      by (unfold classify; now rewrite Hp, Hs).
    rewrite (@inspect_unsafe_run ollama userInput init last stable w Hlen Hc).
    cbn [snd]. rewrite trace_setTrace, writesOf_app. cbn.
    apply app_nil_r.
Qed.

Lemma unsafe_iff_no_allow_list_match_witness :
  let w := running [u "delete old.txt? [Y/n]"] [] in
  classify (windowOf w) = Unsafe
  /\ writesOf (trace (snd (inspect (answers (u "fine")) (u "clean up")
                                   0 0 0 w)))
     = writesOf (trace w).
Proof.
  destruct (@unsafe_iff_no_allow_list_match (answers (u "fine"))
              (u "clean up") 0 0 0 (running [u "delete old.txt? [Y/n]"] []))
    as [Hiff Hwrites]; [vm_compute; lia | vm_compute; reflexivity |].
  split; [apply Hiff | apply Hwrites]; vm_compute; reflexivity.
Defined.




(** C3, against the claim: when the secondary model fails on the
    clarification prompt, its reply is not the outcome; the loop is left
    and the request is answered on the direct path, with the tag "gemma",
    by a second call. *)
Lemma failed_escalation_falls_through :
  let w := running [] [[]; []; [Data (u "delete everything? [Y/n]")]] in
  let run := processRequest asciiLower (failsFirst (u "fine")) (u "list it")
                            w in
  classify (windowOf (snd run)) = Unsafe
  /\ fst run = Ok (Reply (u "fine") (u "gemma"))
  /\ promptsOf (trace (snd run))
     = [aniPrompt (u "list it") (u "delete everything? [Y/n]")
                  defaultPersonality;
        fullPrompt (u "list it") defaultPersonality].
Proof. vm_compute. repeat split. Qed.

(** C3, amended: when the tick of the loop finds a prompt classified
    Unsafe, the wrapper writes nothing to the session; it sends the
    clarification prompt, made of the user input, the evidence and the
    persona text, to the secondary model; a non-empty reply without error
    is returned with the tag "claude+prompt+gemma", and otherwise the loop
    is left without an outcome. *)
Theorem unsafe_prompt_escalates
  (ollama : nat -> str -> GenResult) (userInput : str)
  (ticks init last stable : nat) (w : World) :
  let window := windowOf (await w) in
  let prompt := aniPrompt userInput window (personalityPrompt w) in
  let result := ollama (calls (trace w)) prompt in
  let run := poll ollama (S ticks) userInput init last stable w in
  last < length (claudeOutputBuffer (await w)) ->
  classify window = Unsafe ->
  trace (snd run) = trace w ++ [Sleep 500; Generate prompt]
  /\ writesOf (trace (snd run)) = writesOf (trace w)
  /\ fst run
     = Ok (if succeeded result
           then Some (Reply (text (response result))
                            (u "claude+prompt+gemma"))
           else None).
Proof.
  intros window prompt result run Hlen Hc.
  assert (Hrun : run
    = (Ok (if succeeded result
           then Some (Reply (text (response result))
                            (u "claude+prompt+gemma"))
           else None),
       setTrace (trace w ++ [Sleep 500; Generate prompt])
                (await (await w)))).
  { unfold run. rewrite poll_S, tick_run.
    rewrite (@inspect_unsafe_run ollama userInput init last stable
               (setTrace (trace w ++ [Sleep 500]) (await w)) Hlen Hc).
    norm. rewrite calls_app. cbn [calls filter isGenerate length].
    rewrite Nat.add_0_r.
    fold (windowOf (await w)). fold window prompt result.
    now destruct (succeeded result). }
  rewrite Hrun. cbn [fst snd]. rewrite trace_setTrace.
  repeat split. rewrite writesOf_app. cbn. apply app_nil_r.
Qed.

Lemma unsafe_prompt_escalates_witness :
  let w := running [] [[Data (u "delete everything? [Y/n]")]] in
  let ollama := answers (u "Shall I delete everything?") in
  let userInput := u "clean up" in
  let window := windowOf (await w) in
  let prompt := aniPrompt userInput window (personalityPrompt w) in
  let result := ollama (calls (trace w)) prompt in
  let run := poll ollama 60 userInput 0 0 0 w in
  trace (snd run) = trace w ++ [Sleep 500; Generate prompt]
  /\ writesOf (trace (snd run)) = writesOf (trace w)
  /\ fst run
     = Ok (if succeeded result
           then Some (Reply (text (response result))
                            (u "claude+prompt+gemma"))
           else None).
Proof.
  apply (@unsafe_prompt_escalates (answers (u "Shall I delete everything?"))
           (u "clean up") 59 0 0 0
           (running [] [[Data (u "delete everything? [Y/n]")]]));
    vm_compute; [lia | reflexivity].
Defined.

(** C4, against the claim: the answer is not the only write.  For the
    window "ls [Y/n]" the session receives Ctrl-C, then "Y", then a
    carriage return; and for a numbered menu typed without spaces, which
    the prompt pattern accepts, it receives nothing. *)
Lemma acknowledgement_is_framed :
  let approved window :=
    writesOf (trace (snd (autoApprovePrompt window (running [] [])))) in
  classify (u "ls [Y/n]") = Safe
  /\ approved (u "ls [Y/n]") = [[3%N]; u "Y"; [CR]]
  /\ approved (u "ls [Y/n]") <> [u "Y"]
  /\ classify (u "ls ❯1.Yes") = Safe
  /\ approved (u "ls ❯1.Yes") = [].
Proof. vm_compute. repeat split. discriminate. Qed.

(** C4, amended: when the loop body auto-approves a Safe prompt and the
    process stays alive, the writes to the session are Ctrl-C, the answer
    and a carriage return, where the answer is "1" if the window has
    "❯ 1. Yes", else "Y" if it has "[Y/n]", else "y" if it has "Do you want
    to proceed?"; a window with none of the three gets no write.  Nothing
    else is written and polling goes on. *)
Theorem auto_approval_writes
  (ollama : nat -> str -> GenResult) (userInput : str)
  (init last stable : nat) (w : World) :
  let run := inspect ollama userInput init last stable w in
  last < length (claudeOutputBuffer w) ->
  classify (windowOf w) = Safe ->
  claudeProcess (await (await w)) = true ->
  writesOf (trace (snd run))
  = writesOf (trace w)
    ++ match acknowledgement (windowOf w) with
       | Some token => [[3%N]; token; [CR]]
       | None => []
       end
  /\ trace (snd run) = trace w ++ approveTrace (windowOf w)
  /\ fst run = Ok (Continue (length (claudeOutputBuffer (snd run))) 0).
Proof.
  intros run Hlen Hc Ha. unfold run.
  rewrite (@inspect_safe_run ollama userInput init last stable w Hlen Hc Ha).
  cbn [fst snd]. rewrite trace_setTrace. repeat split.
  rewrite writesOf_app. f_equal. unfold approveTrace, windowOf.
  destruct (acknowledgement _); reflexivity.
Qed.

Lemma auto_approval_writes_witness :
  let w := running [u "Bash command"; u "ls -la"; u "Do you want to proceed?"]
                   [] in
  let run := inspect (answers (u "fine")) (u "list it") 0 0 0 w in
  writesOf (trace (snd run)) = writesOf (trace w) ++ [[3%N]; u "y"; [CR]]
  /\ trace (snd run) = trace w ++ approveTrace (windowOf w)
  /\ fst run = Ok (Continue (length (claudeOutputBuffer (snd run))) 0).
Proof.
  apply (@auto_approval_writes (answers (u "fine")) (u "list it") 0 0 0
           (running [u "Bash command"; u "ls -la";
                     u "Do you want to proceed?"] []));
    vm_compute; [lia | reflexivity | reflexivity].
Defined.




(** ** The output log *)

Lemma onData_eq buffer data :
  onData buffer data
  = let pushed := buffer ++ extractMeaningfulContent (allLines data) in
    if capacity <? length pushed then sliceLast watermark pushed else pushed.
Proof.
  unfold onData.
  destruct (extractMeaningfulContent (allLines data)) as [|l ls];
    cbn [length Nat.ltb Nat.leb]; [now rewrite app_nil_r | reflexivity].
Qed.

Lemma sliceLast_length {A} n (l : list A) :
  n <= length l -> length (sliceLast n l) = n.
Proof. intros H. unfold sliceLast. rewrite length_skipn. lia. Qed.

(** The log of a running wrapper starts empty and never exceeds the
    capacity after a chunk has been handled. *)
Lemma onData_bounded buffer data : length (onData buffer data) <= capacity.
Proof.
  rewrite onData_eq. cbv zeta. destruct (capacity <? _) eqn:C.
  - apply Nat.ltb_lt in C. rewrite sliceLast_length;
      unfold capacity, watermark in *; lia.
  - now apply Nat.ltb_ge in C.
Qed.

Lemma sliceLast_suffix {A} n (l : list A) :
  l = firstn (length l - n) l ++ sliceLast n l.
Proof. unfold sliceLast. now rewrite firstn_skipn. Qed.

(** C7: an arriving chunk appends its lines to the output log: while the
    length stays within 5000 the log is the old log followed by the new
    lines, so its length does not decrease; when the length exceeds 5000
    the log becomes its last 2500 entries, exactly; in both cases the log
    is a suffix of the old log followed by the new lines, so the entries
    that survive keep their order. *)
Theorem onData_grows_or_truncates (w : World) (data : str) :
  let buffer := claudeOutputBuffer w in
  let pushed := buffer ++ extractMeaningfulContent (allLines data) in
  let buffer' := claudeOutputBuffer (deliver w (Data data)) in
  (length pushed <= 5000 ->
   buffer' = pushed /\ length buffer <= length buffer')
  /\ (5000 < length pushed ->
      buffer' = skipn (length pushed - 2500) pushed
      /\ length buffer' = 2500)
  /\ exists dropped, pushed = dropped ++ buffer'.
Proof.
  intros buffer pushed buffer'.
  assert (E : buffer' = (if capacity <? length pushed
                         then sliceLast watermark pushed else pushed))
    by apply onData_eq.
  unfold capacity, watermark, sliceLast in E.
  split; [|split].
  - intros Hle. apply Nat.ltb_ge in Hle. rewrite Hle in E.
    split; [exact E|]. rewrite E. unfold pushed. rewrite length_app. lia.
  - intros Hgt. assert (Hlt := Hgt). apply Nat.ltb_lt in Hlt.
    rewrite Hlt in E. split; [exact E|].
    rewrite E, length_skipn. lia.
  - rewrite E. destruct (5000 <? length pushed).
    + exists (firstn (length pushed - 2500) pushed).
      now rewrite firstn_skipn.
    + now exists [].
Qed.

Lemma onData_grows_or_truncates_witness :
  let w := running (repeat (u "earlier line") 4999) [] in
  let data := u "- README.md" ++ [LF] ++ u "- package.json" in
  let pushed :=
    claudeOutputBuffer w ++ extractMeaningfulContent (allLines data) in
  let buffer' := claudeOutputBuffer (deliver w (Data data)) in
  buffer' = skipn (length pushed - 2500) pushed /\ length buffer' = 2500.
Proof.
  cbv zeta.
  apply (proj1 (proj2 (@onData_grows_or_truncates
                         (running (repeat (u "earlier line") 4999) [])
                         (u "- README.md" ++ [LF] ++ u "- package.json")))).
  apply Nat.ltb_lt. vm_compute. reflexivity.
Defined.

Lemma onData_length_min buffer data :
  Nat.min (length buffer) watermark <= length (onData buffer data).
Proof.
  rewrite onData_eq. cbv zeta.
  destruct (capacity <? _) eqn:C.
  - apply Nat.ltb_lt in C. rewrite sliceLast_length; [lia|].
    unfold capacity, watermark in *. lia.
  - rewrite length_app. lia.
Qed.

Lemma fold_deliver_length_min es : forall w,
  Nat.min (length (claudeOutputBuffer w)) watermark
  <= length (claudeOutputBuffer (fold_left deliver es w)).
Proof.
  induction es as [|e es IH]; intros w; cbn [fold_left]; [lia|].
  specialize (IH (deliver w e)). destruct e as [chunk|]; cbn in *; [|exact IH].
  pose proof (onData_length_min (claudeOutputBuffer w) chunk). lia.
Qed.

(** C8, against the claim: a request dispatched with 4999 lines in the
    log has the cursor 4999; two more lines make the handler truncate the
    log to 2500 entries, below the cursor, and the answer of the session
    is lost: the request ends on the direct path. *)
Lemma truncation_drops_below_cursor :
  let w := running (repeat (u "earlier line") 4999)
                   [[]; []; [Data (u "- README.md" ++ [LF]
                                   ++ u "- package.json")]] in
  let cursor := length (claudeOutputBuffer w) in
  let run := processRequest asciiLower (answers (u "fine")) (u "list it") w in
  (length (claudeOutputBuffer (snd run)) <? cursor) = true
  /\ length (claudeOutputBuffer (snd run)) = watermark
  /\ fst run = Ok (Reply (u "fine") (u "gemma")).
Proof. vm_compute. repeat split. Qed.

(** C8, amended: whatever arrives while a request is processed, the log
    is never shorter than the smaller of the request cursor and the
    watermark of 2500 entries; so the cursor is at most the length of the
    log at every point when it is at most 2500. *)
Theorem cursor_bounded_by_log (w : World) (es : list Event) :
  let cursor := length (claudeOutputBuffer w) in
  let buffer' := claudeOutputBuffer (fold_left deliver es w) in
  Nat.min cursor watermark <= length buffer'
  /\ (cursor <= watermark -> cursor <= length buffer').
Proof.
  intros cursor buffer'. pose proof (fold_deliver_length_min es w) as H.
  fold cursor buffer' in H. split; [exact H | lia].
Qed.

Lemma cursor_bounded_by_log_witness :
  let w := running [u "- README.md"] [] in
  let es := [Data (u "- package.json"); Exit] in
  Nat.min 1 watermark <= length (claudeOutputBuffer (fold_left deliver es w))
  /\ 1 <= length (claudeOutputBuffer (fold_left deliver es w)).
Proof.
  destruct (@cursor_bounded_by_log (running [u "- README.md"] [])
              [Data (u "- package.json"); Exit]) as [H1 H2].
  split; [exact H1 | apply H2; vm_compute; lia].
Defined.

(** ** The polling loop *)

Lemma bind_assoc {A B C} (c : M A) (f : A -> M B) (g : B -> M C) w :
  bind (bind c f) g w = bind c (fun a => bind (f a) g) w.
Proof. unfold bind. destruct (c w) as [[a|] w']; reflexivity. Qed.

Lemma direct_run ollama userInput w :
  direct ollama userInput w
  = (Ok (directOutcome
           (ollama (calls (trace w))
                   (fullPrompt userInput (personalityPrompt w)))),
     setTrace (trace w
               ++ [Generate (fullPrompt userInput (personalityPrompt w))])
              (await w)).
Proof.
  unfold direct. rewrite (bind_ok _ _ _ (get_run _ _)).
  rewrite (bind_ok _ _ _ (generate_run _ _ _)).
  unfold directOutcome. now destruct (truthy (error _)).
Qed.

(** Where the [try] block ends without an outcome, by falling through or
    by an exception, the request goes to the direct path. *)
Lemma processRequest_falls_through toLowerCase ollama userInput w w1 r :
  isTechnical toLowerCase userInput = true ->
  claudeProcess w = true ->
  assisted toLowerCase ollama userInput
    (setPersonality match personalityFile w with
                    | Some content => trim content
                    | None => defaultPersonality
                    end w) = (r, w1) ->
  r = Ok None \/ r = Throw ->
  processRequest toLowerCase ollama userInput w = direct ollama userInput w1.
Proof.
  intros Ht Ha Hrun Hr. unfold processRequest.
  unfold bind at 1. unfold loadPersonalityPrompt.
  rewrite (bind_ok _ _ _ (get_run _ _)). cbn [claudeProcess setPersonality].
  rewrite Ht, Ha. cbn [andb]. unfold bind, catch. rewrite Hrun.
  destruct Hr as [-> | ->]; reflexivity.
Qed.

Lemma fold_deliver_arrivals es : forall w,
  arrivals (fold_left deliver es w) = arrivals w.
Proof.
  induction es as [|e es IH]; intros w; simpl; [reflexivity|].
  rewrite IH. now destruct e.
Qed.

Lemma await_arrivals w : arrivals (await w) = tl (arrivals w).
Proof.
  unfold await. destruct (arrivals w) eqn:E; [now rewrite E|].
  now rewrite fold_deliver_arrivals.
Qed.

Lemma onData_silent buffer data :
  length buffer <= capacity ->
  extractMeaningfulContent (allLines data) = [] ->
  onData buffer data = buffer.
Proof.
  intros Hc He. rewrite onData_eq, He, app_nil_r. cbv zeta.
  apply Nat.ltb_ge in Hc. now rewrite Hc.
Qed.

Lemma fold_deliver_silent es : forall w,
  length (claudeOutputBuffer w) <= capacity ->
  forallb silent es = true ->
  claudeOutputBuffer (fold_left deliver es w) = claudeOutputBuffer w.
Proof.
  induction es as [|e es IH]; intros w Hc Hs; cbn [fold_left]; [reflexivity|].
  cbn [forallb] in Hs. apply andb_true_iff in Hs. destruct Hs as [He Hs].
  assert (Hb : claudeOutputBuffer (deliver w e) = claudeOutputBuffer w).
  { destruct e as [chunk|]; [|reflexivity]. cbn in He |- *.
    apply onData_silent; [exact Hc|].
    apply Nat.eqb_eq in He. now apply length_zero_iff_nil. }
  rewrite IH; [exact Hb | now rewrite Hb | exact Hs].
Qed.

Lemma await_silent w :
  length (claudeOutputBuffer w) <= capacity ->
  forallb (forallb silent) (arrivals w) = true ->
  claudeOutputBuffer (await w) = claudeOutputBuffer w
  /\ forallb (forallb silent) (arrivals (await w)) = true.
Proof.
  intros Hc Hs. rewrite await_arrivals. unfold await.
  destruct (arrivals w) as [|es rest]; [now split|].
  cbn [forallb tl] in *. apply andb_true_iff in Hs. destruct Hs as [He Hr].
  split; [|exact Hr]. now rewrite fold_deliver_silent.
Qed.

Lemma fold_deliver_data es : forall w,
  forallb isData es = true ->
  claudeProcess (fold_left deliver es w) = claudeProcess w.
Proof.
  induction es as [|e es IH]; intros w Hs; cbn [fold_left]; [reflexivity|].
  cbn [forallb] in Hs. apply andb_true_iff in Hs. destruct Hs as [He Hs].
  rewrite IH by exact Hs. now destruct e.
Qed.

Lemma await_data w :
  forallb isData (hd [] (arrivals w)) = true ->
  claudeProcess (await w) = claudeProcess w.
Proof.
  intros H. unfold await. destruct (arrivals w) as [|es rest]; [reflexivity|].
  cbn [hd] in H. now rewrite fold_deliver_data.
Qed.

Lemma awaits_setTrace t n : forall w,
  awaits n (setTrace t w) = setTrace t (awaits n w).
Proof.
  induction n as [|n IH]; intros w; cbn [awaits]; [reflexivity|].
  now rewrite await_setTrace, IH.
Qed.

(** A tick that finds no growth only counts. *)
Lemma inspect_idle ollama userInput init last stable w :
  length (claudeOutputBuffer w) <= last ->
  inspect ollama userInput init last stable w
  = (Ok (if (stableThreshold <=? S stable)
            && (init <? length (claudeOutputBuffer w))
         then Break else Continue last (S stable)), w).
Proof.
  intros H. unfold inspect. rewrite (bind_ok _ _ _ (get_run _ _)).
  apply Nat.ltb_ge in H. rewrite H.
  now destruct ((stableThreshold <=? S stable)
                && (init <? length (claudeOutputBuffer w))).
Qed.

(** Without growth the loop uses up its iterations. *)
Lemma poll_silent ollama userInput ticks : forall stable w,
  length (claudeOutputBuffer w) <= capacity ->
  forallb (forallb silent) (arrivals w) = true ->
  poll ollama ticks userInput (length (claudeOutputBuffer w))
       (length (claudeOutputBuffer w)) stable w
  = (Ok None, setTrace (trace w ++ repeat (Sleep 500) ticks) (awaits ticks w))
  /\ claudeOutputBuffer (awaits ticks w) = claudeOutputBuffer w.
Proof.
  induction ticks as [|n IH]; intros stable w Hc Hs.
  - cbn. rewrite app_nil_r. split; [now destruct w | reflexivity].
  - destruct (await_silent w Hc Hs) as [Hb Hs'].
    rewrite poll_S, tick_run.
    rewrite inspect_idle by (norm; rewrite Hb; lia).
    norm. rewrite Hb, Nat.ltb_irrefl, andb_false_r.
    specialize (IH (S stable) (setTrace (trace w ++ [Sleep 500]) (await w))).
    rewrite buffer_setTrace, Hb in IH.
    destruct IH as [IH1 IH2]; [exact Hc | exact Hs' |].
    rewrite IH1. rewrite awaits_setTrace in *. norm.
    cbn [awaits repeat]. split; [reflexivity|].
    rewrite buffer_setTrace in IH2. exact IH2.
Qed.

Lemma complete_nothing ollama userInput init w :
  length (claudeOutputBuffer w) <= init ->
  complete ollama userInput init w = (Ok None, w).
Proof.
  intros H. unfold complete. rewrite (bind_ok _ _ _ (get_run _ _)).
  apply Nat.ltb_ge in H. now rewrite H.
Qed.

Lemma awaits_personality n : forall w,
  personalityPrompt (awaits n w) = personalityPrompt w.
Proof.
  induction n as [|n IH]; intros w; cbn [awaits]; [reflexivity|].
  now rewrite IH, await_personality.
Qed.

Lemma calls_sleeps ms n : calls (repeat (Sleep ms) n) = 0.
Proof. induction n as [|n IH]; [reflexivity | exact IH]. Qed.

Lemma ticksOf_ticks n : ticksOf (repeat (Sleep 500) n) = n.
Proof.
  induction n as [|n IH]; [reflexivity|].
  change (ticksOf (repeat (Sleep 500) (S n)))
    with (S (ticksOf (repeat (Sleep 500) n))).
  now rewrite IH.
Qed.

(** C5: if nothing that arrives after a request adds a line to the output
    log, and the request could be dispatched, the loop runs its 60 ticks
    and ends; nothing more is written to the session, and the request is
    answered on the direct path, by one call of the secondary model on the
    direct prompt. *)
Theorem silent_session_times_out
  (toLowerCase : str -> str) (ollama : nat -> str -> GenResult)
  (userInput : str) (w : World) :
  let run := processRequest toLowerCase ollama userInput w in
  let persona := match personalityFile w with
                 | Some content => trim content
                 | None => defaultPersonality
                 end in
  let waited := trace w ++ sendTrace (enhance toLowerCase userInput)
                ++ repeat (Sleep 500) maxWait in
  isTechnical toLowerCase userInput = true ->
  claudeProcess w = true ->
  length (claudeOutputBuffer w) <= capacity ->
  forallb (forallb isData) (firstn 2 (arrivals w)) = true ->
  forallb (forallb silent) (arrivals w) = true ->
  (exists w', run = direct ollama userInput w'
              /\ trace w' = waited
              /\ claudeOutputBuffer w' = claudeOutputBuffer w)
  /\ ticksOf (trace (snd run)) = ticksOf (trace w) + 60
  /\ trace (snd run) = waited ++ [Generate (fullPrompt userInput persona)]
  /\ fst run
     = Ok (directOutcome (ollama (calls (trace w))
                                 (fullPrompt userInput persona))).
Proof.
  intros run persona waited Ht Ha Hc Hd Hs.
  set (w0 := setPersonality persona w).
  assert (Hd1 : forallb isData (hd [] (arrivals w0)) = true).
  { cbn. destruct (arrivals w) as [|a rest]; [reflexivity|].
    cbn in Hd |- *. apply andb_true_iff in Hd. tauto. }
  assert (Hd2 : forallb isData (hd [] (arrivals (await w0))) = true).
  { rewrite await_arrivals. cbn.
    destruct (arrivals w) as [|a [|b rest]]; try reflexivity.
    cbn in Hd |- *. apply andb_true_iff in Hd. destruct Hd as [_ Hd].
    apply andb_true_iff in Hd. tauto. }
  assert (Ha2 : claudeProcess (await (await w0)) = true).
  { rewrite (await_data _ Hd2), (await_data _ Hd1). exact Ha. }
  destruct (await_silent w0 Hc Hs) as [Hb1 Hs1].
  assert (Hc1 : length (claudeOutputBuffer (await w0)) <= capacity)
    by (rewrite Hb1; exact Hc).
  destruct (await_silent (await w0) Hc1 Hs1) as [Hb2 Hs2].
  set (w1 := setTrace (trace w0 ++ sendTrace (enhance toLowerCase userInput))
                      (await (await w0))).
  assert (Hb : claudeOutputBuffer w1 = claudeOutputBuffer w)
    by (unfold w1; rewrite buffer_setTrace, Hb2, Hb1; reflexivity).
  assert (Hc2 : length (claudeOutputBuffer w1) <= capacity)
    by (rewrite Hb; exact Hc).
  destruct (@poll_silent ollama userInput maxWait 0 w1 Hc2 Hs2)
    as [Hpoll Hb3].
  set (w2 := setTrace (trace w1 ++ repeat (Sleep 500) maxWait)
                      (awaits maxWait w1)) in *.
  assert (Hassisted : assisted toLowerCase ollama userInput w0 = (Ok None, w2)).
  { unfold assisted. rewrite (bind_ok _ _ _ (get_run _ _)).
    rewrite (bind_ok _ _ _ (sendToClaudeCode_run _ _ Ha2)). fold w1.
    change (claudeOutputBuffer w0) with (claudeOutputBuffer w).
    rewrite <- Hb. rewrite (bind_ok _ _ _ Hpoll).
    apply complete_nothing. unfold w2. rewrite buffer_setTrace, Hb3. lia. }
  assert (Hrun : run = direct ollama userInput w2).
  { unfold run.
    apply (@processRequest_falls_through toLowerCase ollama userInput w w2
             (Ok None)); auto. }
  assert (Htrace : trace w2 = waited).
  { unfold w2, w1. norm. reflexivity. }
  assert (Hp : personalityPrompt w2 = persona).
  { unfold w2, w1. rewrite personality_setTrace, awaits_personality.
    now rewrite personality_setTrace, !await_personality. }
  split.
  { exists w2. split; [exact Hrun|]. split; [exact Htrace|].
    unfold w2. now rewrite buffer_setTrace, Hb3. }
  rewrite Hrun, direct_run. cbn [fst snd]. rewrite trace_setTrace.
  rewrite Htrace, Hp. split; [|split; [reflexivity|]].
  - unfold waited. rewrite !ticksOf_app, ticksOf_ticks.
    unfold maxWait. cbn. lia.
  - unfold waited. rewrite !calls_app, calls_sleeps.
    cbn. now rewrite !Nat.add_0_r.
Qed.

Lemma silent_session_times_out_witness :
  let w := running [u "- an earlier line"]
                   [[]; [Data (u "✻ Thinking…")]; [Data (u "* Musing…")];
                    [Exit]] in
  let ollama := answers (u "Nothing came back.") in
  let run := processRequest asciiLower ollama (u "list it") w in
  let persona := match personalityFile w with
                 | Some content => trim content
                 | None => defaultPersonality
                 end in
  let waited := trace w ++ sendTrace (enhance asciiLower (u "list it"))
                ++ repeat (Sleep 500) maxWait in
  (exists w', run = direct ollama (u "list it") w'
              /\ trace w' = waited
              /\ claudeOutputBuffer w' = claudeOutputBuffer w)
  /\ ticksOf (trace (snd run)) = ticksOf (trace w) + 60
  /\ trace (snd run)
     = waited ++ [Generate (fullPrompt (u "list it") persona)]
  /\ fst run
     = Ok (directOutcome (ollama (calls (trace w))
                                 (fullPrompt (u "list it") persona))).
Proof.
  apply (@silent_session_times_out asciiLower
           (answers (u "Nothing came back.")) (u "list it")
           (running [u "- an earlier line"]
              [[]; [Data (u "✻ Thinking…")]; [Data (u "* Musing…")];
               [Exit]]));
    vm_compute; try reflexivity; lia.
Defined.

(** ** Errors of the secondary model *)

(** C6, against the claim: the session answers, the loop ends on
    stability and key content is extracted, but the secondary model fails
    on the assisted prompt.  The error is not returned: the model is
    called again, on the direct prompt, and that reply is the outcome. *)
Lemma assisted_error_is_swallowed :
  let w := running [] [[]; []; [Data (u "- README.md" ++ [LF]
                                      ++ u "- package.json")]] in
  let run := processRequest asciiLower (failsFirst (u "fine")) (u "list it")
                            w in
  fst run = Ok (Reply (u "fine") (u "gemma"))
  /\ promptsOf (trace (snd run))
     = [simplePrompt (u "list it")
          (u "- README.md" ++ [LF] ++ u "- package.json") defaultPersonality;
        fullPrompt (u "list it") defaultPersonality].
Proof. vm_compute. repeat split. Qed.

(** C6, amended: on the assisted path (the loop has ended without an
    outcome, the log has grown past the cursor and more than 10 code units
    of key content were extracted), a reply of the secondary model that is
    an error or empty is not returned to the caller: the request falls
    through to the direct path, which calls the model once more, on the
    direct prompt, and the outcome is a failure only if that second call
    reports an error.  The assisted prompt itself is sent once. *)
Theorem assisted_error_falls_through
  (toLowerCase : str -> str) (ollama : nat -> str -> GenResult)
  (userInput : str) (w w1 : World) :
  let w0 := setPersonality match personalityFile w with
                           | Some content => trim content
                           | None => defaultPersonality
                           end w in
  let cursor := length (claudeOutputBuffer w) in
  let keyContent :=
    extractKeyContent
      (trim (join [LF] (skipn cursor (claudeOutputBuffer w1)))) in
  let persona := personalityPrompt w1 in
  let assistedPrompt := simplePrompt userInput keyContent persona in
  let directPrompt := fullPrompt userInput persona in
  let first := ollama (calls (trace w1)) assistedPrompt in
  let second := ollama (S (calls (trace w1))) directPrompt in
  let run := processRequest toLowerCase ollama userInput w in
  isTechnical toLowerCase userInput = true ->
  claudeProcess w = true ->
  (sendToClaudeCode (enhance toLowerCase userInput) ;;
   poll ollama maxWait userInput cursor cursor 0) w0 = (Ok None, w1) ->
  cursor < length (claudeOutputBuffer w1) ->
  10 < length keyContent ->
  succeeded first = false ->
  trace (snd run)
  = trace w1 ++ [Generate assistedPrompt; Generate directPrompt]
  /\ fst run = Ok (directOutcome second).
Proof.
  intros w0 cursor keyContent persona assistedPrompt directPrompt first
         second run Ht Ha Hloop Hgrown Hkey Hfail.
  set (w2 := setTrace (trace w1 ++ [Generate assistedPrompt]) (await w1)).
  assert (Hassisted : assisted toLowerCase ollama userInput w0 = (Ok None, w2)).
  { unfold assisted. rewrite (bind_ok _ _ _ (get_run _ _)).
    rewrite <- bind_assoc.
    change (length (claudeOutputBuffer w0)) with cursor.
    rewrite (bind_ok _ _ _ Hloop).
    unfold complete. rewrite (bind_ok _ _ _ (get_run _ _)).
    apply Nat.ltb_lt in Hgrown, Hkey. rewrite Hgrown.
    fold keyContent. rewrite Hkey.
    rewrite (bind_ok _ _ _ (get_run _ _)).
    rewrite (bind_ok _ _ _ (generate_run _ _ _)).
    fold persona assistedPrompt first. now rewrite Hfail. }
  unfold run.
  rewrite (@processRequest_falls_through toLowerCase ollama userInput w w2
             (Ok None) Ht Ha Hassisted (or_introl eq_refl)).
  rewrite direct_run. cbn [fst snd]. unfold w2. norm.
  rewrite calls_app. cbn [calls filter isGenerate length].
  rewrite Nat.add_1_r. fold persona directPrompt second.
  split; reflexivity.
Qed.

Lemma assisted_error_falls_through_witness :
  let toLowerCase := asciiLower in
  let ollama := failsFirst (u "fine") in
  let userInput := u "list it" in
  let w := running [] [[]; []; [Data (u "- README.md" ++ [LF]
                                      ++ u "- package.json")]] in
  let w0 := setPersonality match personalityFile w with
                           | Some content => trim content
                           | None => defaultPersonality
                           end w in
  let cursor := length (claudeOutputBuffer w) in
  let w1 := snd ((sendToClaudeCode (enhance toLowerCase userInput) ;;
                  poll ollama maxWait userInput cursor cursor 0) w0) in
  let keyContent :=
    extractKeyContent
      (trim (join [LF] (skipn cursor (claudeOutputBuffer w1)))) in
  let persona := personalityPrompt w1 in
  let assistedPrompt := simplePrompt userInput keyContent persona in
  let directPrompt := fullPrompt userInput persona in
  let second := ollama (S (calls (trace w1))) directPrompt in
  let run := processRequest toLowerCase ollama userInput w in
  trace (snd run)
  = trace w1 ++ [Generate assistedPrompt; Generate directPrompt]
  /\ fst run = Ok (directOutcome second).
Proof.
  intros toLowerCase ollama userInput w w0 cursor w1.
  apply (@assisted_error_falls_through toLowerCase ollama userInput w w1);
    vm_compute; try reflexivity; lia.
Defined.

(** ** The stream classifier *)

Module ClassifierFacts.
Import StrFacts.

Lemma takeWhile_dropWhile p s : takeWhile p s ++ dropWhile p s = s.
Proof.
  induction s as [|c s IH]; simpl; [reflexivity|].
  destruct (p c); simpl; [now rewrite IH | reflexivity].
Qed.

Lemma takeWhile_all p s : Forall (fun c => p c = true) (takeWhile p s).
Proof.
  induction s as [|c s IH]; simpl; [constructor|].
  destruct (p c) eqn:E; constructor; assumption.
Qed.

Lemma eqb_eq a : forall b, eqb a b = true -> a = b.
Proof.
  induction a as [|x a IH]; intros [|y b] H; simpl in H;
    try discriminate; [reflexivity|].
  apply andb_true_iff in H. destruct H as [Hx Hab].
  apply N.eqb_eq in Hx. subst. f_equal. now apply IH.
Qed.

Lemma trimStart_blank s : forallb isSpace s = true -> trimStart s = [].
Proof.
  induction s as [|c s IH]; intros H; [reflexivity|].
  cbn [forallb] in H. apply andb_true_iff in H. destruct H as [Hc Hs].
  cbn [trimStart]. rewrite Hc. now apply IH.
Qed.

Lemma trim_blank s : isBlank s = true -> trim s = [].
Proof. intros H. unfold trim. now rewrite trimStart_blank. Qed.

Lemma filter_all {A} (f : A -> bool) s :
  Forall (fun c => f c = true) s -> filter f s = s.
Proof.
  induction 1 as [|c s Hc Hs IH]; simpl; [reflexivity|].
  now rewrite Hc, IH.
Qed.

Lemma split_nonempty sep s : split sep s <> [].
Proof.
  destruct s as [|c s]; simpl; [discriminate|].
  destruct (c =? sep)%N; [discriminate|].
  destruct (split sep s); discriminate.
Qed.

Lemma split_filter f sep : f sep = true -> forall s,
  split sep (filter f s) = map (filter f) (split sep s).
Proof.
  intros Hsep. induction s as [|c s IH]; [reflexivity|].
  cbn [filter split]. destruct (c =? sep)%N eqn:E.
  - apply N.eqb_eq in E. subst c. rewrite Hsep. cbn [split map filter].
    rewrite N.eqb_refl. now rewrite IH.
  - destruct (split sep s) as [|l ls] eqn:Es;
      [now apply split_nonempty in Es|].
    cbn [map filter]. destruct (f c).
    + cbn [split]. rewrite E, IH. reflexivity.
    + exact IH.
Qed.

Lemma split_Forall (P : N -> Prop) sep : P sep -> forall s,
  Forall (Forall P) (split sep s) -> Forall P s.
Proof.
  intros Hsep. induction s as [|c s IH]; intros H; [constructor|].
  cbn [split] in H. destruct (c =? sep)%N eqn:E.
  - apply N.eqb_eq in E. subst c. inversion H; subst.
    constructor; [exact Hsep | now apply IH].
  - destruct (split sep s) as [|l ls] eqn:Es;
      [now apply split_nonempty in Es|].
    inversion H as [|? ? Hcl Hls]; subst.
    inversion Hcl; subst. constructor; [assumption|].
    apply IH. now constructor.
Qed.

Lemma skipn_past {A} (l1 l2 : list A) n :
  skipn (length l1 + n) (l1 ++ l2) = skipn n l2.
Proof. induction l1 as [|x l1 IH]; [reflexivity | exact IH]. Qed.

(** Global replacement of single code units is a filter. *)
Lemma search_chr p : forall s i,
  match search (Chr p) i s with
  | None => Forall (fun c => p c = false) s
  | Some (a, b) =>
    exists pre c post,
      s = pre ++ c :: post /\ Forall (fun c => p c = false) pre
      /\ p c = true /\ a = (i + length pre)%nat /\ b = S a
  end.
Proof.
  induction s as [|c s IH]; intros i; [constructor|].
  cbn [search m]. destruct (p c) eqn:E.
  - exists [], c, s. repeat split; [constructor | exact E | cbn; lia].
  - specialize (IH (S i)). destruct (search (Chr p) (S i) s) as [[a b]|].
    + destruct IH as (pre & c' & post & -> & Hpre & Hc' & -> & ->).
      exists (c :: pre), c', post.
      repeat split; [now constructor | exact Hc' | cbn; lia].
    + now constructor.
Qed.

Lemma replaceFrom_chr p : forall fuel s i,
  (length s < fuel)%nat ->
  replaceFrom fuel (Chr p) [] i s = filter (fun c => negb (p c)) s.
Proof.
  induction fuel as [|f IH]; intros s i Hf; [lia|].
  cbn [replaceFrom]. pose proof (search_chr p s i) as Hs.
  destruct (search (Chr p) i s) as [[a b]|].
  - destruct Hs as (pre & c & post & -> & Hpre & Hc & -> & ->).
    rewrite (proj2 (Nat.eqb_neq _ _)) by lia.
    replace (i + length pre - i)%nat with (length pre + 0)%nat by lia.
    replace (S (i + length pre) - i)%nat with (length pre + 1)%nat by lia.
    rewrite firstn_app_2, skipn_past. cbn [firstn skipn app].
    rewrite app_nil_r, filter_app. cbn [filter]. rewrite Hc. cbn [negb].
    rewrite IH by (rewrite length_app in Hf; cbn in Hf; lia).
    f_equal. symmetry. apply filter_all.
    eapply Forall_impl; [|exact Hpre]. cbn. intros x ->. reflexivity.
  - symmetry. apply filter_all.
    eapply Forall_impl; [|exact Hs]. cbn. intros x ->. reflexivity.
Qed.

Lemma replaceAll_chr p s :
  replaceAll (Chr p) [] s = filter (fun c => negb (p c)) s.
Proof. unfold replaceAll. apply replaceFrom_chr. lia. Qed.

Lemma replaceAll_absent p r rep s :
  Forall (fun c => p c = false) s -> replaceAll (Cat (Chr p) r) rep s = s.
Proof.
  intros H. unfold replaceAll. cbn [replaceFrom].
  now rewrite SearchFacts.search_first_absent.
Qed.

Lemma cleanData_filter data :
  Forall (fun c => (ESC =? c)%N = false) data ->
  cleanData data = filter notCR data.
Proof.
  intros H. unfold cleanData.
  change colorCodes
    with (Cat (Chr (N.eqb ESC))
              (seq [lit (u "["); Star (Alt (range 48 57) (one 59));
                    lit (u "m")])).
  change escapeSequences
    with (Cat (Chr (N.eqb ESC))
              (seq [lit (u "["); Star (Alt (range 48 57) (one 59));
                    Alt (range 65 90) (range 97 122)])).
  rewrite (@replaceAll_absent _ _ _ data H).
  rewrite (@replaceAll_absent _ _ _ data H).
  apply replaceAll_chr.
Qed.

Lemma matches_star_chr p rest : forall ws i,
  Forall (fun c => p c = true) ws -> matches (Star (Chr p)) i ws rest.
Proof.
  induction ws as [|c ws IH]; intros i H; [constructor|].
  inversion H; subst.
  change (c :: ws) with ([c] ++ ws).
  constructor; [discriminate | now constructor | now apply IH].
Qed.

End ClassifierFacts.

Module AnimationFacts.
Import StrFacts SearchFacts ClassifierFacts.

Lemma animation_shape line :
  isAnimationLine line = true ->
  exists g ws wd,
    line = g :: ws ++ wd ++ [ELLIPSIS]
    /\ existsb (N.eqb g) glyphs = true
    /\ Forall (fun c => isSpace c = true) ws
    /\ wd <> []
    /\ Forall (fun c => isWord c = true) wd.
Proof.
  destruct line as [|g rest]; [discriminate|]. cbn [isAnimationLine].
  intros H. apply andb_true_iff in H. destruct H as [Hg H].
  cbv zeta in H. apply andb_true_iff in H. destruct H as [Hw He].
  apply eqb_eq in He.
  exists g, (takeWhile isSpace rest),
         (takeWhile isWord (dropWhile isSpace rest)).
  repeat split.
  - rewrite <- He, takeWhile_dropWhile, takeWhile_dropWhile. reflexivity.
  - exact Hg.
  - apply takeWhile_all.
  - intros E. rewrite E in Hw. discriminate.
  - apply takeWhile_all.
Qed.

Lemma glyph_facts g :
  existsb (N.eqb g) glyphs = true ->
  isSpace g = false /\ (ESC =? g)%N = false.
Proof.
  change glyphs with [10043; 10045; 10038; 42; 10018; 183; 9874]%N.
  cbn [existsb]. rewrite !orb_true_iff, !N.eqb_eq.
  intros [->|[->|[->|[->|[->|[->|[->|H]]]]]]];
    try (split; reflexivity); discriminate.
Qed.

Lemma space_not_esc c : isSpace c = true -> (ESC =? c)%N = false.
Proof.
  intros H. destruct (ESC =? c)%N eqn:E; [|reflexivity].
  apply N.eqb_eq in E. subst c. discriminate.
Qed.

Lemma word_not_esc c : isWord c = true -> (ESC =? c)%N = false.
Proof.
  intros H. destruct (ESC =? c)%N eqn:E; [|reflexivity].
  apply N.eqb_eq in E. subst c. discriminate.
Qed.

(** The pattern of [extractMeaningfulContent] accepts the animation lines
    of the specification. *)
Lemma animation_test g ws wd :
  existsb (N.eqb g) glyphs = true ->
  Forall (fun c => isSpace c = true) ws ->
  wd <> [] ->
  Forall (fun c => isWord c = true) wd ->
  test thinkingAnimation (g :: ws ++ wd ++ [ELLIPSIS]) = true.
Proof.
  intros Hg Hws Hne Hwd.
  destruct wd as [|c wd]; [congruence|]. inversion Hwd; subst.
  set (line := g :: ws ++ (c :: wd) ++ [ELLIPSIS]).
  rewrite <- (app_nil_r line). change (line ++ []) with ([] ++ line ++ []).
  apply test_complete.
  change thinkingAnimation
    with (Cat Bol (Cat (oneOf glyphs)
            (Cat (Star space) (Cat (Cat word (Star word)) (one ELLIPSIS))))).
  change line with ([] ++ [g] ++ ws ++ ([c] ++ wd) ++ [ELLIPSIS]).
  apply M_cat; [apply M_bol|].
  apply M_cat; [apply M_chr; exact Hg|].
  apply M_cat; [apply matches_star_chr; exact Hws|].
  apply M_cat; [|apply M_chr; apply N.eqb_refl].
  apply M_cat; [apply M_chr; assumption|].
  apply matches_star_chr; assumption.
Qed.

Lemma animation_trim g ws wd :
  existsb (N.eqb g) glyphs = true ->
  trim (g :: ws ++ wd ++ [ELLIPSIS]) = g :: ws ++ wd ++ [ELLIPSIS].
Proof.
  intros Hg. destruct (glyph_facts _ Hg) as [Hs _].
  unfold trim, trimEnd. cbn [trimStart]. rewrite Hs.
  replace (g :: ws ++ wd ++ [ELLIPSIS]) with ((g :: ws ++ wd) ++ [ELLIPSIS])
    by (cbn; now rewrite <- app_assoc).
  rewrite rev_unit. cbn [trimStart].
  change (isSpace ELLIPSIS) with false. cbn iota.
  rewrite <- rev_unit. apply rev_involutive.
Qed.

(** Every line that is an animation line or blank is skipped. *)
Lemma extract_animation ls :
  Forall (fun l => isAnimationLine l = true \/ isBlank l = true) ls ->
  extractMeaningfulContent (map trim ls) = [].
Proof.
  induction 1 as [|l ls Hl Hls IH]; [reflexivity|].
  cbn [map extractMeaningfulContent]. destruct Hl as [Ha|Hb].
  - destruct (animation_shape _ Ha) as (g & ws & wd & -> & Hg & Hws & Hne & Hwd).
    rewrite !animation_trim by exact Hg.
    cbn [length Nat.eqb]. now rewrite animation_test.
  - rewrite (trim_blank _ Hb). exact IH.
Qed.

Lemma animation_line_no_esc raw :
  isAnimationLine (filter notCR raw) || isBlank (filter notCR raw) = true ->
  Forall (fun c => (ESC =? c)%N = false) raw.
Proof.
  intros H.
  assert (Hf : Forall (fun c => (ESC =? c)%N = false) (filter notCR raw)).
  { apply orb_true_iff in H. destruct H as [Ha|Hb].
    - destruct (animation_shape _ Ha)
        as (g & ws & wd & -> & Hg & Hws & Hne & Hwd).
      constructor; [apply (glyph_facts _ Hg)|].
      apply Forall_app. split.
      + eapply Forall_impl; [|exact Hws]. apply space_not_esc.
      + apply Forall_app. split.
        * eapply Forall_impl; [|exact Hwd]. apply word_not_esc.
        * now constructor.
    - unfold isBlank in Hb. rewrite forallb_forall in Hb.
      apply Forall_forall. intros c Hc. apply space_not_esc. now apply Hb. }
  rewrite Forall_forall in *. intros c Hc.
  destruct (notCR c) eqn:E.
  - apply Hf. apply filter_In. now split.
  - unfold notCR in E. apply negb_false_iff, N.eqb_eq in E. now subst c.
Qed.

Lemma animation_chunk data :
  animationOnly data = true ->
  extractMeaningfulContent (allLines data) = [].
Proof.
  unfold animationOnly. intros H. rewrite forallb_forall in H.
  unfold allLines. rewrite cleanData_filter.
  - rewrite split_filter by reflexivity.
    apply extract_animation. apply Forall_forall.
    intros l Hl. apply in_map_iff in Hl. destruct Hl as (raw & <- & Hraw).
    apply orb_true_iff. now apply H.
  - apply (@split_Forall (fun c => (ESC =? c)%N = false) LF eq_refl).
    apply Forall_forall. intros raw Hraw.
    apply animation_line_no_esc. now apply H.
Qed.

End AnimationFacts.

(** C9: a chunk that is one animation line (a leading glyph, a single
    word, a trailing ellipsis) whose word has a letter outside ASCII is
    not discarded: the stream classifier emits it and it enters the
    output log.  The pattern reads the word with [\w], which stops at
    the accented letter. *)
Lemma accented_animation_line_is_kept :
  let data := u "✻ Flambéing…" in
  test thinkingAnimation (u "✻ Flambéing…") = false
  /\ extractMeaningfulContent (allLines data) = [u "✻ Flambéing…"]
  /\ claudeOutputBuffer (deliver (running [] []) (Data data))
     = [u "✻ Flambéing…"].
Proof. vm_compute. repeat split. Qed.

(** X28: a raw chunk whose lines are all animation lines that the pattern
    of the code catches (one of its seven glyphs, blanks if any, a word
    of ASCII letters, digits and underscores, an ellipsis at the end),
    carriage returns and blank lines aside, makes the stream classifier
    emit no line, and the output log is left as it is. *)
Theorem animation_chunk_emits_nothing (data : str) (w : World) :
  animationOnly data = true ->
  length (claudeOutputBuffer w) <= capacity ->
  extractMeaningfulContent (allLines data) = []
  /\ claudeOutputBuffer (deliver w (Data data)) = claudeOutputBuffer w.
Proof.
  intros Ha Hc. pose proof (AnimationFacts.animation_chunk _ Ha) as He.
  split; [exact He|]. cbn. now apply onData_silent.
Qed.

Lemma animation_chunk_emits_nothing_witness :
  let data := u "✻ Spelunking…" ++ [CR; LF] ++ u "*Thinking…" ++ [LF] in
  let w := running [u "- README.md"] [] in
  extractMeaningfulContent (allLines data) = []
  /\ claudeOutputBuffer (deliver w (Data data)) = claudeOutputBuffer w.
Proof.
  apply (@animation_chunk_emits_nothing
           (u "✻ Spelunking…" ++ [CR; LF] ++ u "*Thinking…" ++ [LF])
           (running [u "- README.md"] []));
    vm_compute; [reflexivity | lia].
Defined.

(** * Further properties of the code *)

(** ** What the output log holds *)

Module TrimFacts.

Lemma trimStart_Forall (P : N -> Prop) s :
  Forall P s -> Forall P (trimStart s).
Proof.
  induction 1 as [|c s Hc Hs IH]; cbn [trimStart]; [constructor|].
  destruct (isSpace c); [exact IH | now constructor].
Qed.

Lemma trimEnd_Forall (P : N -> Prop) s : Forall P s -> Forall P (trimEnd s).
Proof.
  intros H. unfold trimEnd. apply Forall_rev, trimStart_Forall.
  now apply Forall_rev.
Qed.

Lemma trim_Forall (P : N -> Prop) s : Forall P s -> Forall P (trim s).
Proof. intros H. unfold trim. now apply trimEnd_Forall, trimStart_Forall. Qed.

Lemma trimStart_head s :
  trimStart s = [] \/ isSpace (hd 0%N (trimStart s)) = false.
Proof.
  induction s as [|c s IH]; cbn [trimStart]; [now left|].
  destruct (isSpace c) eqn:E; [exact IH | right; exact E].
Qed.

Lemma trimStart_suffix s : exists d, s = d ++ trimStart s.
Proof.
  induction s as [|c s [d IH]]; cbn [trimStart]; [now exists []|].
  destruct (isSpace c).
  - exists (c :: d). cbn. now rewrite <- IH.
  - now exists [].
Qed.

Lemma trimEnd_prefix s : exists d, s = trimEnd s ++ d.
Proof.
  unfold trimEnd. destruct (trimStart_suffix (rev s)) as [d Hd].
  exists (rev d). rewrite <- rev_app_distr, <- Hd. now rewrite rev_involutive.
Qed.

Lemma hd_rev (s : str) : hd 0%N (rev s) = last s 0%N.
Proof.
  induction s as [|c s IH] using rev_ind; [reflexivity|].
  rewrite rev_unit, last_last. reflexivity.
Qed.

Lemma last_rev (s : str) : last (rev s) 0%N = hd 0%N s.
Proof. rewrite <- hd_rev. now rewrite rev_involutive. Qed.

Lemma trimEnd_last s :
  trimEnd s = [] \/ isSpace (last (trimEnd s) 0%N) = false.
Proof.
  unfold trimEnd. destruct (trimStart_head (rev s)) as [E|E].
  - left. now rewrite E.
  - right. now rewrite last_rev.
Qed.

Lemma trimStart_id s : isSpace (hd 0%N s) = false -> trimStart s = s.
Proof. destruct s as [|c s]; [reflexivity|]. cbn. now intros ->. Qed.

Lemma trimEnd_id s : isSpace (last s 0%N) = false -> trimEnd s = s.
Proof.
  intros H. unfold trimEnd. rewrite trimStart_id by now rewrite hd_rev.
  apply rev_involutive.
Qed.

(** What [trim] returns is empty or has no blank at either end. *)
Lemma trim_ends s :
  trim s = []
  \/ (isSpace (hd 0%N (trim s)) = false
      /\ isSpace (last (trim s) 0%N) = false).
Proof.
  unfold trim. destruct (trimEnd_last (trimStart s)) as [E|E]; [now left|].
  destruct (trimEnd_prefix (trimStart s)) as [d Hd].
  destruct (trimEnd (trimStart s)) as [|c t] eqn:Et; [now left|].
  right. split; [|exact E].
  destruct (trimStart_head s) as [E0|E0].
  - rewrite E0 in Hd. discriminate.
  - rewrite Hd in E0. exact E0.
Qed.

Lemma trim_id s :
  isSpace (hd 0%N s) = false -> isSpace (last s 0%N) = false -> trim s = s.
Proof.
  intros Hh Hl. unfold trim. rewrite trimStart_id by exact Hh.
  now apply trimEnd_id.
Qed.

End TrimFacts.

Module StoredFacts.
Import TrimFacts ClassifierFacts.

Lemma Forall_firstn {A} (P : A -> Prop) n (l : list A) :
  Forall P l -> Forall P (firstn n l).
Proof.
  intros H. rewrite <- (firstn_skipn n l) in H.
  now apply Forall_app in H.
Qed.

Lemma Forall_skipn {A} (P : A -> Prop) n (l : list A) :
  Forall P l -> Forall P (skipn n l).
Proof.
  intros H. rewrite <- (firstn_skipn n l) in H.
  now apply Forall_app in H.
Qed.

(** Replacing by the empty string only deletes. *)
Lemma replace_Forall (P : N -> Prop) r s :
  Forall P s -> Forall P (replace r [] s).
Proof.
  intros H. unfold replace. destruct (search r 0 s) as [[a b]|]; [|exact H].
  apply Forall_app. split; [now apply Forall_firstn | now apply Forall_skipn].
Qed.

Lemma split_notLF s :
  Forall (fun l => forallb notLF l = true) (split LF s).
Proof.
  induction s as [|c s IH]; cbn [split]; [repeat constructor|].
  destruct (c =? LF)%N eqn:E; [constructor; [reflexivity | exact IH]|].
  destruct (split LF s) as [|l ls]; [repeat constructor; cbn|].
  - unfold notLF. now rewrite E.
  - inversion IH; subst. constructor; [|assumption].
    cbn. unfold notLF at 1. now rewrite E.
Qed.

Lemma forallb_Forall {A} (f : A -> bool) l :
  forallb f l = true <-> Forall (fun x => f x = true) l.
Proof.
  rewrite forallb_forall, Forall_forall. reflexivity.
Qed.

Lemma stored_intro l :
  (2 < length l)%nat ->
  Forall (fun c => notLF c = true) l ->
  trim l = l ->
  isStoredLine l = true.
Proof.
  intros Hlen Hlf Ht. unfold isStoredLine.
  apply Nat.ltb_lt in Hlen. rewrite Hlen.
  rewrite (proj2 (forallb_Forall notLF l) Hlf). cbn [andb].
  destruct (trim_ends l) as [E|[Hh Hl]].
  - rewrite Ht in E. subst l. cbn in Hlen. discriminate.
  - rewrite Ht in Hh, Hl. now rewrite Hh, Hl.
Qed.

Lemma trim_trim s : trim (trim s) = trim s.
Proof.
  destruct (trim_ends s) as [E|[Hh Hl]]; [now rewrite E | now apply trim_id].
Qed.

Lemma extract_stored lines :
  Forall (fun l => forallb notLF l = true) lines ->
  Forall (fun l => isStoredLine l = true) (extractMeaningfulContent lines).
Proof.
  induction 1 as [|line lines Hl Hls IH]; cbn [extractMeaningfulContent];
    [constructor|].
  destruct (length (trim line) =? 0)%nat; [exact IH|].
  destruct (test thinkingAnimation line); [exact IH|].
  destruct (test uiNoise line); [exact IH|].
  destruct (2 <? length (cleanLineOf line))%nat eqn:E; [|exact IH].
  constructor; [|exact IH]. apply stored_intro.
  - now apply Nat.ltb_lt.
  - unfold cleanLineOf. apply trim_Forall.
    repeat apply replace_Forall. now apply forallb_Forall.
  - unfold cleanLineOf. apply trim_trim.
Qed.

Lemma allLines_notLF data :
  Forall (fun l => forallb notLF l = true) (allLines data).
Proof.
  unfold allLines. apply Forall_map.
  eapply Forall_impl; [|apply split_notLF].
  intros l Hl. apply forallb_Forall, trim_Forall. now apply forallb_Forall.
Qed.

Lemma onData_stored buffer data :
  Forall (fun l => isStoredLine l = true) buffer ->
  Forall (fun l => isStoredLine l = true) (onData buffer data).
Proof.
  intros H. rewrite onData_eq. cbv zeta.
  assert (Hp : Forall (fun l => isStoredLine l = true)
                 (buffer ++ extractMeaningfulContent (allLines data))).
  { apply Forall_app. split; [exact H|].
    apply extract_stored, allLines_notLF. }
  destruct (capacity <? _); [|exact Hp].
  unfold sliceLast. now apply Forall_skipn.
Qed.

End StoredFacts.

(** X1: whatever arrives, a log that is within its capacity of 5000
    entries stays within it; the log of a new wrapper is empty, so the log
    never holds more than 5000 entries. *)
Theorem log_stays_within_capacity (w : World) (es : list Event) :
  length (claudeOutputBuffer w) <= capacity ->
  length (claudeOutputBuffer (fold_left deliver es w)) <= capacity.
Proof.
  revert w. induction es as [|e es IH]; intros w H; cbn [fold_left];
    [exact H|].
  apply IH. destruct e as [chunk|]; cbn; [apply onData_bounded | exact H].
Qed.

Lemma log_stays_within_capacity_witness :
  length (claudeOutputBuffer
            (fold_left deliver
               [Data (u "- README.md"); Exit; Data (u "- package.json")]
               (running [] []))) <= capacity.
Proof.
  apply (@log_stays_within_capacity (running [] [])
           [Data (u "- README.md"); Exit; Data (u "- package.json")]).
  vm_compute. lia.
Defined.

(** X2: every entry that the handlers put into the output log has more
    than two code units, holds no line feed and neither starts nor ends
    with a blank; entries already there are left as they are. *)
Theorem log_entries_are_stored_lines (w : World) (es : list Event) :
  forallb isStoredLine (claudeOutputBuffer w) = true ->
  forallb isStoredLine (claudeOutputBuffer (fold_left deliver es w)) = true.
Proof.
  revert w. induction es as [|e es IH]; intros w H; cbn [fold_left];
    [exact H|].
  apply IH. destruct e as [chunk|]; cbn; [|exact H].
  apply StoredFacts.forallb_Forall, StoredFacts.onData_stored.
  now apply StoredFacts.forallb_Forall.
Qed.

Lemma log_entries_are_stored_lines_witness :
  forallb isStoredLine
    (claudeOutputBuffer
       (fold_left deliver
          [Data (u "  │ README.md │  " ++ [CR; LF] ++ u "ok" ++ [LF])]
          (running [u "- package.json"] []))) = true.
Proof.
  apply (@log_entries_are_stored_lines (running [u "- package.json"] [])
           [Data (u "  │ README.md │  " ++ [CR; LF] ++ u "ok" ++ [LF])]).
  vm_compute. reflexivity.
Defined.

(** ** From the log to the key content *)

Module JoinFacts.
Import TrimFacts StoredFacts ClassifierFacts.

Lemma split_single l : forallb notLF l = true -> split LF l = [l].
Proof.
  induction l as [|c l IH]; intros H; [reflexivity|].
  cbn [forallb] in H. apply andb_true_iff in H. destruct H as [Hc Hl].
  cbn [split]. unfold notLF in Hc. apply negb_true_iff in Hc.
  rewrite Hc, (IH Hl). reflexivity.
Qed.

Lemma split_app_LF l rest :
  forallb notLF l = true -> split LF (l ++ LF :: rest) = l :: split LF rest.
Proof.
  induction l as [|c l IH]; intros H.
  - cbn [app split]. now rewrite N.eqb_refl.
  - cbn [forallb] in H. apply andb_true_iff in H. destruct H as [Hc Hl].
    cbn [app split]. unfold notLF in Hc. apply negb_true_iff in Hc.
    rewrite Hc, (IH Hl). reflexivity.
Qed.

(** Joining lines without line feeds and splitting again gives the lines
    back. *)
Lemma split_join ls :
  ls <> [] -> forallb (forallb notLF) ls = true ->
  split LF (join [LF] ls) = ls.
Proof.
  induction ls as [|l ls IH]; intros Hne H; [congruence|].
  cbn [forallb] in H. apply andb_true_iff in H. destruct H as [Hl Hls].
  destruct ls as [|l' ls'].
  - cbn [join]. now apply split_single.
  - change (join [LF] (l :: l' :: ls')) with (l ++ LF :: join [LF] (l' :: ls')).
    rewrite split_app_LF by exact Hl. f_equal. apply IH; [discriminate|].
    exact Hls.
Qed.

Lemma stored_parts l :
  isStoredLine l = true ->
  l <> [] /\ forallb notLF l = true
  /\ isSpace (hd 0%N l) = false /\ isSpace (last l 0%N) = false.
Proof.
  unfold isStoredLine. rewrite !andb_true_iff, !negb_true_iff.
  intros [[[Hlen Hlf] Hh] Hl]. repeat split; try assumption.
  intros ->. discriminate.
Qed.

Lemma stored_trim l : isStoredLine l = true -> trim l = l.
Proof.
  intros H. destruct (stored_parts _ H) as (_ & _ & Hh & Hl).
  now apply trim_id.
Qed.

Lemma hd_app_nonnil (a b : str) : a <> [] -> hd 0%N (a ++ b) = hd 0%N a.
Proof. destruct a; [congruence | reflexivity]. Qed.

Lemma last_app_nonnil (a b : str) : b <> [] -> last (a ++ b) 0%N = last b 0%N.
Proof.
  intros Hb. destruct b as [|c b] using rev_ind; [congruence|].
  now rewrite app_assoc, !last_last.
Qed.

Lemma join_nonnil l ls : l <> [] -> join [LF] (l :: ls) <> [].
Proof.
  intros Hl. destruct ls; cbn [join]; [exact Hl|].
  destruct l; [congruence | discriminate].
Qed.

Lemma join_ends ls :
  ls <> [] ->
  Forall (fun l => isStoredLine l = true) ls ->
  isSpace (hd 0%N (join [LF] ls)) = false
  /\ isSpace (last (join [LF] ls) 0%N) = false.
Proof.
  induction ls as [|l ls IH]; intros Hne H; [congruence|].
  inversion H as [|? ? Hl Hls]; subst.
  destruct (stored_parts _ Hl) as (Hn & _ & Hh & Hla).
  destruct ls as [|l' ls']; [now split|].
  change (join [LF] (l :: l' :: ls')) with (l ++ LF :: join [LF] (l' :: ls')).
  split.
  - now rewrite hd_app_nonnil.
  - rewrite last_app_nonnil by discriminate.
    change (LF :: join [LF] (l' :: ls')) with ([LF] ++ join [LF] (l' :: ls')).
    inversion Hls; subst.
    rewrite last_app_nonnil.
    + apply IH; [discriminate | assumption].
    + apply join_nonnil. now apply stored_parts.
Qed.

Lemma map_trim_stored ls :
  Forall (fun l => isStoredLine l = true) ls -> map trim ls = ls.
Proof.
  induction 1 as [|l ls Hl Hls IH]; [reflexivity|].
  cbn [map]. now rewrite IH, stored_trim.
Qed.

End JoinFacts.

(** X3: for lines as the log stores them, the text that the code after
    the loop builds from the slice of the log splits back into exactly
    those lines, so the key content is the lines of the slice that qualify
    as key lines, in order, joined by line feeds (whenever one
    qualifies). *)
Theorem key_content_of_stored_lines (ls : list str) :
  forallb isStoredLine ls = true ->
  filter isKeyLine ls <> [] ->
  split LF (trim (join [LF] ls)) = ls
  /\ extractKeyContent (trim (join [LF] ls)) = join [LF] (filter isKeyLine ls).
Proof.
  intros Hs Hk. apply StoredFacts.forallb_Forall in Hs.
  assert (Hne : ls <> []) by (intros ->; now apply Hk).
  destruct (JoinFacts.join_ends Hne Hs) as [Hh Hl].
  assert (Hsplit : split LF (trim (join [LF] ls)) = ls).
  { rewrite TrimFacts.trim_id by assumption.
    apply JoinFacts.split_join; [exact Hne|].
    apply StoredFacts.forallb_Forall.
    eapply Forall_impl; [|exact Hs].
    intros l H. now apply JoinFacts.stored_parts. }
  split; [exact Hsplit|].
  unfold extractKeyContent. cbv zeta.
  rewrite Hsplit, (JoinFacts.map_trim_stored Hs).
  destruct (filter isKeyLine ls); [congruence | reflexivity].
Qed.

Lemma key_content_of_stored_lines_witness :
  let ls := [u "Here are the files:"; u "- README.md"; u "● Done (2 files)"]
  in
  split LF (trim (join [LF] ls)) = ls
  /\ extractKeyContent (trim (join [LF] ls)) = join [LF] (filter isKeyLine ls).
Proof.
  apply (@key_content_of_stored_lines
           [u "Here are the files:"; u "- README.md"; u "● Done (2 files)"]);
    vm_compute; [reflexivity | discriminate].
Defined.

(** ** Evidence anywhere in the window *)

Module WindowFacts.
Import StrFacts.

Lemma matches_anchorFree r i w rest :
  matches r i w rest -> anchorFree r = true ->
  forall i' rest', matches r i' w rest'.
Proof.
  induction 1; cbn [anchorFree]; intros Ha i' rest';
    try discriminate; try (apply andb_true_iff in Ha; destruct Ha);
    try (now constructor; auto).
Qed.

(** A match of a pattern without anchors survives any text around it. *)
Lemma test_superstring r s pre post :
  anchorFree r = true -> test r s = true -> test r (pre ++ s ++ post) = true.
Proof.
  intros Ha H. apply test_spec in H. destruct H as (p & w & q & -> & Hm).
  replace (pre ++ (p ++ w ++ q) ++ post)
    with ((pre ++ p) ++ w ++ (q ++ post))
    by (now rewrite <- !app_assoc).
  apply test_complete. now apply (matches_anchorFree Hm).
Qed.

Lemma existsb_superstring rs s pre post :
  forallb anchorFree rs = true ->
  existsb (fun pattern => test pattern s) rs = true ->
  existsb (fun pattern => test pattern (pre ++ s ++ post)) rs = true.
Proof.
  intros Ha H. apply existsb_exists in H. destruct H as (r & Hin & Hr).
  apply existsb_exists. exists r. split; [exact Hin|].
  rewrite forallb_forall in Ha. apply test_superstring; auto.
Qed.

Lemma prompt_superstring s pre post :
  hasPermissionPrompt s = true ->
  hasPermissionPrompt (pre ++ s ++ post) = true.
Proof. apply existsb_superstring. vm_compute. reflexivity. Qed.

Lemma safe_superstring s pre post :
  isSafeCommand s = true -> isSafeCommand (pre ++ s ++ post) = true.
Proof. apply existsb_superstring. vm_compute. reflexivity. Qed.

Lemma In_join sep l ls :
  In l ls -> exists pre post, join sep ls = pre ++ l ++ post.
Proof.
  induction ls as [|x ls IH]; intros H; [contradiction|].
  destruct ls as [|y ls'].
  - destruct H as [->|[]]. exists [], []. cbn. now rewrite app_nil_r.
  - change (join sep (x :: y :: ls')) with (x ++ sep ++ join sep (y :: ls')).
    destruct H as [->|H].
    + now exists [], (sep ++ join sep (y :: ls')).
    + destruct (IH H) as (pre & post & ->).
      exists (x ++ sep ++ pre), post. now rewrite <- !app_assoc.
Qed.

End WindowFacts.

(** X4: text around a window never takes a Safe classification away:
    none of the prompt patterns and allow-list patterns is anchored, so a
    window that contains a Safe window is Safe. *)
Theorem safe_window_stays_safe (window pre post : str) :
  classify window = Safe -> classify (pre ++ window ++ post) = Safe.
Proof.
  unfold classify. intros H.
  destruct (hasPermissionPrompt window) eqn:Hp; [|discriminate].
  destruct (isSafeCommand window) eqn:Hs; [|discriminate].
  now rewrite WindowFacts.prompt_superstring, WindowFacts.safe_superstring.
Qed.

Lemma safe_window_stays_safe_witness :
  classify (u "please delete everything" ++ u "ls [Y/n]"
            ++ u " and overwrite the disk") = Safe.
Proof.
  apply (@safe_window_stays_safe (u "ls [Y/n]") (u "please delete everything")
           (u " and overwrite the disk")).
  vm_compute. reflexivity.
Defined.

(** X5: the prompt and the allow-list match need not come from the same
    line: if one of the last ten lines of the log matches a prompt pattern
    and one of them, the same or another, matches an allow-list pattern,
    the window is classified Safe. *)
Theorem evidence_from_any_line (buffer : list str) (l1 l2 : str) :
  In l1 (sliceLast 10 buffer) ->
  In l2 (sliceLast 10 buffer) ->
  hasPermissionPrompt l1 = true ->
  isSafeCommand l2 = true ->
  classify (latestOutputOf buffer) = Safe.
Proof.
  intros H1 H2 Hp Hs. unfold classify, latestOutputOf.
  destruct (WindowFacts.In_join [LF] _ _ H1) as (pre1 & post1 & E1).
  destruct (WindowFacts.In_join [LF] _ _ H2) as (pre2 & post2 & E2).
  rewrite E1 at 1. rewrite (WindowFacts.prompt_superstring _ _ _ Hp).
  rewrite E2. now rewrite (WindowFacts.safe_superstring _ _ _ Hs).
Qed.

Lemma evidence_from_any_line_witness :
  classify (latestOutputOf [u "I will also remove the build folder";
                            u "rm -rf build";
                            u "Do you want to proceed?"]) = Safe.
Proof.
  apply (@evidence_from_any_line
           [u "I will also remove the build folder"; u "rm -rf build";
            u "Do you want to proceed?"]
           (u "Do you want to proceed?")
           (u "I will also remove the build folder"));
    vm_compute; auto.
Defined.

(** ** What a request costs and what it may do *)

Module BudgetFacts.

Lemma slept_app t1 t2 : (slept (t1 ++ t2) = slept t1 + slept t2)%N.
Proof.
  induction t1 as [|e t1 IH]; [reflexivity|].
  cbn [app slept fold_right]. fold (slept (t1 ++ t2)). fold (slept t1).
  rewrite IH. destruct e; lia.
Qed.

Lemma fits_nil W : fits 0 0 0 W [].
Proof. repeat split; cbn; try lia. constructor. Qed.

Lemma fits_empty c k m W : fits c k m W [].
Proof. repeat split; cbn; try lia. constructor. Qed.

Lemma fits_app c1 k1 m1 c2 k2 m2 W t1 t2 :
  fits c1 k1 m1 W t1 -> fits c2 k2 m2 W t2 ->
  fits (c1 + c2) (k1 + k2) (m1 + m2) W (t1 ++ t2).
Proof.
  intros (Ha & Hb & Hc & Hd) (Ha' & Hb' & Hc' & Hd').
  unfold fits. rewrite calls_app, ticksOf_app, slept_app, writesOf_app.
  repeat split; try lia. now apply Forall_app.
Qed.

Lemma fits_weaken c k m c' k' m' (W W' : str -> Prop) t :
  fits c k m W t -> c <= c' -> k <= k' -> (m <= m')%N ->
  (forall b, W b -> W' b) -> fits c' k' m' W' t.
Proof.
  intros (Ha & Hb & Hc & Hd) H1 H2 H3 HW. repeat split; try lia.
  eapply Forall_impl; [exact HW | exact Hd].
Qed.

Lemma adds_weaken {A} (c : M A) (Q Q' : Res A -> list Effect -> Prop) :
  adds c Q -> (forall r t, Q r t -> Q' r t) -> adds c Q'.
Proof.
  intros H HQ w. destruct (H w) as (t & E & q). exists t. auto.
Qed.

Lemma adds_bind {A B} (c : M A) (f : A -> M B) Q1 Q2 :
  adds c Q1 -> (forall a, adds (f a) (Q2 a)) ->
  adds (bind c f)
       (fun r t => exists t1 t2, t = t1 ++ t2
          /\ ((exists a, Q1 (Ok a) t1 /\ Q2 a r t2)
              \/ (Q1 Throw t1 /\ r = Throw /\ t2 = []))).
Proof.
  intros H1 H2 w. destruct (H1 w) as (t1 & E1 & q1). unfold bind.
  destruct (c w) as [[a|] w1]; cbn [fst snd] in *.
  - destruct (H2 a w1) as (t2 & E2 & q2). exists (t1 ++ t2).
    rewrite E2, E1, app_assoc. split; [reflexivity|].
    exists t1, t2. split; [reflexivity|]. left. now exists a.
  - exists t1. rewrite E1. split; [reflexivity|].
    exists t1, []. rewrite app_nil_r. split; [reflexivity|]. now right.
Qed.

Lemma adds_ret {A} (a : A) : adds (ret a) (fun r t => r = Ok a /\ t = []).
Proof. intros w. exists []. cbn. now rewrite app_nil_r. Qed.

Lemma adds_get {A} (f : World -> A) :
  adds (get f) (fun r t => (exists a, r = Ok a) /\ t = []).
Proof. intros w. exists []. cbn. rewrite app_nil_r. eauto. Qed.

Lemma adds_sleep ms : adds (sleep ms) (fun r t => r = Ok tt /\ t = [Sleep ms]).
Proof.
  intros w. exists [Sleep ms]. rewrite sleep_run. cbn [fst snd].
  now rewrite trace_setTrace.
Qed.

Lemma adds_ptyWrite bytes :
  adds (ptyWrite bytes)
       (fun r t => (r = Ok tt /\ t = [Write bytes]) \/ (r = Throw /\ t = [])).
Proof.
  intros w. destruct (claudeProcess w) eqn:E.
  - exists [Write bytes]. rewrite ptyWrite_alive by exact E. cbn. auto.
  - exists []. rewrite ptyWrite_dead by exact E. cbn.
    rewrite app_nil_r. auto.
Qed.

Lemma adds_generate ollama prompt :
  adds (generate ollama prompt)
       (fun r t => (exists result, r = Ok result) /\ t = [Generate prompt]).
Proof.
  intros w. exists [Generate prompt]. rewrite generate_run. cbn [fst snd].
  rewrite trace_setTrace. eauto.
Qed.

(** The writes of [sendToClaudeCode] stop where the handle is found null. *)
Lemma adds_sendToClaudeCode input :
  adds (sendToClaudeCode input)
       (fun r t =>
          (r = Ok tt /\ t = sendTrace input)
          \/ (r = Throw
              /\ (t = [] \/ t = [Write [3%N]; Sleep 100]
                  \/ t = [Write [3%N]; Sleep 100; Write input; Sleep 100]))).
Proof.
  intros w. unfold sendToClaudeCode.
  rewrite (bind_ok _ _ _ (get_run _ _)).
  destruct (claudeProcess w) eqn:E0.
  2:{ exists []. cbn. rewrite app_nil_r. auto. }
  rewrite (bind_ok _ _ _ (@ptyWrite_alive _ w E0)).
  rewrite (bind_ok _ _ _ (sleep_run _ _)). norm.
  destruct (claudeProcess (await w)) eqn:E1.
  2:{ rewrite (bind_throw _ _ _ (@ptyWrite_dead _ (setTrace _ (await w)) E1)).
      exists [Write [3%N]; Sleep 100]. cbn [fst snd]. norm. auto 10. }
  rewrite (bind_ok _ _ _ (@ptyWrite_alive _ (setTrace _ (await w)) E1)).
  rewrite (bind_ok _ _ _ (sleep_run _ _)). norm.
  destruct (claudeProcess (await (await w))) eqn:E2.
  - rewrite ptyWrite_alive by exact E2. norm.
    exists (sendTrace input). cbn [fst snd]. norm. auto 10.
  - rewrite ptyWrite_dead by exact E2.
    exists [Write [3%N]; Sleep 100; Write input; Sleep 100].
    cbn [fst snd]. norm. auto 10.
Qed.

Lemma sendTrace_fits input (W : str -> Prop) t :
  W [3%N] -> W input -> W [CR] ->
  t = sendTrace input \/ t = [] \/ t = [Write [3%N]; Sleep 100]
  \/ t = [Write [3%N]; Sleep 100; Write input; Sleep 100] ->
  fits 0 0 200 W t.
Proof.
  intros H3 Hi Hc [ -> | [ -> | [ -> | -> ] ] ]; repeat split; cbn; try lia;
    repeat constructor; assumption.
Qed.

End BudgetFacts.

Module RequestFacts.
Import BudgetFacts.

Section WithModel.
Variable ollama : nat -> str -> GenResult.
Variable request : str.

Lemma W_ctrl_c : (mayWrite request) [3%N].
Proof. unfold mayWrite. cbn. auto. Qed.

Lemma W_return : (mayWrite request) [CR].
Proof. unfold mayWrite. cbn. auto. Qed.

Lemma W_request : (mayWrite request) request.
Proof. unfold mayWrite. cbn. auto. Qed.

Lemma W_answers : (mayWrite request) (u "1") /\ (mayWrite request) (u "Y") /\ (mayWrite request) (u "y").
Proof. unfold mayWrite. cbn. auto 10. Qed.

Lemma send_then_sleep token w :
  (mayWrite request) token ->
  exists t,
    trace (snd ((sendToClaudeCode token ;; sleep 1000) w)) = trace w ++ t
    /\ fits 0 0 1200 (mayWrite request) t.
Proof.
  intros Ht.
  destruct (@adds_bind _ _ _ _ _ _ (adds_sendToClaudeCode token)
              (fun _ => adds_sleep 1000) w) as (t & E & q).
  exists t. split; [exact E|].
  destruct q as (t1 & t2 & -> & [(a & q1 & _ & ->) | (q1 & _ & ->)]).
  - destruct q1 as [[_ ->] | [Hx _]]; [|discriminate].
    repeat split; cbn; try lia.
    constructor; [apply W_ctrl_c|].
    constructor; [exact Ht|].
    constructor; [apply W_return | constructor].
  - rewrite app_nil_r. destruct q1 as [[Hx _] | [_ Hp]]; [discriminate|].
    eapply fits_weaken;
      [apply (@sendTrace_fits token (mayWrite request) t1 W_ctrl_c Ht W_return); tauto
      | lia | lia | lia | auto].
Qed.

Lemma adds_autoApprovePrompt output :
  adds (autoApprovePrompt output) (fun _ t => fits 0 0 1200 (mayWrite request) t).
Proof.
  intros w. unfold autoApprovePrompt. destruct W_answers as (H1 & HY & Hy).
  destruct (includes output (u "❯ 1. Yes")); [now apply send_then_sleep|].
  destruct (includes output (u "[Y/n]")); [now apply send_then_sleep|].
  destruct (includes output (u "Do you want to proceed?"));
    [now apply send_then_sleep|].
  exists [Sleep 1000]. unfold bind, ret. rewrite sleep_run.
  cbn [fst snd]. rewrite trace_setTrace. split; [reflexivity|].
  repeat split; cbn; try lia. constructor.
Qed.

Lemma adds_inspect userInput init last stable :
  adds (inspect ollama userInput init last stable) (inspectQ request).
Proof.
  intros w. unfold inspect. rewrite (bind_ok _ _ _ (get_run _ _)).
  assert (Hnil : forall s, (forall o, Ok s <> Ok (Return o)) ->
            exists t, trace w = trace w ++ t /\ inspectQ request (Ok s) t).
  { intros s Hs. exists []. rewrite app_nil_r. split; [reflexivity|].
    left. split; [reflexivity|]. split; [|exact Hs].
    apply fits_empty. }
  destruct (last <? length (claudeOutputBuffer w)).
  - destruct (hasPermissionPrompt _).
    + destruct (isSafeCommand _).
      * destruct (adds_autoApprovePrompt
                    (latestOutputOf (claudeOutputBuffer w)) w)
          as (t & E & q).
        exists t. unfold bind.
        destruct (autoApprovePrompt _ w) as [[[]|] w1]; cbn [fst snd] in *;
          (split; [exact E|]); left;
          (split; [destruct q as (Hc & _); lia|]);
          (split; [exact q | intros o; discriminate]).
      * rewrite (bind_ok _ _ _ (handlePromptViaAni_run _ _ _ _)).
        eexists. destruct (succeeded _); unfold ret; cbn [fst snd];
          rewrite trace_setTrace; (split; [reflexivity|]); right;
          eexists; (split; [reflexivity|]); eauto.
    + apply Hnil. intros o; discriminate.
  - destruct (_ && _); apply Hnil; intros o; discriminate.
Qed.

Lemma adds_poll userInput init ticks : forall last stable,
  adds (poll ollama ticks userInput init last stable) (pollQ request ticks).
Proof.
  induction ticks as [|n IH]; intros last stable w.
  - exists []. cbn. rewrite app_nil_r. split; [reflexivity|].
    split; [apply fits_empty | auto].
  - rewrite poll_S, tick_run.
    set (w1 := setTrace (trace w ++ [Sleep 500]) (await w)).
    destruct (adds_inspect userInput init last stable w1) as (t1 & E1 & q1).
    unfold w1 in E1 at 2. rewrite trace_setTrace in E1.
    assert (Htick : fits 0 1 500 (mayWrite request) [Sleep 500])
      by (repeat split; cbn; try lia; constructor).
    assert (Hms : (500 + 1200 + N.of_nat n * 1700 <= N.of_nat (S n) * 1700)%N)
      by lia.
    destruct (inspect ollama userInput init last stable w1)
      as [[[last' stable'| |o]|] w2]; cbn [fst snd] in *.
    + destruct (IH last' stable' w2) as (t2 & E2 & (Hf2 & Hr2)).
      exists ([Sleep 500] ++ t1 ++ t2).
      rewrite E2, E1, <- !app_assoc. split; [reflexivity|].
      destruct q1 as [(Hc1 & Hf1 & _) | (p & _ & [Hx | [x Hx]])];
        try discriminate.
      split.
      * eapply fits_weaken;
          [apply (fits_app Htick (fits_app Hf1 Hf2)) | | | | auto]; lia.
      * destruct Hr2 as [Hr2 | (x & Hx & Hc)]; [now left|].
        right. exists x. split; [exact Hx|].
        rewrite !calls_app, Hc1, Hc. reflexivity.
    + exists ([Sleep 500] ++ t1). rewrite E1, <- app_assoc.
      split; [reflexivity|]. split; [|auto].
      destruct q1 as [(Hc1 & Hf1 & _) | (p & -> & _)].
      * eapply fits_weaken; [apply (fits_app Htick Hf1) | | | | auto]; lia.
      * repeat split; cbn; try lia. constructor.
    + exists ([Sleep 500] ++ t1). rewrite E1, <- app_assoc.
      split; [reflexivity|].
      destruct q1 as [(_ & _ & Hno) | (p & -> & [Hx | [x Hx]])];
        [now contradiction (Hno o) | discriminate |].
      injection Hx as ->. split.
      * repeat split; cbn; try lia. constructor.
      * right. exists x. split; reflexivity.
    + exists ([Sleep 500] ++ t1). rewrite E1, <- app_assoc.
      split; [reflexivity|]. split; [|auto].
      destruct q1 as [(Hc1 & Hf1 & _) | (p & _ & [Hx | [x Hx]])];
        try discriminate.
      eapply fits_weaken; [apply (fits_app Htick Hf1) | | | | auto]; lia.
Qed.

Lemma adds_complete userInput init :
  adds (complete ollama userInput init) completeQ.
Proof.
  intros w. unfold complete. rewrite (bind_ok _ _ _ (get_run _ _)).
  assert (Hnil : exists t, trace w = trace w ++ t
                           /\ completeQ (Ok None) t).
  { exists []. rewrite app_nil_r. split; [reflexivity | now left]. }
  destruct (init <? length (claudeOutputBuffer w)); [|exact Hnil].
  cbv zeta. destruct (10 <? _); [|exact Hnil].
  rewrite (bind_ok _ _ _ (get_run _ _)).
  rewrite (bind_ok _ _ _ (generate_run _ _ _)).
  eexists. destruct (succeeded _); unfold ret; cbn [fst snd];
    rewrite trace_setTrace;
    (split; [reflexivity|]); right; eexists; (split; [reflexivity|]); eauto.
Qed.

End WithModel.

Lemma adds_assisted toLowerCase ollama userInput :
  adds (assisted toLowerCase ollama userInput)
       (assistedQ (enhance toLowerCase userInput)).
Proof.
  intros w. unfold assisted. rewrite (bind_ok _ _ _ (get_run _ _)).
  set (request := enhance toLowerCase userInput).
  set (init := length (claudeOutputBuffer w)).
  destruct (adds_sendToClaudeCode request w) as (t1 & E1 & q1).
  assert (Hf1 : fits 0 0 200 (mayWrite request) t1).
  { apply (@sendTrace_fits request);
      [apply W_ctrl_c | apply W_request | apply W_return | tauto]. }
  destruct (sendToClaudeCode request w) as [[[]|] w1] eqn:Es;
    cbn [fst snd] in *.
  2:{ rewrite (bind_throw _ _ _ Es). exists t1. cbn [fst snd].
      split; [exact E1|]. split; [|auto].
      eapply fits_weaken; [exact Hf1 | | | | auto]; lia. }
  rewrite (bind_ok _ _ _ Es).
  destruct (adds_poll ollama request userInput init maxWait init 0 w1)
    as (t2 & E2 & (Hf2 & Hr2)).
  destruct (poll ollama maxWait userInput init init 0 w1) as [[[o|]|] w2]
    eqn:Ep; cbn [fst snd] in *;
    [rewrite (bind_ok _ _ _ Ep) | rewrite (bind_ok _ _ _ Ep)
     | rewrite (bind_throw _ _ _ Ep)]; unfold ret; cbn [fst snd].
  - exists (t1 ++ t2). rewrite E2, E1, <- app_assoc. split; [reflexivity|].
    destruct Hr2 as [[Hx|Hx] | (x & Hx & Hc)]; try discriminate.
    injection Hx as ->. split.
    + eapply fits_weaken; [apply (fits_app Hf1 Hf2) | | | | auto];
        unfold maxWait; lia.
    + right. exists x, (u "claude+prompt+gemma").
      split; [reflexivity|]. split; [cbn; auto|].
      rewrite calls_app. lia.
  - destruct (adds_complete ollama userInput init w2) as (t3 & E3 & q3).
    exists (t1 ++ t2 ++ t3). rewrite E3, E2, E1, <- !app_assoc.
    split; [reflexivity|].
    assert (Hf3 : fits 1 0 0 (mayWrite request) t3).
    { destruct q3 as [[-> _] | (p & -> & _)];
        repeat split; cbn; try lia; constructor. }
    split.
    + eapply fits_weaken; [apply (fits_app Hf1 (fits_app Hf2 Hf3)) | | | | auto];
        unfold maxWait; lia.
    + destruct q3 as [[_ ->] | (p & -> & [-> | [x ->]])]; auto.
      right. exists x, (u "claude+gemma").
      split; [reflexivity|]. split; [cbn; auto|].
      rewrite !calls_app. cbn. lia.
  - exists (t1 ++ t2). rewrite E2, E1, <- app_assoc. split; [reflexivity|].
    split; [|auto].
    eapply fits_weaken; [apply (fits_app Hf1 Hf2) | | | | auto];
      unfold maxWait; lia.
Qed.

Lemma directOutcome_ok result : okOutcome (directOutcome result).
Proof.
  unfold directOutcome. destruct (truthy (error result)) eqn:E; cbn.
  - destruct (error result) as [[|c e]|]; discriminate.
  - auto.
Qed.

Lemma processRequest_adds toLowerCase ollama userInput w :
  exists t o,
    trace (snd (processRequest toLowerCase ollama userInput w)) = trace w ++ t
    /\ fst (processRequest toLowerCase ollama userInput w) = Ok o
    /\ okOutcome o
    /\ fits 3 60 102200 (mayWrite (enhance toLowerCase userInput)) t
    /\ 1 <= calls t.
Proof.
  set (w0 := setPersonality match personalityFile w with
                            | Some content => trim content
                            | None => defaultPersonality
                            end w).
  assert (Hstep : processRequest toLowerCase ollama userInput w
    = bind (if isTechnical toLowerCase userInput && claudeProcess w0
            then catch (assisted toLowerCase ollama userInput)
            else ret None)
           (fun r => match r with
                     | Some o => ret o
                     | None => direct ollama userInput
                     end) w0) by reflexivity.
  rewrite Hstep. clear Hstep.
  assert (Hdirect : forall w1 t1,
    trace w1 = trace w ++ t1 ->
    fits 2 60 102200 (mayWrite (enhance toLowerCase userInput)) t1 ->
    exists t o,
      trace (snd (direct ollama userInput w1)) = trace w ++ t
      /\ fst (direct ollama userInput w1) = Ok o /\ okOutcome o
      /\ fits 3 60 102200 (mayWrite (enhance toLowerCase userInput)) t
      /\ 1 <= calls t).
  { intros w1 t1 E1 Hf1. rewrite direct_run. cbn [fst snd].
    rewrite trace_setTrace, E1, <- app_assoc.
    eexists; eexists. split; [reflexivity|]. split; [reflexivity|].
    split; [apply directOutcome_ok|]. split.
    - eapply fits_weaken;
        [apply (fits_app Hf1 (c2:=1) (k2:=0) (m2:=0%N)) | | | | auto];
        try lia.
      repeat split; cbn; try lia. constructor.
    - rewrite calls_app. cbn. lia. }
  destruct (isTechnical toLowerCase userInput && claudeProcess w0).
  - destruct (adds_assisted toLowerCase ollama userInput w0)
      as (t1 & E1 & (Hf1 & Hr1)).
    change (trace w0) with (trace w) in E1.
    assert (Hcatch : forall r w1,
      assisted toLowerCase ollama userInput w0 = (r, w1) ->
      catch (assisted toLowerCase ollama userInput) w0
      = (match r with Ok a => Ok a | Throw => Ok None end, w1)).
    { intros r w1 Hr. unfold catch. rewrite Hr. now destruct r. }
    destruct (assisted toLowerCase ollama userInput w0) as [[[o|]|] w1]
      eqn:Ea; cbn [fst snd] in *;
      rewrite (bind_ok _ _ _ (Hcatch _ _ eq_refl)).
    + destruct Hr1 as [[Hx|Hx] | (x & tag & Hx & Htag & Hc)];
        try discriminate.
      injection Hx as ->. exists t1, (Reply x tag). unfold ret. cbn [fst snd].
      split; [exact E1|]. split; [reflexivity|]. split; [exact Htag|].
      split; [|exact Hc].
      eapply fits_weaken; [exact Hf1 | | | | auto]; lia.
    + now apply Hdirect with (t1 := t1).
    + now apply Hdirect with (t1 := t1).
  - rewrite (@bind_ok _ _ (ret None) _ w0 None w0 eq_refl).
    apply Hdirect with (t1 := []).
    + now rewrite app_nil_r.
    + apply fits_empty.
Qed.

End RequestFacts.

(** X6: [sendToClaudeCode] writes Ctrl-C, the input and a carriage return
    in this order and nothing else, each as long as the handle is not
    null when its turn comes: the first at once, the second after the
    first pause, the third after the second pause.  It returns when all
    three are written and throws at the first write that finds the
    handle null; with no session it throws before writing or
    sleeping. *)
Theorem send_writes_until_handle_is_null (input : str) (w : World) :
  let run := sendToClaudeCode input w in
  let k := if claudeProcess w
           then if claudeProcess (await w)
                then if claudeProcess (await (await w)) then 3 else 2
                else 1
           else 0 in
  writesOf (trace (snd run))
  = writesOf (trace w) ++ firstn k [[3%N]; input; [CR]]
  /\ fst run = (if k =? 3 then Ok tt else Throw)
  /\ (claudeProcess w = false -> run = (Throw, w)).
Proof.
  intros run k.
  assert (Hdead : claudeProcess w = false -> run = (Throw, w))
    by apply sendToClaudeCode_dead.
  split; [|split; [|exact Hdead]]; unfold run, k; clear run k Hdead;
    unfold sendToClaudeCode;
    rewrite (bind_ok _ _ _ (get_run _ _));
    (destruct (claudeProcess w) eqn:E0;
     [| cbn; now rewrite ?app_nil_r]);
    rewrite (bind_ok _ _ _ (@ptyWrite_alive _ w E0));
    rewrite (bind_ok _ _ _ (sleep_run _ _)); norm;
    (destruct (claudeProcess (await w)) eqn:E1;
     [| rewrite (bind_throw _ _ _
                   (@ptyWrite_dead _ (setTrace _ (await w)) E1));
        cbn [fst snd]; norm; rewrite ?writesOf_app; reflexivity]);
    rewrite (bind_ok _ _ _ (@ptyWrite_alive _ (setTrace _ (await w)) E1));
    rewrite (bind_ok _ _ _ (sleep_run _ _)); norm;
    (destruct (claudeProcess (await (await w))) eqn:E2;
     [ rewrite ptyWrite_alive by exact E2
     | rewrite ptyWrite_dead by exact E2 ]);
    cbn [fst snd]; norm; rewrite ?writesOf_app; reflexivity.
Qed.

(** X8: a request calls the secondary model at least once and at most
    three times. *)
Theorem request_calls_the_model_one_to_three_times
  (toLowerCase : str -> str) (ollama : nat -> str -> GenResult)
  (userInput : str) (w : World) :
  let run := processRequest toLowerCase ollama userInput w in
  calls (trace w) + 1 <= calls (trace (snd run))
  /\ calls (trace (snd run)) <= calls (trace w) + 3.
Proof.
  destruct (RequestFacts.processRequest_adds toLowerCase ollama userInput w)
    as (t & o & E & _ & _ & (Hc & _) & Hone).
  cbv zeta. rewrite E, calls_app. lia.
Qed.

(** X9: a request goes through at most 60 ticks of the polling loop and
    spends at most 102200 ms in timers (200 ms for the dispatch, and for
    each of the 60 iterations 500 ms plus 1200 ms when a prompt is
    auto-approved). *)
Theorem request_time_is_bounded
  (toLowerCase : str -> str) (ollama : nat -> str -> GenResult)
  (userInput : str) (w : World) :
  let run := processRequest toLowerCase ollama userInput w in
  ticksOf (trace (snd run)) <= ticksOf (trace w) + 60
  /\ (slept (trace (snd run)) <= slept (trace w) + 102200)%N.
Proof.
  destruct (RequestFacts.processRequest_adds toLowerCase ollama userInput w)
    as (t & o & E & _ & _ & (_ & Hk & Hm & _) & _).
  cbv zeta. rewrite E, ticksOf_app, BudgetFacts.slept_app. lia.
Qed.

(** X10: all that a request ever writes to the session is Ctrl-C, the
    request text as dispatched, a carriage return and the answers "1",
    "Y" and "y". *)
Theorem request_writes_only_known_bytes
  (toLowerCase : str -> str) (ollama : nat -> str -> GenResult)
  (userInput : str) (w : World) :
  let run := processRequest toLowerCase ollama userInput w in
  exists ws,
    writesOf (trace (snd run)) = writesOf (trace w) ++ ws
    /\ Forall (fun bytes =>
                 In bytes [[3%N]; enhance toLowerCase userInput; [CR];
                           u "1"; u "Y"; u "y"]) ws.
Proof.
  destruct (RequestFacts.processRequest_adds toLowerCase ollama userInput w)
    as (t & o & E & _ & _ & (_ & _ & _ & Hw) & _).
  cbv zeta. exists (writesOf t). rewrite E, writesOf_app.
  split; [reflexivity | exact Hw].
Qed.

(** X11: a request that is not technical, or that finds no session, is
    answered on the direct path: nothing is written to the session, there
    is no polling, and the only effect is one call of the secondary model
    on the direct prompt. *)
Theorem untechnical_request_goes_direct
  (toLowerCase : str -> str) (ollama : nat -> str -> GenResult)
  (userInput : str) (w : World) :
  let run := processRequest toLowerCase ollama userInput w in
  let persona := match personalityFile w with
                 | Some content => trim content
                 | None => defaultPersonality
                 end in
  isTechnical toLowerCase userInput && claudeProcess w = false ->
  trace (snd run) = trace w ++ [Generate (fullPrompt userInput persona)]
  /\ fst run
     = Ok (directOutcome (ollama (calls (trace w))
                                 (fullPrompt userInput persona))).
Proof.
  intros run persona H.
  assert (Hrun : run = direct ollama userInput (setPersonality persona w)).
  { unfold run, processRequest. unfold bind at 1. unfold loadPersonalityPrompt.
    rewrite (bind_ok _ _ _ (get_run _ _)).
    cbn [claudeProcess setPersonality]. rewrite H. reflexivity. }
  rewrite Hrun, direct_run. cbn [fst snd]. rewrite trace_setTrace.
  split; reflexivity.
Qed.

Lemma untechnical_request_goes_direct_witness :
  let toLowerCase := asciiLower in
  let ollama := answers (u "Hello!") in
  let userInput := u "Good morning" in
  let w := running [] [] in
  let run := processRequest toLowerCase ollama userInput w in
  let persona := match personalityFile w with
                 | Some content => trim content
                 | None => defaultPersonality
                 end in
  trace (snd run) = trace w ++ [Generate (fullPrompt userInput persona)]
  /\ fst run
     = Ok (directOutcome (ollama (calls (trace w))
                                 (fullPrompt userInput persona))).
Proof.
  apply (@untechnical_request_goes_direct asciiLower (answers (u "Hello!"))
           (u "Good morning") (running [] [])).
  vm_compute. reflexivity.
Defined.

(** ** Stability *)

Lemma poll_quiet ollama userInput init : forall k stable ticks w,
  1 <= k -> stable + k = stableThreshold -> k <= ticks ->
  init < length (claudeOutputBuffer w) ->
  length (claudeOutputBuffer w) <= capacity ->
  forallb (forallb silent) (arrivals w) = true ->
  poll ollama ticks userInput init (length (claudeOutputBuffer w)) stable w
  = (Ok None, setTrace (trace w ++ repeat (Sleep 500) k) (awaits k w)).
Proof.
  induction k as [|k IH]; intros stable ticks w Hk Hs Ht Hg Hc Hq; [lia|].
  destruct ticks as [|n]; [lia|].
  destruct (await_silent w Hc Hq) as [Hb Hq'].
  rewrite poll_S, tick_run.
  rewrite inspect_idle by (rewrite buffer_setTrace, Hb; lia).
  rewrite buffer_setTrace, Hb.
  apply Nat.ltb_lt in Hg. rewrite Hg, andb_true_r.
  destruct k as [|k'].
  - assert (E : (stableThreshold <=? S stable) = true)
      by (apply Nat.leb_le; lia).
    rewrite E. reflexivity.
  - assert (E : (stableThreshold <=? S stable) = false)
      by (apply Nat.leb_gt; lia).
    rewrite E.
    specialize (IH (S stable) n
                   (setTrace (trace w ++ [Sleep 500]) (await w))).
    rewrite buffer_setTrace, Hb in IH.
    rewrite IH; try lia; try assumption.
    + rewrite awaits_setTrace. norm. reflexivity.
    + now apply Nat.ltb_lt.
Qed.

(** X12: once the log has grown past the cursor, six ticks in a row
    without growth end the loop: it is left without an outcome after
    exactly six more ticks, whatever is left of the 60. *)
Theorem loop_ends_after_six_quiet_ticks
  (ollama : nat -> str -> GenResult) (userInput : str)
  (ticks init : nat) (w : World) :
  6 <= ticks ->
  init < length (claudeOutputBuffer w) ->
  length (claudeOutputBuffer w) <= capacity ->
  forallb (forallb silent) (arrivals w) = true ->
  poll ollama ticks userInput init (length (claudeOutputBuffer w)) 0 w
  = (Ok None, setTrace (trace w ++ repeat (Sleep 500) 6) (awaits 6 w)).
Proof.
  intros Ht Hg Hc Hq. apply poll_quiet; try assumption;
    unfold stableThreshold; lia.
Qed.

Lemma loop_ends_after_six_quiet_ticks_witness :
  let w := running [u "- README.md"] [[Data (u "✻ Thinking…")]; [Exit]] in
  poll (answers (u "fine")) 59 (u "list it") 0
       (length (claudeOutputBuffer w)) 0 w
  = (Ok None, setTrace (trace w ++ repeat (Sleep 500) 6) (awaits 6 w)).
Proof.
  apply (@loop_ends_after_six_quiet_ticks (answers (u "fine")) (u "list it")
           59 0 (running [u "- README.md"]
                   [[Data (u "✻ Thinking…")]; [Exit]]));
    vm_compute; try reflexivity; lia.
Defined.


Module BufferFacts.
Import TextBuffer StoredFacts JoinFacts.

Lemma firstn_length_app {A} (a b : list A) : firstn (length a) (a ++ b) = a.
Proof. induction a as [|x a IH]; [now destruct b | cbn; now rewrite IH]. Qed.

Lemma skipn_length_app {A} (a b : list A) : skipn (length a) (a ++ b) = b.
Proof. induction a as [|x a IH]; [reflexivity | exact IH]. Qed.

Lemma nth_length_app {A} (a b : list A) x d : nth (length a) (a ++ x :: b) d = x.
Proof. induction a as [|y a IH]; [reflexivity | exact IH]. Qed.

Lemma app_cons_snoc {A} (a b : list A) x : a ++ x :: b = (a ++ [x]) ++ b.
Proof. now rewrite <- app_assoc. Qed.

Lemma length_snoc {A} (a : list A) x : length a + 1 = length (a ++ [x]).
Proof. now rewrite length_app. Qed.

Lemma app_mid_last {A} (a m b : list A) x :
  a ++ (m ++ [x]) ++ b = (a ++ m) ++ x :: b.
Proof. now rewrite <- !app_assoc. Qed.

Lemma at_app a x b : at_ (a ++ x :: b) (length a) = x.
Proof. apply nth_length_app. Qed.

Lemma assign_app a x b v :
  assign (a ++ x :: b) (length a) v = a ++ Some v :: b.
Proof.
  unfold assign.
  assert (H : (length a <? length (a ++ x :: b)) = true)
    by (apply Nat.ltb_lt; rewrite length_app; cbn; lia).
  rewrite H, firstn_length_app.
  change (S (length a)) with (1 + length a).
  rewrite <- skipn_skipn, skipn_length_app. reflexivity.
Qed.

Lemma spliceIn_app a b v : spliceIn (a ++ b) (length a) v = a ++ Some v :: b.
Proof.
  unfold spliceIn.
  replace (Nat.min (length a) (length (a ++ b))) with (length a)
    by (rewrite length_app; lia).
  now rewrite firstn_length_app, skipn_length_app.
Qed.

Lemma spliceParts_app a b ps :
  spliceParts (a ++ b) (length a) ps = a ++ map Some ps ++ b.
Proof.
  revert a. induction ps as [|p ps IH]; intros a; [reflexivity|].
  cbn [spliceParts map]. rewrite spliceIn_app.
  replace (a ++ Some p :: b) with ((a ++ [Some p]) ++ b)
    by now rewrite <- app_assoc.
  replace (S (length a)) with (length (a ++ [Some p]))
    by (rewrite length_app; cbn; lia).
  rewrite IH, <- app_assoc. reflexivity.
Qed.

Lemma spliceOut_app a x b : spliceOut (a ++ x :: b) (length a) = a ++ b.
Proof.
  unfold spliceOut. rewrite firstn_length_app.
  change (S (length a)) with (1 + length a).
  rewrite <- skipn_skipn, skipn_length_app. reflexivity.
Qed.

Lemma at_app1 a x y b : at_ (a ++ x :: y :: b) (S (length a)) = y.
Proof.
  rewrite (app_cons_snoc a (y :: b)).
  replace (S (length a)) with (length (a ++ [x]))
    by (rewrite length_app; cbn; lia).
  apply at_app.
Qed.

Lemma spliceOut_app1 a x y b :
  spliceOut (a ++ x :: y :: b) (S (length a)) = a ++ x :: b.
Proof.
  rewrite (app_cons_snoc a (y :: b)).
  replace (S (length a)) with (length (a ++ [x]))
    by (rewrite length_app; cbn; lia).
  rewrite spliceOut_app. now rewrite <- app_assoc.
Qed.

Lemma orEmpty_Some ls : map orEmpty (map Some ls) = ls.
Proof. induction ls as [|l ls IH]; [reflexivity | cbn; now rewrite IH]. Qed.

(** *** The reducer at a cursor *)

Lemma lines_atCursor pre line post col :
  lines (atCursor pre line post col) = map Some pre ++ Some line :: map Some post.
Proof. unfold atCursor. cbn [lines]. now rewrite map_app. Qed.

Lemma atCursor_eq a line b pre' line' post' col col' :
  pre' ++ line' :: post' = a ++ line :: b ->
  length pre' = length a -> col' = col ->
  atCursor pre' line' post' col' = atCursor a line b col.
Proof.
  intros E Hl ->.
  assert (Ha : pre' = a).
  { rewrite <- (firstn_length_app pre' (line' :: post')), E, Hl.
    apply firstn_length_app. }
  subst pre'. apply app_inv_head in E. now inversion E.
Qed.

Lemma state_eq ls row col pre line post c :
  ls = map Some (pre ++ line :: post) -> row = length pre -> col = c ->
  {| lines := ls; cursorRow := row; cursorCol := col |}
  = atCursor pre line post c.
Proof. now intros -> -> ->. Qed.

Lemma at_atCursor pre line post col :
  at_ (lines (atCursor pre line post col)) (length pre) = Some line.
Proof.
  rewrite lines_atCursor, <- (length_map Some pre). apply at_app.
Qed.

Lemma includes_LF p : includes p [LF] = negb (forallb notLF p).
Proof.
  induction p as [|c p IH]; [reflexivity|].
  cbn [includes startsWith forallb]. rewrite IH. unfold notLF.
  rewrite N.eqb_sym.
  assert (Hn : startsWith p [] = true) by now destruct p.
  rewrite Hn. now destruct (c =? LF)%N.
Qed.

Lemma split_cons p : exists p0 rest, split LF p = p0 :: rest.
Proof.
  induction p as [|c p (p0 & rest & E)]; [now exists [], []|].
  cbn [split]. destruct (c =? LF)%N; [now exists [], (split LF p)|].
  rewrite E. now exists (c :: p0), rest.
Qed.

Lemma join_cons2 sep (x y : str) l :
  join sep (x :: y :: l) = x ++ sep ++ join sep (y :: l).
Proof. reflexivity. Qed.

Lemma join_split p : join [LF] (split LF p) = p.
Proof.
  induction p as [|c p IH]; [reflexivity|].
  cbn [split]. destruct (split_cons p) as (q0 & qs & Eq).
  rewrite Eq in *. destruct (c =? LF)%N eqn:Ec.
  - apply N.eqb_eq in Ec. subst c. rewrite join_cons2, IH. reflexivity.
  - destruct qs as [|q1 qs].
    + cbn [join] in *. now rewrite IH.
    + rewrite join_cons2 in *. rewrite <- IH. reflexivity.
Qed.

Lemma split_LF_parts p :
  forallb notLF p = false ->
  exists p0 mid pl, split LF p = p0 :: mid ++ [pl].
Proof.
  intros H. destruct (split_cons p) as (p0 & rest & E).
  destruct rest as [|r rest _] using rev_ind.
  - exfalso. assert (Hp := split_notLF p). assert (J := join_split p).
    rewrite E in J, Hp. cbn in J. subst p0.
    inversion Hp; subst. congruence.
  - now exists p0, rest, r.
Qed.

Lemma red_insert_line pre line post col p :
  forallb notLF p = true ->
  textBufferReducer (atCursor pre line post col) (insert p)
  = Some (atCursor pre (firstn col line ++ p ++ skipn col line) post
            (col + length p)).
Proof.
  intros Hp. unfold textBufferReducer.
  rewrite includes_LF, Hp. cbn [negb].
  cbn [cursorRow cursorCol atCursor lines].
  f_equal. apply state_eq; try reflexivity.
  rewrite !map_app. cbn [map]. rewrite <- (length_map Some pre).
  rewrite at_app, assign_app. reflexivity.
Qed.

Lemma red_insert_lines pre line post col p p0 mid pl :
  split LF p = p0 :: mid ++ [pl] ->
  textBufferReducer (atCursor pre line post col) (insert p)
  = Some (atCursor (pre ++ (firstn col line ++ p0) :: mid)
            (pl ++ skipn col line) post (length pl)).
Proof.
  intros E. unfold textBufferReducer.
  assert (Hp : forallb notLF p = false).
  { destruct (forallb notLF p) eqn:H; [|reflexivity].
    rewrite (split_single _ H) in E. inversion E.
    now destruct mid. }
  rewrite includes_LF, Hp, E. cbn [negb hd tl].
  cbn [cursorRow cursorCol atCursor lines].
  change (last (p0 :: mid ++ [pl]) []) with (last ((p0 :: mid) ++ [pl]) []).
  rewrite last_last.
  f_equal. apply state_eq.
  - rewrite !map_app. cbn [map]. rewrite <- (length_map Some pre).
    rewrite at_app, assign_app. cbn [orEmpty].
    rewrite (app_cons_snoc (map Some pre) (map Some post)).
    rewrite (length_snoc (map Some pre) (Some (firstn col line ++ p0))).
    rewrite spliceParts_app, map_app. cbn [map].
    rewrite app_mid_last.
    match goal with
    | |- assign (?a ++ _) ?k _ = _ =>
      assert (E4 : k = length a);
        [| rewrite E4, at_app, assign_app; cbn [shown] ]
    end.
    + rewrite !length_app, !length_map. cbn [length].
      rewrite length_app. cbn. lia.
    + now rewrite <- !app_assoc.
  - rewrite !length_app. cbn [length]. rewrite length_app. cbn. lia.
  - reflexivity.
Qed.

Lemma red_backspace_col pre line post col :
  0 < col ->
  textBufferReducer (atCursor pre line post col) backspace
  = Some (atCursor pre (firstn (col - 1) line ++ skipn col line) post
            (col - 1)).
Proof.
  intros H. unfold textBufferReducer.
  cbn [cursorRow cursorCol atCursor lines].
  assert (E : (col =? 0) = false) by (apply Nat.eqb_neq; lia).
  assert (E' : (0 <? col) = true) by (apply Nat.ltb_lt; lia).
  rewrite E, E'. cbn [andb].
  rewrite map_app. cbn [map].
  rewrite <- (length_map Some pre), at_app, assign_app.
  f_equal. apply state_eq;
    [now rewrite map_app | now rewrite length_map | reflexivity].
Qed.

Lemma red_backspace_row pre prev line post :
  textBufferReducer (atCursor (pre ++ [prev]) line post 0) backspace
  = Some (atCursor pre (prev ++ line) post (length prev)).
Proof.
  unfold textBufferReducer. cbn [cursorRow cursorCol atCursor lines].
  assert (Er : length (pre ++ [prev]) = S (length pre))
    by (rewrite length_app; cbn; lia).
  rewrite Er. cbn [Nat.eqb andb Nat.ltb Nat.leb].
  replace (S (length pre) - 1) with (length pre) by lia.
  rewrite <- app_assoc, map_app. cbn [app map].
  rewrite <- (length_map Some pre), at_app.
  rewrite at_app1. cbn [shown]. rewrite assign_app, spliceOut_app1.
  f_equal. apply state_eq;
    [now rewrite map_app | now rewrite length_map | reflexivity].
Qed.

Lemma red_newline pre line post col :
  textBufferReducer (atCursor pre line post col) newline
  = Some (atCursor (pre ++ [firstn col line]) (skipn col line) post 0).
Proof.
  unfold textBufferReducer. cbn [cursorRow cursorCol atCursor lines].
  rewrite map_app. cbn [map].
  rewrite <- (length_map Some pre), at_app, assign_app. cbn [orEmpty].
  rewrite (app_cons_snoc (map Some pre) (map Some post)).
  rewrite (length_snoc (map Some pre) (Some (firstn col line))).
  rewrite spliceIn_app.
  f_equal. apply state_eq; try reflexivity.
  - rewrite <- app_assoc, !map_app. cbn [map app].
    now rewrite <- app_assoc.
  - rewrite !length_app, length_map. reflexivity.
Qed.

Lemma split_snoc t : exists ls l, split LF t = ls ++ [l].
Proof.
  destruct (split_cons t) as (p0 & rest & E). rewrite E.
  destruct (@exists_last _ (p0 :: rest)) as (ls & l & E'); [discriminate|].
  now exists ls, l.
Qed.

Lemma red_set_text state t ls l :
  split LF t = ls ++ [l] ->
  textBufferReducer state (set_text t) = Some (atCursor ls l [] (length l)).
Proof.
  intros E. unfold textBufferReducer. rewrite E, last_last.
  f_equal. apply state_eq; try reflexivity.
  - now destruct ls.
  - rewrite length_app. cbn. lia.
Qed.

(** *** The text around the cursor *)

Lemma text_atCursor pre line post col :
  text (atCursor pre line post col) = join [LF] (pre ++ line :: post).
Proof. unfold text, atCursor. cbn [lines]. now rewrite orEmpty_Some. Qed.

Lemma before_atCursor pre line post col :
  beforeCursor (atCursor pre line post col)
  = join [LF] (pre ++ [firstn col line]).
Proof.
  unfold beforeCursor. rewrite lines_atCursor.
  cbn [cursorRow cursorCol atCursor].
  rewrite <- (length_map Some pre), at_app, firstn_length_app.
  now rewrite orEmpty_Some.
Qed.

Lemma after_atCursor pre line post col :
  afterCursor (atCursor pre line post col)
  = join [LF] (skipn col line :: post).
Proof.
  unfold afterCursor. rewrite lines_atCursor.
  cbn [cursorRow cursorCol atCursor].
  rewrite <- (length_map Some pre), at_app.
  change (S (length (map Some pre))) with (1 + length (map Some pre)).
  rewrite <- skipn_skipn, skipn_length_app. cbn [skipn orEmpty].
  now rewrite orEmpty_Some.
Qed.

Lemma join_mid (a : list str) (x y : str) (b : list str) :
  join [LF] (a ++ (x ++ y) :: b)
  = join [LF] (a ++ [x]) ++ join [LF] (y :: b).
Proof.
  induction a as [|l a IH].
  - cbn [app]. destruct b as [|l' b]; [reflexivity|].
    rewrite !join_cons2. cbn [join]. now rewrite <- app_assoc.
  - destruct a as [|l' a]; cbn [app] in *; rewrite !join_cons2;
      rewrite <- !app_assoc; do 2 f_equal; exact IH.
Qed.

Lemma join_snoc (a : list str) (x : str) :
  a <> [] -> join [LF] (a ++ [x]) = join [LF] a ++ LF :: x.
Proof.
  induction a as [|l a IH]; [congruence|]. intros _.
  destruct a as [|l' a]; [reflexivity|].
  cbn [app] in *. rewrite !join_cons2, <- !app_assoc. do 2 f_equal.
  now apply IH.
Qed.

Lemma text_before_after pre line post col :
  text (atCursor pre line post col)
  = beforeCursor (atCursor pre line post col)
    ++ afterCursor (atCursor pre line post col).
Proof.
  rewrite text_atCursor, before_atCursor, after_atCursor, <- join_mid.
  now rewrite firstn_skipn.
Qed.

(** *** Well-formed states *)

Lemma isLine_view a :
  forallb isLine a = true ->
  exists ls, a = map Some ls /\ forallb (forallb notLF) ls = true.
Proof.
  induction a as [|x a IH]; intros H; [now exists []|].
  cbn [forallb] in H. apply andb_true_iff in H. destruct H as [Hx Ha].
  destruct (IH Ha) as (ls & -> & Hls).
  destruct x as [l|]; [|discriminate].
  exists (l :: ls). split; [reflexivity|]. cbn [forallb].
  cbn [isLine] in Hx. now rewrite Hx, Hls.
Qed.

Lemma isLine_map ls :
  forallb isLine (map Some ls) = forallb (forallb notLF) ls.
Proof. induction ls as [|l ls IH]; [reflexivity | cbn; now rewrite IH]. Qed.

Lemma wf_view s :
  wellFormed s = true ->
  exists pre line post col,
    s = atCursor pre line post col /\ col <= length line
    /\ forallb (forallb notLF) (pre ++ line :: post) = true.
Proof.
  unfold wellFormed. rewrite !andb_true_iff.
  intros [[Hl Hr] Hc]. apply Nat.ltb_lt in Hr. apply Nat.leb_le in Hc.
  destruct (isLine_view _ Hl) as (ls & E & Hls).
  rewrite E, length_map in Hr.
  destruct (nth_split ls [] Hr) as (pre & post & Els & Hpre).
  exists pre, (nth (cursorRow s) ls []), post, (cursorCol s).
  assert (Es : s = atCursor pre (nth (cursorRow s) ls []) post (cursorCol s)).
  { destruct s as [a r c]. cbn [lines cursorRow cursorCol] in *.
    apply state_eq; [now rewrite <- Els | now symmetry | reflexivity]. }
  split; [exact Es|]. split.
  - rewrite Es in Hc. cbn [cursorRow cursorCol] in Hc.
    change (cursorRow (atCursor pre (nth (cursorRow s) ls []) post (cursorCol s)))
      with (length pre) in Hc.
    now rewrite at_atCursor in Hc.
  - now rewrite <- Els.
Qed.

Lemma wf_atCursor pre line post col :
  col <= length line ->
  forallb (forallb notLF) (pre ++ line :: post) = true ->
  wellFormed (atCursor pre line post col) = true.
Proof.
  intros Hc Hl. unfold wellFormed.
  change (cursorRow (atCursor pre line post col)) with (length pre).
  rewrite at_atCursor. cbn [atCursor lines cursorCol orEmpty].
  rewrite length_map, length_app. cbn [length].
  rewrite !andb_true_iff. split; [split|].
  - rewrite isLine_map. exact Hl.
  - apply Nat.ltb_lt. unfold str. lia.
  - apply Nat.leb_le. exact Hc.
Qed.

Lemma lfFree_app a b :
  forallb (forallb notLF) (a ++ b)
  = forallb (forallb notLF) a && forallb (forallb notLF) b.
Proof. apply forallb_app. Qed.

Lemma notLF_firstn n (l : str) :
  forallb notLF l = true -> forallb notLF (firstn n l) = true.
Proof.
  intros H. apply forallb_Forall, Forall_firstn. now apply forallb_Forall.
Qed.

Lemma notLF_skipn n (l : str) :
  forallb notLF l = true -> forallb notLF (skipn n l) = true.
Proof.
  intros H. apply forallb_Forall, Forall_skipn. now apply forallb_Forall.
Qed.

Lemma lf_split pre (line : str) post :
  forallb (forallb notLF) (pre ++ line :: post) = true
  <-> forallb (forallb notLF) pre = true /\ forallb notLF line = true
      /\ forallb (forallb notLF) post = true.
Proof.
  rewrite forallb_app. cbn [forallb]. rewrite !andb_true_iff. reflexivity.
Qed.

Lemma lf_snoc pre (line : str) :
  forallb (forallb notLF) (pre ++ [line]) = true
  <-> forallb (forallb notLF) pre = true /\ forallb notLF line = true.
Proof.
  rewrite forallb_app. cbn [forallb].
  rewrite andb_true_r, andb_true_iff. reflexivity.
Qed.

Lemma lf_cons (line : str) post :
  forallb (forallb notLF) (line :: post) = true
  <-> forallb notLF line = true /\ forallb (forallb notLF) post = true.
Proof. cbn [forallb]. now rewrite andb_true_iff. Qed.

Lemma notLF_app (a b : str) :
  forallb notLF (a ++ b) = true
  <-> forallb notLF a = true /\ forallb notLF b = true.
Proof. rewrite forallb_app. now rewrite andb_true_iff. Qed.

Lemma split_lf t : forallb (forallb notLF) (split LF t) = true.
Proof. apply forallb_Forall, split_notLF. Qed.

Lemma firstn_exact {A} (a b : list A) n :
  length a = n -> firstn n (a ++ b) = a.
Proof. intros <-. apply firstn_length_app. Qed.

Lemma skipn_exact {A} (a b : list A) n :
  length a = n -> skipn n (a ++ b) = b.
Proof. intros <-. apply skipn_length_app. Qed.

Lemma length_firstn_le {A} (l : list A) n :
  n <= length l -> length (firstn n l) = n.
Proof. intros H. rewrite length_firstn. lia. Qed.

Lemma firstn_pred {A} (l : list A) n :
  0 < n -> n <= length l ->
  exists c, firstn n l = firstn (n - 1) l ++ [c].
Proof.
  revert n. induction l as [|x l IH]; intros n H0 Hn; cbn in Hn; [lia|].
  destruct n as [|n]; [lia|].
  destruct n as [|n]; [now exists x|].
  destruct (IH (S n)) as (c & E); [lia | lia |].
  exists c. cbn [firstn Nat.sub] in *. rewrite Nat.sub_0_r in E.
  cbn [app]. f_equal. exact E.
Qed.

(** The reducer keeps the states well formed. *)
Lemma reducer_wf state action :
  wellFormed state = true ->
  exists state',
    textBufferReducer state action = Some state'
    /\ wellFormed state' = true.
Proof.
  intros Hwf. destruct (wf_view _ Hwf) as (pre & line & post & col & -> & Hc & Hl).
  apply lf_split in Hl. destruct Hl as (Hpre & Hline & Hpost).
  destruct action as [t|p| | |r c|].
  - destruct (split_snoc t) as (ls & l & E).
    rewrite (@red_set_text _ _ _ _ E). eexists. split; [reflexivity|].
    apply wf_atCursor; [lia|]. assert (Hs := split_lf t).
    rewrite E in Hs. exact Hs.
  - destruct (forallb notLF p) eqn:Hp.
    + rewrite (@red_insert_line _ _ _ _ _ Hp). eexists. split; [reflexivity|].
      apply wf_atCursor.
      * rewrite !length_app, length_firstn_le by exact Hc. lia.
      * apply lf_split. repeat split; try assumption.
        apply notLF_app. split; [now apply notLF_firstn|].
        apply notLF_app. split; [exact Hp | now apply notLF_skipn].
    + destruct (split_LF_parts _ Hp) as (p0 & mid & pl & E).
      rewrite (@red_insert_lines _ _ _ _ _ _ _ _ E). eexists. split; [reflexivity|].
      assert (Hs := split_lf p). rewrite E in Hs.
      apply lf_cons in Hs. destruct Hs as [Hp0 Hs].
      apply lf_snoc in Hs. destruct Hs as [Hmid Hpl].
      apply wf_atCursor.
      * rewrite length_app. lia.
      * apply lf_split. repeat split; try assumption.
        -- apply lf_split. repeat split; try assumption.
           apply notLF_app. split; [now apply notLF_firstn | exact Hp0].
        -- apply notLF_app. split; [exact Hpl | now apply notLF_skipn].
  - destruct col as [|col].
    + destruct pre as [|prev pre _] using rev_ind.
      * exists (atCursor [] line post 0). split; [reflexivity|].
        apply wf_atCursor; [lia|]. now apply lf_split.
      * rewrite red_backspace_row. eexists. split; [reflexivity|].
        apply lf_snoc in Hpre. destruct Hpre as [Hpre Hprev].
        apply wf_atCursor; [rewrite length_app; lia|].
        apply lf_split. repeat split; try assumption.
        apply notLF_app. now split.
    + rewrite red_backspace_col by lia. eexists. split; [reflexivity|].
      apply wf_atCursor.
      * rewrite length_app, length_firstn_le, length_skipn by lia. lia.
      * apply lf_split. repeat split; try assumption.
        apply notLF_app. split; [now apply notLF_firstn | now apply notLF_skipn].
  - exists (atCursor pre line post col). split; [reflexivity|].
    apply wf_atCursor; [exact Hc|]. now apply lf_split.
  - eexists. split; [reflexivity|].
    unfold wellFormed. cbn [lines cursorRow cursorCol atCursor].
    rewrite !andb_true_iff. split; [split|].
    + rewrite isLine_map. now apply lf_split.
    + apply Nat.ltb_lt. rewrite length_map, length_app. cbn [length].
      unfold str. lia.
    + apply Nat.leb_le. lia.
  - rewrite red_newline. eexists. split; [reflexivity|].
    apply wf_atCursor; [lia|].
    apply lf_split. repeat split; try assumption.
    + apply lf_snoc. split; [assumption | now apply notLF_firstn].
    + now apply notLF_skipn.
Qed.

End BufferFacts.

Module CursorFacts.
Import TextBuffer StoredFacts JoinFacts BufferFacts.

Lemma join_one (x : str) : join [LF] [x] = x.
Proof. reflexivity. Qed.

Lemma Some_inj {A} (x y : A) : Some x = Some y -> x = y.
Proof. now intros [= ->]. Qed.

(** Rewriting up to the abbreviation [str]. *)
Ltac rw t :=
  let J := fresh "J" in
  pose proof t as J; unfold str in J |- *; rewrite J; clear J.

Lemma insert_view state p :
  wellFormed state = true ->
  exists state',
    textBufferReducer state (insert p) = Some state'
    /\ wellFormed state' = true
    /\ beforeCursor state' = beforeCursor state ++ p
    /\ afterCursor state' = afterCursor state.
Proof.
  intros Hwf. destruct (@reducer_wf _ (insert p) Hwf) as (s' & Hs' & Hwf').
  exists s'. split; [exact Hs'|]. split; [exact Hwf'|].
  destruct (wf_view _ Hwf) as (pre & line & post & col & -> & Hc & Hl).
  assert (Hb : length (firstn col line) = col) by now apply length_firstn_le.
  destruct (forallb notLF p) eqn:Hp.
  - rewrite (@red_insert_line _ _ _ _ _ Hp) in Hs'. apply Some_inj in Hs'. subst s'.
    rewrite !before_atCursor, !after_atCursor.
    rewrite app_assoc.
    rewrite (@firstn_exact _ (firstn col line ++ p) (skipn col line)
               (col + length p))
      by (rewrite length_app; lia).
    rewrite (@skipn_exact _ (firstn col line ++ p) (skipn col line)
               (col + length p))
      by (rewrite length_app; lia).
    split; [|reflexivity].
    now rewrite join_mid, join_one.
  - destruct (split_LF_parts _ Hp) as (p0 & mid & pl & E).
    rewrite (@red_insert_lines _ _ _ _ _ _ _ _ E) in Hs'.
    apply Some_inj in Hs'. subst s'.
    rewrite !before_atCursor, !after_atCursor.
    rewrite (@firstn_exact _ pl (skipn col line) (length pl) eq_refl).
    rewrite (@skipn_exact _ pl (skipn col line) (length pl) eq_refl).
    split; [|reflexivity].
    rewrite <- (join_split p), E.
    rewrite <- app_assoc. cbn [app]. apply join_mid.
Qed.

Lemma backspace_view state :
  wellFormed state = true ->
  exists state',
    textBufferReducer state backspace = Some state'
    /\ wellFormed state' = true
    /\ beforeCursor state' = removelast (beforeCursor state)
    /\ afterCursor state' = afterCursor state.
Proof.
  intros Hwf. destruct (@reducer_wf _ backspace Hwf) as (s' & Hs' & Hwf').
  exists s'. split; [exact Hs'|]. split; [exact Hwf'|].
  destruct (wf_view _ Hwf) as (pre & line & post & col & -> & Hc & Hl).
  destruct col as [|col].
  - destruct pre as [|prev pre _] using rev_ind.
    + apply Some_inj in Hs'. subst s'. now rewrite before_atCursor.
    + rewrite red_backspace_row in Hs'. apply Some_inj in Hs'. subst s'.
      rewrite !before_atCursor, !after_atCursor.
      rewrite (@firstn_exact _ prev line (length prev) eq_refl).
      rewrite (@skipn_exact _ prev line (length prev) eq_refl).
      split; [|reflexivity].
      cbn [firstn].
      assert (Hne : pre ++ [prev] <> []) by (destruct pre; discriminate).
      rw (@join_snoc (pre ++ [prev]) [] Hne).
      now rewrite removelast_last.
  - rewrite red_backspace_col in Hs' by lia.
    rewrite Nat.sub_succ, Nat.sub_0_r in Hs'. apply Some_inj in Hs'. subst s'.
    rewrite !before_atCursor, !after_atCursor.
    assert (Hb : length (firstn col line) = col)
      by (apply length_firstn_le; lia).
    rw (@firstn_exact _ _ (skipn (S col) line) col Hb).
    rw (@skipn_exact _ _ (skipn (S col) line) col Hb).
    split; [|reflexivity].
    destruct (@firstn_pred _ line (S col)) as (c & Ec); [lia | exact Hc |].
    rewrite Nat.sub_succ, Nat.sub_0_r in Ec.
    rw Ec. rw (join_mid pre (firstn col line) [c] []).
    rw (join_one [c]). now rewrite removelast_last.
Qed.

(** A well-formed state is determined by the text on the two sides of
    its cursor. *)
Lemma cursor_determines s1 s2 :
  wellFormed s1 = true -> wellFormed s2 = true ->
  beforeCursor s1 = beforeCursor s2 -> afterCursor s1 = afterCursor s2 ->
  s1 = s2.
Proof.
  intros H1 H2 Hb Ha.
  destruct (wf_view _ H1) as (pre1 & l1 & post1 & c1 & -> & Hc1 & Hl1).
  destruct (wf_view _ H2) as (pre2 & l2 & post2 & c2 & -> & Hc2 & Hl2).
  rewrite !before_atCursor in Hb. rewrite !after_atCursor in Ha.
  apply lf_split in Hl1, Hl2.
  destruct Hl1 as (Hp1 & Hline1 & Hq1). destruct Hl2 as (Hp2 & Hline2 & Hq2).
  apply (f_equal (split LF)) in Hb, Ha.
  rewrite !split_join in Hb, Ha;
    try (now destruct pre1); try (now destruct pre2); try discriminate;
    try (apply lf_snoc; split; [assumption | now apply notLF_firstn]);
    try (apply lf_cons; split; [now apply notLF_skipn | assumption]).
  apply app_inj_tail in Hb. destruct Hb as [-> Hf].
  inversion Ha as [[Hs Hq]]. subst post2.
  assert (Ec : c1 = c2).
  { rewrite <- (length_firstn_le l1 Hc1) at 1.
    rewrite <- (length_firstn_le l2 Hc2). now rewrite Hf. }
  subst c2.
  assert (El : l1 = l2).
  { rewrite <- (firstn_skipn c1 l1), <- (firstn_skipn c1 l2). congruence. }
  now subst l2.
Qed.

Lemma removelast_iter {A} (a b : list A) :
  Nat.iter (length b) (@removelast A) (a ++ b) = a.
Proof.
  induction b as [|x b IH] using rev_ind; [now rewrite app_nil_r|].
  rewrite length_app, Nat.add_comm. cbn [length Nat.add].
  rewrite Nat.iter_succ_r, app_assoc, removelast_last. exact IH.
Qed.

Lemma backspaces_view n state :
  wellFormed state = true ->
  exists state',
    dispatchAll state (repeat backspace n) = Some state'
    /\ wellFormed state' = true
    /\ beforeCursor state' = Nat.iter n (@removelast N) (beforeCursor state)
    /\ afterCursor state' = afterCursor state.
Proof.
  revert state. induction n as [|n IH]; intros state Hwf.
  - exists state. repeat split; assumption.
  - destruct (backspace_view state Hwf) as (s1 & E1 & Hwf1 & Hb1 & Ha1).
    destruct (IH s1 Hwf1) as (s2 & E2 & Hwf2 & Hb2 & Ha2).
    exists s2. cbn [repeat dispatchAll]. rewrite E1.
    split; [exact E2|]. split; [exact Hwf2|].
    split; [|congruence].
    rewrite Hb2, Hb1. now rewrite <- Nat.iter_succ_r.
Qed.

End CursorFacts.

Module ReducerFacts.
Import TextBuffer StoredFacts JoinFacts BufferFacts CursorFacts.

Lemma assign_length a i v : i < length (assign a i v).
Proof.
  unfold assign. destruct (i <? length a) eqn:E.
  - apply Nat.ltb_lt in E.
    rewrite length_app, length_firstn. cbn [length]. rewrite length_skipn. lia.
  - rewrite !length_app, repeat_length. cbn [length]. lia.
Qed.

Lemma spliceIn_assign a k x v :
  k <= length a ->
  assign (spliceIn a k x) k (shown (at_ (spliceIn a k x) k) ++ v)
  = spliceIn a k (x ++ v).
Proof.
  intros H. unfold spliceIn. rewrite Nat.min_l by exact H.
  assert (G : forall a1 b, length a1 = k ->
              assign (a1 ++ Some x :: b) k
                (shown (at_ (a1 ++ Some x :: b) k) ++ v)
              = a1 ++ Some (x ++ v) :: b).
  { intros a1 b <-. now rewrite at_app, assign_app. }
  apply G, length_firstn_le, H.
Qed.

Lemma text_split state :
  wellFormed state = true ->
  text state = beforeCursor state ++ afterCursor state.
Proof.
  intros Hwf. destruct (wf_view _ Hwf) as (pre & line & post & col & -> & _).
  apply text_before_after.
Qed.

Lemma set_text_view state t :
  exists state',
    textBufferReducer state (set_text t) = Some state'
    /\ wellFormed state' = true
    /\ beforeCursor state' = t /\ afterCursor state' = [].
Proof.
  destruct (split_snoc t) as (ls & l & E).
  exists (atCursor ls l [] (length l)).
  split; [exact (@red_set_text state _ _ _ E)|].
  assert (Hs := split_lf t). rewrite E in Hs.
  split; [apply wf_atCursor; [lia | exact Hs]|].
  rewrite before_atCursor, after_atCursor, firstn_all, skipn_all.
  split; [|reflexivity].
  rewrite <- (join_split t). now rewrite E.
Qed.

Lemma inserts_view ps state :
  wellFormed state = true ->
  exists state',
    dispatchAll state (map insert ps) = Some state'
    /\ wellFormed state' = true
    /\ beforeCursor state' = beforeCursor state ++ concat ps
    /\ afterCursor state' = afterCursor state.
Proof.
  revert state. induction ps as [|p ps IH]; intros state Hwf.
  - exists state. rewrite app_nil_r. repeat split; assumption.
  - destruct (@insert_view state p Hwf) as (s1 & E1 & Hwf1 & Hb1 & Ha1).
    destruct (IH s1 Hwf1) as (s2 & E2 & Hwf2 & Hb2 & Ha2).
    exists s2. cbn [map dispatchAll concat]. rewrite E1.
    split; [exact E2|]. split; [exact Hwf2|].
    split; [|congruence].
    rewrite Hb2, Hb1. now rewrite <- app_assoc.
Qed.

End ReducerFacts.

Import TextBuffer.

(** X13: the reducer never throws on the states it can be in: from the
    initial state of [useTextBuffer], whatever the initial text, every
    sequence of actions runs to the end, and the state reached is well
    formed (every line a string without a line feed, the cursor on a line
    and within it). *)
Theorem reachable_buffer_is_well_formed
  (initialText : str) (actions : list TextBufferAction) :
  exists state',
    dispatchAll (initialState initialText) actions = Some state'
    /\ wellFormed state' = true.
Proof.
  assert (Hinit : wellFormed (initialState initialText) = true).
  { destruct initialText as [|c t]; [reflexivity|].
    destruct (BufferFacts.split_cons (c :: t)) as (l & ls & E).
    assert (Hs := BufferFacts.split_lf (c :: t)). rewrite E in Hs.
    unfold initialState. rewrite E.
    exact (@BufferFacts.wf_atCursor [] l ls 0 (Nat.le_0_l _) Hs). }
  revert Hinit. generalize (initialState initialText).
  induction actions as [|a actions IH]; intros state Hwf.
  - now exists state.
  - destruct (@BufferFacts.reducer_wf state a Hwf) as (s1 & E1 & Hwf1).
    cbn [dispatchAll]. rewrite E1. now apply IH.
Qed.

(** X14: [insert] puts the payload at the cursor: the text before the
    cursor grows by the payload, the text after it is unchanged, and the
    text of the buffer is the old text with the payload in between; this
    holds for payloads with and without line feeds. *)
Theorem insert_lands_at_cursor (state : TextBufferState) (payload : str) :
  wellFormed state = true ->
  exists state',
    textBufferReducer state (insert payload) = Some state'
    /\ beforeCursor state' = beforeCursor state ++ payload
    /\ afterCursor state' = afterCursor state
    /\ text state' = beforeCursor state ++ payload ++ afterCursor state.
Proof.
  intros Hwf.
  destruct (@CursorFacts.insert_view state payload Hwf) as (s' & E & Hwf' & Hb & Ha).
  exists s'. repeat split; try assumption.
  rewrite (ReducerFacts.text_split _ Hwf'), Hb, Ha.
  now rewrite <- app_assoc.
Qed.

Lemma insert_lands_at_cursor_witness :
  exists state',
    textBufferReducer (initialState (u "ab")) (insert (u "x")) = Some state'
    /\ beforeCursor state' = beforeCursor (initialState (u "ab")) ++ u "x"
    /\ afterCursor state' = afterCursor (initialState (u "ab"))
    /\ text state'
       = beforeCursor (initialState (u "ab")) ++ u "x"
         ++ afterCursor (initialState (u "ab")).
Proof.
  apply (@insert_lands_at_cursor (initialState (u "ab")) (u "x")).
  reflexivity.
Defined.

(** X15: [backspace] removes the code unit before the cursor, a line
    feed included (the two lines are joined); the text after the cursor is
    unchanged, and at the start of the text nothing changes. *)
Theorem backspace_erases_before_cursor (state : TextBufferState) :
  wellFormed state = true ->
  exists state',
    textBufferReducer state backspace = Some state'
    /\ beforeCursor state' = removelast (beforeCursor state)
    /\ afterCursor state' = afterCursor state
    /\ text state' = removelast (beforeCursor state) ++ afterCursor state.
Proof.
  intros Hwf.
  destruct (CursorFacts.backspace_view state Hwf) as (s' & E & Hwf' & Hb & Ha).
  exists s'. repeat split; try assumption.
  now rewrite (ReducerFacts.text_split _ Hwf'), Hb, Ha.
Qed.

Lemma backspace_erases_before_cursor_witness :
  exists state',
    textBufferReducer (atCursor [u "ab"] (u "cd") [] 0) backspace
    = Some state'
    /\ beforeCursor state'
       = removelast (beforeCursor (atCursor [u "ab"] (u "cd") [] 0))
    /\ afterCursor state' = afterCursor (atCursor [u "ab"] (u "cd") [] 0)
    /\ text state'
       = removelast (beforeCursor (atCursor [u "ab"] (u "cd") [] 0))
         ++ afterCursor (atCursor [u "ab"] (u "cd") [] 0).
Proof.
  apply (@backspace_erases_before_cursor (atCursor [u "ab"] (u "cd") [] 0)).
  reflexivity.
Defined.

(** X16: in every state, the action [newline] has the effect of
    inserting a line feed. *)
Theorem newline_is_insert_of_line_feed (state : TextBufferState) :
  textBufferReducer state newline = textBufferReducer state (insert [LF]).
Proof.
  unfold textBufferReducer.
  change (includes [LF] [LF]) with true.
  change (split LF [LF]) with ([[]; []] : list str).
  cbn [hd tl last length spliceParts]. rewrite app_nil_r.
  replace (cursorRow state + 2 - 1) with (cursorRow state + 1) by lia.
  rewrite ReducerFacts.spliceIn_assign.
  - reflexivity.
  - assert (H := ReducerFacts.assign_length (lines state) (cursorRow state)
                   (firstn (cursorCol state)
                      (orEmpty (at_ (lines state) (cursorRow state))))).
    lia.
Qed.

(** X17: [set_text] makes the given string the text of the buffer,
    whatever the state was, and puts the cursor at its end. *)
Theorem set_text_round_trip (state : TextBufferState) (t : str) :
  exists state',
    textBufferReducer state (set_text t) = Some state'
    /\ wellFormed state' = true
    /\ text state' = t
    /\ beforeCursor state' = t /\ afterCursor state' = [].
Proof.
  destruct (ReducerFacts.set_text_view state t) as (s' & E & Hwf & Hb & Ha).
  exists s'. repeat split; try assumption.
  now rewrite (ReducerFacts.text_split _ Hwf), Hb, Ha, app_nil_r.
Qed.

(** X18: the lines of a well-formed buffer are recovered from its text:
    setting the text of the buffer to its own text leaves the lines as
    they are (only the cursor moves, to the end). *)
Theorem text_determines_lines (state : TextBufferState) :
  wellFormed state = true ->
  exists state',
    textBufferReducer state (set_text (text state)) = Some state'
    /\ lines state' = lines state.
Proof.
  intros Hwf.
  destruct (BufferFacts.wf_view _ Hwf)
    as (pre & line & post & col & -> & Hc & Hl).
  rewrite BufferFacts.text_atCursor.
  unfold textBufferReducer.
  rewrite JoinFacts.split_join; [| now destruct pre | exact Hl].
  eexists. split; [reflexivity|]. cbn [lines atCursor].
  now destruct pre.
Qed.

Lemma text_determines_lines_witness :
  exists state',
    textBufferReducer (atCursor [u "ab"] (u "cd") [] 1)
      (set_text (text (atCursor [u "ab"] (u "cd") [] 1))) = Some state'
    /\ lines state' = lines (atCursor [u "ab"] (u "cd") [] 1).
Proof.
  apply (@text_determines_lines (atCursor [u "ab"] (u "cd") [] 1)).
  reflexivity.
Defined.

(** X19: an insertion is undone by as many backspaces as the payload has
    code units: the buffer is back in the state it was in, lines and
    cursor. *)
Theorem backspaces_undo_insert (state : TextBufferState) (payload : str) :
  wellFormed state = true ->
  dispatchAll state (insert payload :: repeat backspace (length payload))
  = Some state.
Proof.
  intros Hwf.
  destruct (@CursorFacts.insert_view state payload Hwf) as (s1 & E1 & Hwf1 & Hb1 & Ha1).
  destruct (@CursorFacts.backspaces_view (length payload) s1 Hwf1)
    as (s2 & E2 & Hwf2 & Hb2 & Ha2).
  cbn [dispatchAll]. rewrite E1, E2. f_equal.
  apply CursorFacts.cursor_determines; try assumption.
  - rewrite Hb2, Hb1. apply CursorFacts.removelast_iter.
  - congruence.
Qed.

Lemma backspaces_undo_insert_witness :
  dispatchAll (atCursor [u "ab"] (u "cd") [] 1)
    (insert (LF :: u "xy")
     :: repeat backspace (length (LF :: u "xy")))
  = Some (atCursor [u "ab"] (u "cd") [] 1).
Proof.
  apply (@backspaces_undo_insert (atCursor [u "ab"] (u "cd") [] 1)
           (LF :: u "xy")).
  reflexivity.
Defined.

Module ArrowFacts.
Import StoredFacts JoinFacts BufferFacts CursorFacts.

Lemma at_mapped pre (line : str) post :
  at_ (map Some (pre ++ line :: post)) (length pre) = Some line.
Proof. exact (at_atCursor pre line post 0). Qed.

Lemma red_move_to state pre line post col (r c : Z) :
  lines state = map Some (pre ++ line :: post) ->
  col <= length line ->
  r = Z.of_nat (length pre) -> c = Z.of_nat col ->
  textBufferReducer state (move_cursor r c)
  = Some (atCursor pre line post col).
Proof.
  intros Hl Hc -> ->. unfold textBufferReducer. rewrite Hl.
  assert (Er : Z.max 0 (Z.min (Z.of_nat (length pre))
                          (Z.of_nat (length (map Some (pre ++ line :: post)))
                           - 1))
               = Z.of_nat (length pre)).
  { rewrite length_map, length_app. cbn [length]. unfold str. lia. }
  rewrite Er, Nat2Z.id, at_mapped. cbn [orEmpty].
  assert (Ec : Z.max 0 (Z.min (Z.of_nat col) (Z.of_nat (length line)))
               = Z.of_nat col) by lia.
  rewrite Ec, Nat2Z.id. reflexivity.
Qed.

Lemma skipn_head {A} (l : list A) n :
  n < length l ->
  exists c rest, skipn n l = c :: rest /\ firstn (S n) l = firstn n l ++ [c].
Proof.
  revert n. induction l as [|x l IH]; intros n H; cbn in H; [lia|].
  destruct n as [|n]; [now exists x, l|].
  destruct (IH n) as (c & rest & E1 & E2); [lia|].
  exists c, rest. split; [exact E1|].
  change (firstn (S (S n)) (x :: l)) with (x :: firstn (S n) l).
  now rewrite E2.
Qed.

Lemma handleInput_left state key :
  name key = u "left" ->
  eqb (sequence key) [127%N] = false -> eqb (sequence key) [8%N] = false ->
  handleInput state key
  = if 0 <? cursorCol state then
      textBufferReducer state
        (move_cursor (Z.of_nat (cursorRow state))
           (Z.of_nat (cursorCol state) - 1))
    else if 0 <? cursorRow state then
      match at_ (lines state) (cursorRow state - 1) with
      | Some prevLine =>
        textBufferReducer state
          (move_cursor (Z.of_nat (cursorRow state) - 1)
             (Z.of_nat (length prevLine)))
      | None => None
      end
    else textBufferReducer state (move_cursor 0 0).
Proof.
  intros Hn H1 H2. unfold handleInput. rewrite Hn, H1, H2. reflexivity.
Qed.

Lemma handleInput_right state key :
  name key = u "right" ->
  eqb (sequence key) [127%N] = false -> eqb (sequence key) [8%N] = false ->
  handleInput state key
  = if cursorCol state
       <? length (orEmpty (at_ (lines state) (cursorRow state)))
    then
      textBufferReducer state
        (move_cursor (Z.of_nat (cursorRow state))
           (Z.of_nat (cursorCol state) + 1))
    else if cursorRow state <? length (lines state) - 1 then
      textBufferReducer state (move_cursor (Z.of_nat (cursorRow state) + 1) 0)
    else textBufferReducer state (move_cursor (Z.of_nat (cursorRow state)) 0).
Proof.
  intros Hn H1 H2. unfold handleInput. rewrite Hn, H1, H2. reflexivity.
Qed.

End ArrowFacts.

Import StoredFacts JoinFacts BufferFacts CursorFacts ArrowFacts.

(** X20: the left arrow moves the cursor back by one code unit, over a
    line break to the end of the previous line, and stays at the start of
    the text; the lines are not changed. *)
Theorem left_arrow_steps_back (state : TextBufferState) (key : Key) :
  wellFormed state = true ->
  name key = u "left" ->
  eqb (sequence key) [127%N] = false ->
  eqb (sequence key) [8%N] = false ->
  exists state',
    handleInput state key = Some state'
    /\ wellFormed state' = true
    /\ lines state' = lines state
    /\ beforeCursor state' = removelast (beforeCursor state).
Proof.
  intros Hwf Hn H1 H2. rewrite (handleInput_left _ _ Hn H1 H2).
  destruct (wf_view _ Hwf) as (pre & line & post & col & -> & Hc & Hl).
  cbn [cursorRow cursorCol atCursor lines].
  destruct col as [|col].
  - cbn [Nat.ltb Nat.leb].
    destruct pre as [|prev pre _] using rev_ind.
    + cbn [length Nat.ltb Nat.leb].
      exists (atCursor [] line post 0). split.
      * apply red_move_to; [reflexivity | lia | reflexivity | reflexivity].
      * split; [exact Hwf|]. split; [reflexivity|].
        now rewrite before_atCursor.
    + assert (Er : length (pre ++ [prev]) = S (length pre))
        by (rewrite length_app; cbn; lia).
      rewrite Er. cbn [Nat.ltb Nat.leb].
      replace (S (length pre) - 1) with (length pre) by lia.
      rewrite <- app_assoc. cbn [app]. rewrite at_mapped.
      exists (atCursor pre prev (line :: post) (length prev)).
      apply lf_split in Hl. destruct Hl as (Hpre & Hline & Hpost).
      apply lf_snoc in Hpre. destruct Hpre as [Hpre Hprev].
      split; [|split; [|split]].
      * apply red_move_to; [|lia|lia|reflexivity].
        cbn [lines atCursor]. now rewrite <- app_assoc.
      * apply wf_atCursor; [lia|].
        apply lf_split. repeat split; try assumption.
        now apply lf_cons.
      * first [reflexivity | cbn [lines atCursor]; now rewrite <- app_assoc].
      * rewrite !before_atCursor, firstn_all. cbn [firstn].
        assert (Hne : pre ++ [prev] <> []) by (destruct pre; discriminate).
        rw (@join_snoc (pre ++ [prev]) [] Hne).
        now rewrite removelast_last.
  - assert (E0 : (0 <? S col) = true) by reflexivity. rewrite E0.
    exists (atCursor pre line post col).
    apply lf_split in Hl. destruct Hl as (Hpre & Hline & Hpost).
    split; [|split; [|split]].
    + apply red_move_to; [reflexivity | lia | reflexivity | lia].
    + apply wf_atCursor; [lia|]. now apply lf_split.
    + reflexivity.
    + rewrite !before_atCursor.
      destruct (@firstn_pred _ line (S col)) as (c & Ec); [lia | exact Hc |].
      rewrite Nat.sub_succ, Nat.sub_0_r in Ec.
      rw Ec. rw (join_mid pre (firstn col line) [c] []).
      rw (join_one [c]). now rewrite removelast_last.
Qed.

Lemma left_arrow_steps_back_witness :
  exists state',
    handleInput (atCursor [u "ab"] (u "cd") [] 0)
      (InputPrompt.arrow (u "left") []) = Some state'
    /\ wellFormed state' = true
    /\ lines state' = lines (atCursor [u "ab"] (u "cd") [] 0)
    /\ beforeCursor state'
       = removelast (beforeCursor (atCursor [u "ab"] (u "cd") [] 0)).
Proof.
  apply (@left_arrow_steps_back (atCursor [u "ab"] (u "cd") [] 0)
           (InputPrompt.arrow (u "left") [])); reflexivity.
Defined.

(** X21: the right arrow moves the cursor forward by one code unit, over
    a line break to the start of the next line; at the end of the text it
    does not stay: the cursor goes to column 0 of the last line.  The
    lines are not changed. *)
Theorem right_arrow_steps_forward_or_wraps
  (state : TextBufferState) (key : Key) :
  wellFormed state = true ->
  name key = u "right" ->
  eqb (sequence key) [127%N] = false ->
  eqb (sequence key) [8%N] = false ->
  exists state',
    handleInput state key = Some state'
    /\ wellFormed state' = true
    /\ lines state' = lines state
    /\ match afterCursor state with
       | c :: _ => beforeCursor state' = beforeCursor state ++ [c]
       | [] => cursorRow state' = cursorRow state /\ cursorCol state' = 0
       end.
Proof.
  intros Hwf Hn H1 H2. rewrite (handleInput_right _ _ Hn H1 H2).
  destruct (wf_view _ Hwf) as (pre & line & post & col & -> & Hc & Hl).
  rewrite after_atCursor.
  change (cursorRow (atCursor pre line post col)) with (length pre).
  rewrite at_atCursor.
  cbn [cursorCol atCursor lines orEmpty].
  apply lf_split in Hl. destruct Hl as (Hpre & Hline & Hpost).
  destruct (col <? length line) eqn:Elt.
  - apply Nat.ltb_lt in Elt.
    destruct (skipn_head line Elt) as (c & rest & Es & Ef).
    exists (atCursor pre line post (S col)).
    split; [|split; [|split]].
    + apply red_move_to; [reflexivity | lia | reflexivity | lia].
    + apply wf_atCursor; [lia|]. now apply lf_split.
    + reflexivity.
    + rw Es. assert (Ej : exists tl, join [LF] ((c :: rest) :: post) = c :: tl).
      { destruct post; [now exists rest|]. rewrite join_cons2. now eexists. }
      destruct Ej as (tl & Ej). unfold str in *. rewrite Ej.
      rewrite !before_atCursor. unfold str in *. rewrite Ef.
      rw (join_mid pre (firstn col line) [c] []).
      now rw (join_one [c]).
  - apply Nat.ltb_ge in Elt. assert (col = length line) by lia. subst col.
    rewrite skipn_all.
    rewrite length_map, length_app. cbn [length].
    destruct post as [|next post]; cbn [length].
    + assert (E : (length pre <? length pre + 1 - 1) = false)
        by (apply Nat.ltb_ge; lia).
      unfold str in *. rewrite E.
      exists (atCursor pre line [] 0).
      split; [|split; [|split]].
      * apply red_move_to; [reflexivity | lia | reflexivity | reflexivity].
      * apply wf_atCursor; [lia|]. now apply lf_split.
      * reflexivity.
      * cbn [join]. split; reflexivity.
    + assert (E : (length pre <? length pre + S (S (length post)) - 1) = true)
        by (apply Nat.ltb_lt; lia).
      unfold str in *. rewrite E.
      exists (atCursor (pre ++ [line]) next post 0).
      apply lf_cons in Hpost. destruct Hpost as [Hnext Hpost].
      split; [|split; [|split]].
      * apply red_move_to; [|lia| |reflexivity].
        -- cbn [lines]. now rewrite <- app_assoc.
        -- rewrite length_app. cbn [length]. lia.
      * apply wf_atCursor; [lia|].
        apply lf_split. repeat split; try assumption.
        apply lf_snoc. now split.
      * cbn [atCursor lines]. now rewrite <- app_assoc.
      * rewrite join_cons2. cbn [app].
        rewrite !before_atCursor, firstn_all. cbn [firstn].
        assert (Hne : pre ++ [line] <> []) by (destruct pre; discriminate).
        now rw (@join_snoc (pre ++ [line]) [] Hne).
Qed.

Lemma right_arrow_steps_forward_or_wraps_witness :
  exists state',
    handleInput (atCursor [u "ab"] (u "cd") [] 2)
      (InputPrompt.arrow (u "right") []) = Some state'
    /\ wellFormed state' = true
    /\ lines state' = lines (atCursor [u "ab"] (u "cd") [] 2)
    /\ match afterCursor (atCursor [u "ab"] (u "cd") [] 2) with
       | c :: _ =>
         beforeCursor state'
         = beforeCursor (atCursor [u "ab"] (u "cd") [] 2) ++ [c]
       | [] =>
         cursorRow state' = cursorRow (atCursor [u "ab"] (u "cd") [] 2)
         /\ cursorCol state' = 0
       end.
Proof.
  apply (@right_arrow_steps_forward_or_wraps
           (atCursor [u "ab"] (u "cd") [] 2)
           (InputPrompt.arrow (u "right") [])); reflexivity.
Defined.

Module PromptFacts.
Import StoredFacts JoinFacts BufferFacts CursorFacts ReducerFacts.
Import InputPrompt.

Lemma onInput_char toLowerCase c buffer :
  printable c = true ->
  onInput toLowerCase true [c] plain buffer
  = dispatched (textBufferReducer buffer (insert [c])).
Proof.
  unfold printable. rewrite andb_true_iff, negb_true_iff.
  intros [H32 H127]. unfold onInput. cbn [negb plain ctrl meta return_
    InputPrompt.backspace leftArrow rightArrow andb orb eqb].
  rewrite H127, H32. cbn [andb orb].
  assert (H8 : (c =? 8)%N = false).
  { apply N.eqb_neq. apply N.leb_le in H32. lia. }
  rewrite H8. reflexivity.
Qed.

Lemma onInputs_eta (r : option (TextBufferState * list str)) :
  match r with
  | Some (buffer, later) => Some (buffer, later)
  | None => None
  end = r.
Proof. now destruct r as [[? ?]|]. Qed.

Lemma onInputs_typed toLowerCase typed rest : forall buffer,
  forallb printable typed = true ->
  onInputs toLowerCase true (map (fun c => ([c], plain)) typed ++ rest) buffer
  = match dispatchAll buffer (map insert (map (fun c => [c]) typed)) with
    | Some buffer' => onInputs toLowerCase true rest buffer'
    | None => None
    end.
Proof.
  induction typed as [|c typed IH]; intros buffer H; [reflexivity|].
  cbn [forallb] in H. apply andb_true_iff in H. destruct H as [Hc H].
  cbn [map app onInputs dispatchAll]. rewrite (@onInput_char toLowerCase c buffer Hc).
  destruct (textBufferReducer buffer (insert [c])) as [b1|];
    [|reflexivity].
  cbn [dispatched]. rewrite (IH b1 H). apply onInputs_eta.
Qed.

Lemma concat_units (s : str) : concat (map (fun c => [c]) s) = s.
Proof. induction s as [|c s IH]; [reflexivity | cbn; now rewrite IH]. Qed.

End PromptFacts.

Import ReducerFacts PromptFacts.

(** X22: what is typed is what is submitted.  From the empty buffer,
    typing printable code units one by one and pressing Enter hands
    exactly the typed string to [onSubmit], once, and leaves the buffer
    empty; a string that trims to nothing is not submitted and stays in
    the buffer. *)
Theorem typed_text_is_submitted
  (toLowerCase : str -> str) (typed input : str) :
  forallb InputPrompt.printable typed = true ->
  exists buffer,
    InputPrompt.onInputs toLowerCase true
      (map (fun c => ([c], InputPrompt.plain)) typed
       ++ [(input, InputPrompt.enter)])
      (initialState [])
    = Some (buffer, match trim typed with
                    | [] => []
                    | _ :: _ => [typed]
                    end)
    /\ text buffer = match trim typed with
                     | [] => typed
                     | _ :: _ => []
                     end.
Proof.
  intros Hp.
  rewrite (@onInputs_typed toLowerCase typed [(input, InputPrompt.enter)]
             (initialState []) Hp).
  destruct (@inserts_view (map (fun c => [c]) typed) (initialState []))
    as (s' & E & Hwf & Hb & Ha); [reflexivity|].
  rewrite E. rewrite concat_units in Hb.
  assert (Etext : text s' = typed).
  { rewrite (text_split _ Hwf), Hb, Ha. cbn. now rewrite app_nil_r. }
  cbn [InputPrompt.onInputs]. unfold InputPrompt.onInput.
  cbn [negb InputPrompt.enter InputPrompt.ctrl InputPrompt.return_ andb].
  rewrite Etext.
  destruct (trim typed) as [|c0 t0] eqn:Etrim.
  - exists s'. split; [reflexivity | exact Etext].
  - unfold InputPrompt.handleSubmit. rewrite Etext, Etrim.
    rewrite (@red_set_text s' [] [] [] eq_refl).
    exists (atCursor [] [] [] 0). split; reflexivity.
Qed.

Lemma typed_text_is_submitted_witness :
  exists buffer,
    InputPrompt.onInputs asciiLower true
      (map (fun c => ([c], InputPrompt.plain)) (u "list files")
       ++ [([CR], InputPrompt.enter)])
      (initialState [])
    = Some (buffer, match trim (u "list files") with
                    | [] => []
                    | _ :: _ => [u "list files"]
                    end)
    /\ text buffer = match trim (u "list files") with
                     | [] => u "list files"
                     | _ :: _ => []
                     end.
Proof.
  apply (@typed_text_is_submitted asciiLower (u "list files") [CR]).
  reflexivity.
Defined.

(** ** The persona during a request *)

Module PersonaFacts.
Import BudgetFacts RequestFacts.

Lemma keeps_bind {A B} (c : M A) (f : A -> M B) :
  (forall w, personalityPrompt (snd (c w)) = personalityPrompt w) ->
  (forall a w, personalityPrompt (snd (f a w)) = personalityPrompt w) ->
  forall w, personalityPrompt (snd (bind c f w)) = personalityPrompt w.
Proof.
  intros Hc Hf w. unfold bind. specialize (Hc w).
  destruct (c w) as [[a|] w1]; cbn [snd] in *; [|exact Hc].
  now rewrite Hf.
Qed.

Create HintDb keeps.

Ltac keeps_step :=
  intros; cbv beta;
  lazymatch goal with
  | |- _ (snd (ret _ _)) = _ => reflexivity
  | |- _ (snd (get _ _)) = _ => reflexivity
  | |- _ (snd (throw _)) = _ => reflexivity
  | |- _ (snd (emit _ _)) = _ => apply personality_setTrace
  | |- _ (snd (suspend _)) = _ => apply await_personality
  | |- _ (snd (bind _ _ _)) = _ => apply keeps_bind
  | |- _ (snd ((if ?b then _ else _) _)) = _ => destruct b
  | |- _ (snd ((match ?b with _ => _ end) _)) = _ => destruct b
  | _ => solve [auto with keeps]
  end.

Ltac keeps := repeat keeps_step.

Lemma keeps_sleep ms w :
  personalityPrompt (snd (sleep ms w)) = personalityPrompt w.
Proof. unfold sleep. keeps. Qed.

Lemma keeps_ptyWrite bytes w :
  personalityPrompt (snd (ptyWrite bytes w)) = personalityPrompt w.
Proof. unfold ptyWrite. keeps. Qed.

#[local] Hint Resolve keeps_sleep keeps_ptyWrite : keeps.

Lemma keeps_sendToClaudeCode input w :
  personalityPrompt (snd (sendToClaudeCode input w)) = personalityPrompt w.
Proof. unfold sendToClaudeCode. keeps. Qed.

#[local] Hint Resolve keeps_sendToClaudeCode : keeps.

Lemma keeps_autoApprovePrompt output w :
  personalityPrompt (snd (autoApprovePrompt output w)) = personalityPrompt w.
Proof. unfold autoApprovePrompt. keeps. Qed.

#[local] Hint Resolve keeps_autoApprovePrompt : keeps.

Section WithModel.

Variable ollama : nat -> str -> GenResult.

Lemma keeps_generate prompt w :
  personalityPrompt (snd (generate ollama prompt w)) = personalityPrompt w.
Proof. unfold generate. keeps. Qed.

Hint Resolve keeps_generate : keeps.

Lemma keeps_handlePromptViaAni userInput claudePrompt w :
  personalityPrompt (snd (handlePromptViaAni ollama userInput claudePrompt w))
  = personalityPrompt w.
Proof. unfold handlePromptViaAni. keeps. Qed.

Hint Resolve keeps_handlePromptViaAni : keeps.

Lemma keeps_inspect userInput init last stable w :
  personalityPrompt (snd (inspect ollama userInput init last stable w))
  = personalityPrompt w.
Proof. unfold inspect. keeps. Qed.

Hint Resolve keeps_inspect : keeps.

Lemma keeps_tick userInput init last stable w :
  personalityPrompt (snd (tick ollama userInput init last stable w))
  = personalityPrompt w.
Proof. unfold tick. keeps. Qed.

Hint Resolve keeps_tick : keeps.

Lemma keeps_poll userInput init ticks : forall last stable w,
  personalityPrompt (snd (poll ollama ticks userInput init last stable w))
  = personalityPrompt w.
Proof.
  induction ticks as [|ticks IH]; intros last stable w; cbn [poll];
    [reflexivity|].
  revert w. keeps.
Qed.

Hint Resolve keeps_poll : keeps.

Lemma keeps_complete userInput init w :
  personalityPrompt (snd (complete ollama userInput init w))
  = personalityPrompt w.
Proof. unfold complete. keeps. Qed.

Hint Resolve keeps_complete : keeps.

Lemma keeps_assisted toLowerCase userInput w :
  personalityPrompt (snd (assisted toLowerCase ollama userInput w))
  = personalityPrompt w.
Proof. unfold assisted. keeps. Qed.

End WithModel.

(** Where the outcome of a request comes from: a reply of the assisted
    path, or the result of the call on the direct path, which is the last
    call of the request. *)
Lemma processRequest_origin toLowerCase ollama userInput w :
  let run := processRequest toLowerCase ollama userInput w in
  let persona := match personalityFile w with
                 | Some content => trim content
                 | None => defaultPersonality
                 end in
  exists o,
    fst run = Ok o
    /\ ((exists x tag, o = Reply x tag)
        \/ o = directOutcome
                 (ollama (calls (trace (snd run)) - 1)
                         (fullPrompt userInput persona))).
Proof.
  intros run persona. unfold run.
  set (w0 := setPersonality persona w).
  assert (Hstep : processRequest toLowerCase ollama userInput w
    = bind (if isTechnical toLowerCase userInput && claudeProcess w0
            then catch (assisted toLowerCase ollama userInput)
            else ret None)
           (fun r => match r with
                     | Some o => ret o
                     | None => direct ollama userInput
                     end) w0) by reflexivity.
  rewrite Hstep. clear Hstep.
  assert (Hdirect : forall w1,
    personalityPrompt w1 = persona ->
    exists o,
      fst (direct ollama userInput w1) = Ok o
      /\ ((exists x tag, o = Reply x tag)
          \/ o = directOutcome
                   (ollama (calls (trace (snd (direct ollama userInput w1)))
                            - 1)
                           (fullPrompt userInput persona)))).
  { intros w1 Hp. rewrite direct_run. cbn [fst snd].
    eexists. split; [reflexivity|]. right.
    rewrite trace_setTrace, calls_app, Hp. cbn [calls filter isGenerate length].
    now replace (calls (trace w1) + 1 - 1) with (calls (trace w1)) by lia. }
  destruct (isTechnical toLowerCase userInput && claudeProcess w0).
  - assert (Hk := keeps_assisted ollama toLowerCase userInput w0).
    destruct (adds_assisted toLowerCase ollama userInput w0)
      as (t1 & E1 & (Hf1 & Hr1)).
    assert (Hcatch : forall r w1,
      assisted toLowerCase ollama userInput w0 = (r, w1) ->
      catch (assisted toLowerCase ollama userInput) w0
      = (match r with Ok a => Ok a | Throw => Ok None end, w1)).
    { intros r w1 Hr. unfold catch. rewrite Hr. now destruct r. }
    destruct (assisted toLowerCase ollama userInput w0) as [[[o|]|] w1]
      eqn:Ea; cbn [fst snd] in *;
      rewrite (bind_ok _ _ _ (Hcatch _ _ eq_refl)).
    + destruct Hr1 as [[Hx|Hx] | (x & tag & Hx & _)]; try discriminate.
      injection Hx as ->. exists (Reply x tag). unfold ret. cbn [fst].
      split; [reflexivity|]. left. now exists x, tag.
    + now apply Hdirect.
    + now apply Hdirect.
  - rewrite (@bind_ok _ _ (ret None) _ w0 None w0 eq_refl).
    now apply Hdirect.
Qed.

Lemma failure_origin toLowerCase ollama userInput w e :
  fst (processRequest toLowerCase ollama userInput w) = Ok (Failure e) ->
  directOutcome
    (ollama (calls (trace (snd (processRequest toLowerCase ollama
                                  userInput w))) - 1)
            (fullPrompt userInput
               match personalityFile w with
               | Some content => trim content
               | None => defaultPersonality
               end))
  = Failure e.
Proof.
  intros Hf.
  destruct (processRequest_origin toLowerCase ollama userInput w)
    as (o & Ho & Hcase).
  cbv zeta in Ho, Hcase. rewrite Hf in Ho. injection Ho as <-.
  destruct Hcase as [(x & tag & Hx) | Hd]; [discriminate Hx|].
  now symmetry.
Qed.

End PersonaFacts.

(** X23: a request fails only on the direct path: a failure carries the
    error text of the last call of the secondary model, which is the call
    on the direct prompt; an error of an earlier call (escalation,
    assisted reply) is never reported. *)
Theorem failure_reports_the_last_call
  (toLowerCase : str -> str) (ollama : nat -> str -> GenResult)
  (userInput : str) (w : World) (e : str) :
  let run := processRequest toLowerCase ollama userInput w in
  let persona := match personalityFile w with
                 | Some content => trim content
                 | None => defaultPersonality
                 end in
  fst run = Ok (Failure e) ->
  AIWrapper.error (ollama (calls (trace (snd run)) - 1)
                          (fullPrompt userInput persona)) = Some e
  /\ e <> [].
Proof.
  cbv zeta. intros Hf.
  assert (Hd := PersonaFacts.failure_origin _ _ _ _ Hf).
  unfold directOutcome in Hd.
  destruct (AIWrapper.error _) as [[|c e']|]; cbn in Hd; try discriminate.
  injection Hd as <-. split; [reflexivity | discriminate].
Qed.

Lemma failure_reports_the_last_call_witness :
  let toLowerCase := asciiLower in
  let ollama := failsFirst (u "Hello!") in
  let userInput := u "Good morning" in
  let w := running [] [] in
  let e := u "Ollama request failed: Bad Gateway" in
  let run := processRequest toLowerCase ollama userInput w in
  let persona := match personalityFile w with
                 | Some content => trim content
                 | None => defaultPersonality
                 end in
  AIWrapper.error (ollama (calls (trace (snd run)) - 1)
                          (fullPrompt userInput persona)) = Some e
  /\ e <> [].
Proof.
  apply (@failure_reports_the_last_call asciiLower (failsFirst (u "Hello!"))
           (u "Good morning") (running [] [])
           (u "Ollama request failed: Bad Gateway")).
  vm_compute. reflexivity.
Defined.

(** ** The wrapper with its client *)

Module ClientFacts.
Import BudgetFacts RequestFacts PersonaFacts.
Import SimpleOllamaClient.

Section WithExchange.

Variable toLowerCase : str -> str.
Variable exchange : nat -> str -> Exchange.

Lemma client_generate_run prompt w :
  WithClient.generate exchange prompt w
  = (Ok (generate (exchange (calls (trace w)) prompt)),
     setTrace (trace w ++ [Generate prompt]) (await w)).
Proof.
  unfold WithClient.generate, bind, get, emit, suspend, ret.
  now rewrite await_setTrace.
Qed.

Lemma generate_failed reason statusText :
  truthy (SimpleOllamaClient.error (generate (Rejected reason))) = true
  /\ truthy (SimpleOllamaClient.error (generate (NotOk statusText))) = true
  /\ truthy (SimpleOllamaClient.error (generate (Unreadable reason))) = true.
Proof. vm_compute. repeat split. Qed.

(** The direct path with the client: it is the direct path on the reply
    read as a string, unless the response is truthy and not a string;
    then it throws, after the same call. *)
Lemma client_direct_cases userInput w :
  let prompt := fullPrompt userInput (personalityPrompt w) in
  let typed := direct (WithClient.ollama exchange) userInput w in
  (exchange (calls (trace w)) prompt <> Body (Other true)
   /\ WithClient.direct exchange userInput w = typed)
  \/ (exchange (calls (trace w)) prompt = Body (Other true)
      /\ WithClient.direct exchange userInput w = (Throw, snd typed)).
Proof.
  intros prompt typed. unfold typed, WithClient.direct.
  rewrite (bind_ok _ _ _ (get_run _ _)).
  rewrite (bind_ok _ _ _ (client_generate_run _ _)).
  rewrite direct_run. fold prompt.
  unfold WithClient.ollama, directOutcome.
  generalize (exchange (calls (trace w)) prompt). intros x.
  change (AIWrapper.error (WithClient.inTry (generate x)))
    with (SimpleOllamaClient.error (generate x)).
  destruct (truthy (SimpleOllamaClient.error (generate x))) eqn:Herr.
  - left. split.
    + now intros ->.
    + reflexivity.
  - destruct x as [reason|statusText|reason|[|[|c s]|[|]]];
      try (cbn [WithClient.orText WithClient.inTry generate
                SimpleOllamaClient.response SimpleOllamaClient.error
                AIWrapper.response truthy AIWrapper.text snd];
           unfold ret, throw).
    + destruct (generate_failed reason reason) as (H & _ & _). congruence.
    + destruct (generate_failed statusText statusText) as (_ & H & _).
      congruence.
    + destruct (generate_failed reason reason) as (_ & _ & H). congruence.
    + left. split; [discriminate | reflexivity].
    + left. split; [discriminate | reflexivity].
    + left. split; [discriminate | reflexivity].
    + right. split; reflexivity.
    + left. split; [discriminate | reflexivity].
Qed.
Lemma client_direct_trace userInput w :
  trace (snd (WithClient.direct exchange userInput w))
  = trace w ++ [Generate (fullPrompt userInput (personalityPrompt w))].
Proof.
  destruct (client_direct_cases userInput w) as [[_ E] | [_ E]];
    rewrite E, direct_run; reflexivity.
Qed.

(** The part of [processRequest] before the direct path. *)
Lemma assisted_part_keeps (ollama : nat -> str -> GenResult) userInput
      (technical : bool) w :
  let part := if technical
              then catch (assisted toLowerCase ollama userInput)
              else ret None in
  fst (part w) <> Throw
  /\ personalityPrompt (snd (part w)) = personalityPrompt w.
Proof.
  destruct technical; cbn zeta; [|split; [discriminate | reflexivity]].
  assert (Hk := keeps_assisted ollama toLowerCase userInput w).
  unfold catch.
  destruct (assisted toLowerCase ollama userInput w) as [[a|] w1];
    cbn [fst snd] in *; split; try discriminate; exact Hk.
Qed.

(** A request with the client is the request on the replies read as
    strings, unless the reply on the direct path, the last call, has a
    response that is truthy and not a string: then it throws. *)
Lemma client_request_cases userInput w :
  let persona := match personalityFile w with
                 | Some content => trim content
                 | None => defaultPersonality
                 end in
  let typed := processRequest toLowerCase (WithClient.ollama exchange)
                 userInput w in
  let run := WithClient.processRequest toLowerCase exchange userInput w in
  run = typed
  \/ (run = (Throw, snd typed)
      /\ exchange (calls (trace (snd typed)) - 1)
                  (fullPrompt userInput persona)
         = Body (Other true)).
Proof.
  intros persona typed run. unfold typed, run. clear typed run.
  set (w0 := setPersonality persona w).
  set (part := if isTechnical toLowerCase userInput && claudeProcess w0
               then catch (assisted toLowerCase (WithClient.ollama exchange)
                             userInput)
               else ret None).
  assert (H1 : WithClient.processRequest toLowerCase exchange userInput w
    = bind part (fun r => match r with
                          | Some o => ret o
                          | None => WithClient.direct exchange userInput
                          end) w0) by reflexivity.
  assert (H2 : processRequest toLowerCase (WithClient.ollama exchange)
                 userInput w
    = bind part (fun r => match r with
                          | Some o => ret o
                          | None => direct (WithClient.ollama exchange)
                                      userInput
                          end) w0) by reflexivity.
  rewrite H1, H2. clear H1 H2.
  destruct (assisted_part_keeps (WithClient.ollama exchange) userInput
              (isTechnical toLowerCase userInput && claudeProcess w0) w0)
    as [Hok Hp].
  fold part in Hok, Hp.
  destruct (part w0) as [[[o|]|] w1] eqn:Ep; cbn [fst snd] in *;
    [| | congruence].
  - left. now rewrite !(bind_ok _ _ _ Ep).
  - rewrite !(bind_ok _ _ _ Ep).
    change (personalityPrompt w0) with persona in Hp.
    destruct (client_direct_cases userInput w1) as [[_ E] | [Hx E]].
    + now left.
    + right. split; [exact E|].
      rewrite direct_run. cbn [snd].
      rewrite trace_setTrace, calls_app. cbn [calls filter isGenerate length].
      replace (calls (trace w1) + 1 - 1) with (calls (trace w1)) by lia.
      rewrite <- Hp. exact Hx.
Qed.

(** Without a technical keyword or without a session the request is the
    direct path. *)
Lemma client_direct_route userInput w :
  isTechnical toLowerCase userInput && claudeProcess w = false ->
  WithClient.processRequest toLowerCase exchange userInput w
  = WithClient.direct exchange userInput
      (setPersonality match personalityFile w with
                      | Some content => trim content
                      | None => defaultPersonality
                      end w).
Proof.
  intros H.
  set (w0 := setPersonality match personalityFile w with
                            | Some content => trim content
                            | None => defaultPersonality
                            end w).
  assert (H1 : WithClient.processRequest toLowerCase exchange userInput w
    = bind (if isTechnical toLowerCase userInput && claudeProcess w
            then catch (assisted toLowerCase (WithClient.ollama exchange)
                          userInput)
            else ret None)
           (fun r => match r with
                     | Some o => ret o
                     | None => WithClient.direct exchange userInput
                     end) w0) by reflexivity.
  rewrite H1, H.
  now rewrite (@bind_ok _ _ (ret None) _ w0 None w0 eq_refl).
Qed.

End WithExchange.

End ClientFacts.

(** X7: [processRequest], with the client the wrapper is built with,
    throws only when the reply of its last call, the call on the direct
    prompt, has a response that is truthy and not a string; otherwise it
    returns a reply tagged "claude+prompt+gemma", "claude+gemma" or
    "gemma", or a failure with a non-empty error text.  On the direct
    path such a reply does make it throw. *)
Theorem request_throws_only_on_untyped_reply
  (toLowerCase : str -> str)
  (exchange : nat -> str -> SimpleOllamaClient.Exchange)
  (userInput : str) (w : World) :
  let run := WithClient.processRequest toLowerCase exchange userInput w in
  let persona := match personalityFile w with
                 | Some content => trim content
                 | None => defaultPersonality
                 end in
  let last := exchange (calls (trace (snd run)) - 1)
                       (fullPrompt userInput persona) in
  match fst run with
  | Ok (Reply _ tag) =>
    In tag [u "claude+prompt+gemma"; u "claude+gemma"; u "gemma"]
  | Ok (Failure e) => e <> []
  | Throw => last = SimpleOllamaClient.Body (SimpleOllamaClient.Other true)
  end
  /\ (isTechnical toLowerCase userInput && claudeProcess w = false ->
      last = SimpleOllamaClient.Body (SimpleOllamaClient.Other true) ->
      fst run = Throw).
Proof.
  intros run persona last. split.
  - destruct (ClientFacts.client_request_cases toLowerCase exchange
                userInput w) as [E | [E Hx]]; fold run in E.
    + destruct (RequestFacts.processRequest_adds toLowerCase
                  (WithClient.ollama exchange) userInput w)
        as (t & o & _ & Ho & Hok & _).
      rewrite E, Ho. destruct o; exact Hok.
    + unfold last. rewrite E. exact Hx.
  - intros Hroute. unfold last, run.
    rewrite (ClientFacts.client_direct_route toLowerCase exchange
               userInput w Hroute).
    rewrite ClientFacts.client_direct_trace, calls_app.
    cbn [calls filter isGenerate length]. rewrite Nat.add_sub.
    intros Hx.
    destruct (ClientFacts.client_direct_cases exchange userInput
                (setPersonality persona w))
      as [[Hn _] | [_ E]]; [exfalso; exact (Hn Hx)|].
    exact (f_equal fst E).
Qed.

(** An object as response makes the request throw. *)
Lemma request_throws_only_on_untyped_reply_witness :
  fst (WithClient.processRequest asciiLower
         (fun _ _ => SimpleOllamaClient.Body (SimpleOllamaClient.Other true))
         (u "Good morning") (running [] []))
  = Throw.
Proof.
  apply (proj2 (@request_throws_only_on_untyped_reply asciiLower
                  (fun _ _ => SimpleOllamaClient.Body
                                (SimpleOllamaClient.Other true))
                  (u "Good morning") (running [] [])));
    reflexivity.
Defined.

(** X24: with the client, a request fails only when the HTTP exchange of
    its last call did not give a body to read, and the error is the
    client's message for it: "Ollama connection failed: " with the reason
    when [fetch] rejected, or when the response was ok but [json]
    rejected or the body was [null]; "Ollama request failed: " with the
    status text when the response was not ok.  A response whose body was
    read never gives a failure. *)
Theorem client_failure_is_an_exchange_failure
  (toLowerCase : str -> str)
  (exchange : nat -> str -> SimpleOllamaClient.Exchange)
  (userInput : str) (w : World) (e : str) :
  let run := WithClient.processRequest toLowerCase exchange userInput w in
  let persona := match personalityFile w with
                 | Some content => trim content
                 | None => defaultPersonality
                 end in
  fst run = Ok (Failure e) ->
  match exchange (calls (trace (snd run)) - 1)
                 (fullPrompt userInput persona) with
  | SimpleOllamaClient.Rejected reason
  | SimpleOllamaClient.Unreadable reason =>
    e = u "Ollama connection failed: " ++ reason
  | SimpleOllamaClient.NotOk statusText =>
    e = u "Ollama request failed: " ++ statusText
  | SimpleOllamaClient.Body _ => False
  end.
Proof.
  intros run persona Hf.
  destruct (ClientFacts.client_request_cases toLowerCase exchange
              userInput w) as [E | [E _]]; fold run in E;
    [| rewrite E in Hf; discriminate].
  rewrite E in *.
  assert (Hd := @PersonaFacts.failure_origin toLowerCase
                  (WithClient.ollama exchange) userInput w e Hf).
  fold persona in Hd.
  generalize dependent
    (calls (trace (snd (processRequest toLowerCase
                          (WithClient.ollama exchange) userInput w))) - 1).
  intros n Hd. unfold WithClient.ollama in Hd.
  destruct (exchange n (fullPrompt userInput persona))
    as [reason|statusText|reason|data]; cbn in Hd.
  - now injection Hd.
  - now injection Hd.
  - now injection Hd.
  - destruct data as [|[|c s]|[|]]; discriminate Hd.
Qed.

Lemma client_failure_is_an_exchange_failure_witness :
  let toLowerCase := asciiLower in
  let exchange := fun (_ : nat) (_ : str) =>
                    SimpleOllamaClient.NotOk (u "Bad Gateway") in
  let userInput := u "Good morning" in
  let w := running [] [] in
  let e := u "Ollama request failed: Bad Gateway" in
  let run := WithClient.processRequest toLowerCase exchange userInput w in
  let persona := match personalityFile w with
                 | Some content => trim content
                 | None => defaultPersonality
                 end in
  match exchange (calls (trace (snd run)) - 1)
                 (fullPrompt userInput persona) with
  | SimpleOllamaClient.Rejected reason
  | SimpleOllamaClient.Unreadable reason =>
    e = u "Ollama connection failed: " ++ reason
  | SimpleOllamaClient.NotOk statusText =>
    e = u "Ollama request failed: " ++ statusText
  | SimpleOllamaClient.Body _ => False
  end.
Proof.
  apply (@client_failure_is_an_exchange_failure asciiLower
           (fun _ _ => SimpleOllamaClient.NotOk (u "Bad Gateway"))
           (u "Good morning") (running [] [])
           (u "Ollama request failed: Bad Gateway")).
  vm_compute. reflexivity.
Defined.

(** X25: the keywords that the debug log records for a request agree
    with the routing, the keyword "see" apart: a request for which any
    other keyword is logged is technical. *)
Theorem logged_keyword_means_technical
  (toLowerCase : str -> str) (input keyword : str) :
  In keyword (DebugLogger.extractKeywords toLowerCase input) ->
  keyword <> u "see" ->
  isTechnical toLowerCase input = true.
Proof.
  unfold DebugLogger.extractKeywords. rewrite filter_In.
  intros [Hin Hinc] Hsee. unfold isTechnical.
  apply existsb_exists. exists keyword. split; [|exact Hinc].
  unfold DebugLogger.keywords in Hin. cbn [map In] in Hin.
  unfold technicalKeywords. cbn [map In].
  repeat (destruct Hin as [<- | Hin]; [tauto|]).
  contradiction.
Qed.

Lemma logged_keyword_means_technical_witness :
  isTechnical asciiLower (u "List the folder") = true.
Proof.
  apply (@logged_keyword_means_technical asciiLower (u "List the folder")
           (u "folder")); vm_compute; [tauto | discriminate].
Defined.

(** X26: in Ani mode a submitted text adds exactly two messages: the
    text, from the user, and then one of three: the reply, from Ani, with
    the status "Ready | " and the source tag; the error text of a failed
    request, after which the status line still reads "Thinking..."; or
    "Processing failed: " with the thrown value and the status "Error",
    which happens only when the reply of the last call has a response
    that is truthy and not a string. *)
Theorem ani_submit_adds_two_messages
  (toLowerCase : str -> str)
  (exchange : nat -> str -> SimpleOllamaClient.Exchange)
  (thrown input : str) (s : App.AppState) (w : World) :
  App.mode s = App.ani ->
  let out := App.handleSubmit toLowerCase exchange thrown input s w in
  let s' := fst out in
  let persona := match personalityFile w with
                 | Some content => trim content
                 | None => defaultPersonality
                 end in
  let last := exchange (calls (trace (snd out)) - 1)
                       (fullPrompt input persona) in
  exists reply,
    App.messages s'
    = App.messages s
      ++ [{| App.sender := u "user"; App.content := Some input |}; reply]
    /\ ((App.sender reply = u "ani"
         /\ exists x tag,
              App.content reply = Some x
              /\ In tag [u "claude+prompt+gemma"; u "claude+gemma"; u "gemma"]
              /\ App.status s' = u "Ready | " ++ tag)
        \/ (App.sender reply = u "error"
            /\ (exists e, App.content reply = Some e /\ e <> [])
            /\ App.status s' = u "Thinking...")
        \/ (reply = {| App.sender := u "error";
                       App.content :=
                         Some (u "Processing failed: " ++ thrown) |}
            /\ App.status s' = u "Error"
            /\ last = SimpleOllamaClient.Body
                        (SimpleOllamaClient.Other true))).
Proof.
  intros Hm out s' persona last. unfold last, s', out, App.handleSubmit.
  clear last s' out.
  cbn [App.mode App.addMessage App.setStatus]. rewrite Hm.
  destruct (RequestFacts.processRequest_adds toLowerCase
              (WithClient.ollama exchange) input w)
    as (t & o & _ & Ho & Hok & _).
  destruct (ClientFacts.client_request_cases toLowerCase exchange input w)
    as [E | [E Hx]]; fold persona in E || idtac; rewrite E; clear E.
  - destruct (processRequest toLowerCase (WithClient.ollama exchange)
                input w) as [r w'].
    cbn [fst] in Ho. subst r.
    destruct o as [x tag | [|c e]]; cbn [fst snd];
      unfold App.setStatus, App.addMessage;
      cbn [App.messages App.status App.mode].
    + exists {| App.sender := u "ani"; App.content := Some x |}.
      split; [now rewrite <- app_assoc|]. left.
      split; [reflexivity|]. exists x, tag.
      split; [reflexivity|]. split; [exact Hok|].
      cbn in Hok. destruct Hok as [<- | [<- | [<- | []]]]; reflexivity.
    + now cbn in Hok.
    + exists {| App.sender := u "error"; App.content := Some (c :: e) |}.
      split; [now rewrite <- app_assoc|]. right. left.
      split; [reflexivity|]. split; [|reflexivity].
      exists (c :: e). split; [reflexivity | discriminate].
  - fold persona in Hx. cbn [fst snd].
    unfold App.setStatus, App.addMessage.
    cbn [App.messages App.status App.mode].
    exists {| App.sender := u "error";
              App.content := Some (u "Processing failed: " ++ thrown) |}.
    split; [now rewrite <- app_assoc|]. right. right.
    split; [reflexivity|]. split; [reflexivity | exact Hx].
Qed.

Lemma ani_submit_adds_two_messages_witness :
  let exchange := fun (_ : nat) (_ : str) =>
                    SimpleOllamaClient.Body
                      (SimpleOllamaClient.Text (u "Hello!")) in
  let s := {| App.mode := App.ani; App.messages := [];
              App.status := u "Ready" |} in
  let w := running [] [] in
  let input := u "Good morning" in
  let out := App.handleSubmit asciiLower exchange [] input s w in
  let s' := fst out in
  let persona := match personalityFile w with
                 | Some content => trim content
                 | None => defaultPersonality
                 end in
  let last := exchange (calls (trace (snd out)) - 1)
                       (fullPrompt input persona) in
  exists reply,
    App.messages s'
    = App.messages s
      ++ [{| App.sender := u "user"; App.content := Some input |}; reply]
    /\ ((App.sender reply = u "ani"
         /\ exists x tag,
              App.content reply = Some x
              /\ In tag [u "claude+prompt+gemma"; u "claude+gemma"; u "gemma"]
              /\ App.status s' = u "Ready | " ++ tag)
        \/ (App.sender reply = u "error"
            /\ (exists e, App.content reply = Some e /\ e <> [])
            /\ App.status s' = u "Thinking...")
        \/ (reply = {| App.sender := u "error";
                       App.content :=
                         Some (u "Processing failed: " ++ []) |}
            /\ App.status s' = u "Error"
            /\ last = SimpleOllamaClient.Body
                        (SimpleOllamaClient.Other true))).
Proof.
  apply (@ani_submit_adds_two_messages asciiLower
           (fun _ _ => SimpleOllamaClient.Body
                         (SimpleOllamaClient.Text (u "Hello!")))
           [] (u "Good morning")
           {| App.mode := App.ani; App.messages := [];
              App.status := u "Ready" |}
           (running [] [])).
  reflexivity.
Defined.

(** A number as response is reported as a failure of the processing. *)
Example untyped_reply_is_a_processing_failure :
  let out := App.handleSubmit asciiLower
               (fun _ _ => SimpleOllamaClient.Body
                             (SimpleOllamaClient.Other true))
               (u "TypeError: gemmaResponse.substring is not a function")
               (u "Good morning")
               {| App.mode := App.ani; App.messages := [];
                  App.status := u "Ready" |}
               (running [] []) in
  App.status (fst out) = u "Error"
  /\ map App.content (App.messages (fst out))
     = [Some (u "Good morning");
        Some (u "Processing failed: TypeError: gemmaResponse.substring is not a function")].
Proof. vm_compute. split; reflexivity. Qed.

(** X27: in Claude mode a text submitted while no session is running is
    not sent anywhere: nothing is written, the world is unchanged, and the
    chat gets the text and one error message; the status goes back to
    "Ready". *)
Theorem claude_submit_without_session
  (toLowerCase : str -> str)
  (exchange : nat -> str -> SimpleOllamaClient.Exchange)
  (thrown input : str) (s : App.AppState) (w : World) :
  App.mode s = App.claude ->
  claudeProcess w = false ->
  App.handleSubmit toLowerCase exchange thrown input s w
  = ({| App.mode := App.claude;
        App.messages :=
          App.messages s
          ++ [{| App.sender := u "user"; App.content := Some input |};
              {| App.sender := u "error";
                 App.content := Some (u "Claude Code error: " ++ thrown) |}];
        App.status := u "Ready" |},
     w).
Proof.
  intros Hm Hdead. unfold App.handleSubmit.
  cbn [App.mode App.addMessage App.setStatus]. rewrite Hm.
  rewrite (sendToClaudeCode_dead input w Hdead).
  unfold App.setStatus, App.addMessage.
  cbn [App.messages App.status App.mode].
  rewrite Hm, <- app_assoc. reflexivity.
Qed.

Lemma claude_submit_without_session_witness :
  App.handleSubmit asciiLower
    (fun _ _ => SimpleOllamaClient.Body
                  (SimpleOllamaClient.Text (u "Hello!")))
    (u "Error: Claude Code is not running") (u "ls")
    {| App.mode := App.claude; App.messages := [];
       App.status := u "Ready" |}
    (setProcess false (running [] []))
  = ({| App.mode := App.claude;
        App.messages :=
          App.messages {| App.mode := App.claude; App.messages := [];
                          App.status := u "Ready" |}
          ++ [{| App.sender := u "user"; App.content := Some (u "ls") |};
              {| App.sender := u "error";
                 App.content :=
                   Some (u "Claude Code error: "
                         ++ u "Error: Claude Code is not running") |}];
        App.status := u "Ready" |},
     setProcess false (running [] [])).
Proof.
  apply (@claude_submit_without_session asciiLower
           (fun _ _ => SimpleOllamaClient.Body
                         (SimpleOllamaClient.Text (u "Hello!")))
           (u "Error: Claude Code is not running") (u "ls")
           {| App.mode := App.claude; App.messages := [];
              App.status := u "Ready" |}
           (setProcess false (running [] []))); reflexivity.
Defined.
